(** * panagram: the pan-k-mer bitmap index (src/panagram/index.py)

    A shallow embedding of the bitmap storage-and-query engine of
    [panagram.index]: the bit packer and multi-resolution writer
    ([Genome._query_kmc_bytes], [Genome._write_bitmap]), the block index
    loader ([Genome.load_bgz_blocks]), the random-access read path
    ([Genome.query], [Genome._query_bytes], [Genome._bytes_to_bits]) and the
    occurrence aggregation ([Genome.bitsum_count], [Index.bitsum_count]);
    beside them, the chromosome table ([Genome.init_chrs]), the occurrence
    bins of [Genome.run_anchor], the names of the files
    ([Genome.bgz_fname], [Genome.idx_fname]), the queries through the
    index ([Index.query_bitmap]) and the grouping of the genomes into
    k-mer databases ([Index._iter_kmc_genome_args], [Index.init_opdefs]).

    Python integers are [Z]; byte buffers are [list Z] (values of a uint8
    array); two-dimensional uint8 arrays are lists of rows; dictionaries
    keyed by the resolution step are [gmap Z]; exceptions are the [Err]
    results of a small error monad.  The collaborators the code calls
    (numpy slicing and searchsorted, Biopython's BGZF reader, the block
    index written by bgzip) are modelled by the definitions of the first
    two parts, from their documented behaviour. *)

From stdpp Require Import base list gmap strings pretty.
From Stdlib Require Import ZArith Lia Sorted.

Local Open Scope Z_scope.

(** ** Exceptions and the error monad *)

Inductive exn : Set :=
  | KeyError
  | IndexError
  | ValueError
  | ZeroDivisionError
  | NotImplementedError.

Inductive result (A : Type) : Type :=
  | Ok (a : A)
  | Err (e : exn).
Arguments Ok {A} a.
Arguments Err {A} e.

#[export] Instance result_ret : MRet result := fun A a => Ok a.
#[export] Instance result_bind : MBind result := fun A B f m =>
  match m with
  | Ok a => f a
  | Err e => Err e
  end.

Definition is_Err {A} (m : result A) : Prop := exists e, m = Err e.

Definition of_option {A} (e : exn) (o : option A) : result A :=
  match o with
  | Some a => Ok a
  | None => Err e
  end.

(** A dictionary lookup [d[k]]: [KeyError] when the key is missing. *)
Definition dict_get {V} (d : gmap Z V) (k : Z) : result V :=
  of_option KeyError (d !! k).

(** ** numpy and Python primitives *)

Definition len {A} (l : list A) : Z := Z.of_nat (length l).

(** [np.ceil(a / b)] on integers (exact while the operands stay below 2^53,
    as chromosome sizes and genome counts do). *)
Definition ceil_div (a b : Z) : Z := - ((- a) / b).

(** [a[i]] for an integer index: negative indices count from the end. *)
Definition np_index {A} (a : list A) (i : Z) : result A :=
  if (0 <=? i) && (i <? len a) then of_option IndexError (a !! Z.to_nat i)
  else if (- len a <=? i) && (i <? 0) then of_option IndexError (a !! Z.to_nat (i + len a))
  else Err IndexError.

(** [a[::k]] for [k >= 1]: the elements at indices [0, k, 2k, ...].
    [stride_from k j a] skips [j] elements before the first one it keeps. *)
Fixpoint stride_from {A} (k j : nat) (a : list A) : list A :=
  match a with
  | [] => []
  | x :: t =>
      match j with
      | O => x :: stride_from k (k - 1) t
      | S j' => stride_from k j' t
      end
  end.

Definition stride {A} (k : nat) (a : list A) : list A := stride_from k 0 a.

(** [a[::s]] for any integer [s]: a zero step is a [ValueError], a negative
    one walks backwards from the last element. *)
Definition slice_step {A} (a : list A) (s : Z) : result (list A) :=
  if s =? 0 then Err ValueError
  else if 0 <? s then Ok (stride (Z.to_nat s) a)
  else Ok (stride (Z.to_nat (- s)) (reverse a)).

(** [buf.reshape((m, n))]: [m] rows of [n] bytes, the sizes must agree. *)
Fixpoint chunks {A} (m n : nat) (buf : list A) : list (list A) :=
  match m with
  | O => []
  | S m' => take n buf :: chunks m' n (drop n buf)
  end.

Definition reshape {A} (buf : list A) (m n : Z) : result (list (list A)) :=
  if (0 <=? m) && (0 <=? n) && (m * n =? len buf)
  then Ok (chunks (Z.to_nat m) (Z.to_nat n) buf)
  else Err ValueError.

(** [np.unpackbits(., bitorder="little")] on one byte. *)
Definition byte_bits (b : Z) : list bool :=
  map (Z.testbit b) [0; 1; 2; 3; 4; 5; 6; 7].

(** [np.packbits(., bitorder="little")] on at most eight bits. *)
Fixpoint bits_byte (bs : list bool) : Z :=
  match bs with
  | [] => 0
  | b :: t => Z.b2z b + 2 * bits_byte t
  end.

(** [.sum(axis=1)] of a 0/1 matrix. *)
Definition row_sum (r : list bool) : Z :=
  Z.of_nat (length (filter (fun b => b = true) r)).

Definition sum_axis1 (m : list (list bool)) : list Z := map row_sum m.

(** [np.searchsorted(a, v, side="right")]: bisection over [lo, hi). *)
Fixpoint bisect_right (fuel : nat) (a : list Z) (v : Z) (lo hi : nat) : nat :=
  match fuel with
  | O => lo
  | S fuel' =>
      if (lo <? hi)%nat then
        let mid := (lo + (hi - lo) / 2)%nat in
        if v <? default 0 (a !! mid)
        then bisect_right fuel' a v lo mid
        else bisect_right fuel' a v (S mid) hi
      else lo
  end.

Definition searchsorted_right (a : list Z) (v : Z) : Z :=
  Z.of_nat (bisect_right (length a) a v 0 (length a)).

(** Little-endian fixed-width integers as numpy reads and views them. *)
Fixpoint le_bytes (n : nat) (v : Z) : list Z :=
  match n with
  | O => []
  | S n' => v mod 256 :: le_bytes n' (v / 256)
  end.

Fixpoint le_value (bs : list Z) : Z :=
  match bs with
  | [] => 0
  | b :: t => b + 256 * le_value t
  end.

(** [astype(int)] of a uint64: the two's-complement reading. *)
Definition to_int64 (v : Z) : Z :=
  if v <? 2 ^ 63 then v else v - 2 ^ 64.

(** [pd.Series(occs).value_counts()]: each distinct value with the number
    of its occurrences (the Series as a map from value to count). *)
Definition hist_get (h : gmap Z Z) (k : Z) : Z := default 0 (h !! k).

Definition value_counts (occs : list Z) : gmap Z Z :=
  foldr (fun o h => <[o := hist_get h o + 1]> h) ∅ occs.

Definition hist_total (h : gmap Z Z) : Z :=
  map_fold (fun _ c acc => c + acc) 0 h.

(** [np.unique(occs, return_counts=True)]: the distinct values in
    increasing order, each with its count. *)
Fixpoint unique_insert (o : Z) (u : list (Z * Z)) : list (Z * Z) :=
  match u with
  | [] => [(o, 1)]
  | (v, c) :: t =>
      if o <? v then (o, 1) :: u
      else if o =? v then (v, c + 1) :: t
      else (v, c) :: unique_insert o t
  end.

Definition np_unique (occs : list Z) : list (Z * Z) :=
  foldr unique_insert [] occs.

(** ** The block-compressed stream (BGZF) and its reader

    A bitmap file is a sequence of compressed blocks; a block is known by
    the number of bytes it takes in the file ([block_raw_length]) and by
    the bytes it decompresses to ([block_data]).  *)

Record bgzf_block : Type := BgzfBlock {
  block_raw_length : Z;
  block_data : list Z
}.

Definition bgzf_file : Type := list bgzf_block.

(** The decompressed stream. *)
Definition decompress (f : bgzf_file) : list Z :=
  concat (map block_data f).

(** The compressed and decompressed offsets at which each block starts,
    the first block being at [(c, d)]. *)
Fixpoint block_offsets (f : bgzf_file) (c d : Z) : list (Z * Z) :=
  match f with
  | [] => []
  | b :: rest =>
      (c, d) :: block_offsets rest (c + block_raw_length b) (d + len (block_data b))
  end.

(** The block index that [bgzip -rI] leaves beside a bitmap file, as
    [load_bgz_blocks] returns it: an entry per block, the first of them
    being the synthetic [(0, 0)]. *)
Definition gzi_entries (f : bgzf_file) : list (Z * Z) :=
  tail (block_offsets f 0 0).

Definition gzi_index (f : bgzf_file) : list (Z * Z) :=
  (0, 0) :: gzi_entries f.

(** The bytes of a block index file: the number of persisted entries,
    then the entries, each integer as a little-endian uint64. *)
Definition gzi_file (entries : list (Z * Z)) : list Z :=
  le_bytes 8 (len entries)
  ++ concat (map (fun e => le_bytes 8 e.1 ++ le_bytes 8 e.2) entries).

(** [bgzf.make_virtual_offset]. *)
Definition make_virtual_offset (block_start_offset within_block_offset : Z) : result Z :=
  if (within_block_offset <? 0) || (65536 <=? within_block_offset) then Err ValueError
  else if (block_start_offset <? 0) || (281474976710656 <=? block_start_offset) then Err ValueError
  else Ok (Z.lor (Z.shiftl block_start_offset 16) within_block_offset).

(** The calls a reader has received, oldest first. *)
Inductive bgzf_call : Set :=
  | Seek (virtual_offset : Z)
  | Read (size : Z).

(** [bgzf.BgzfReader]: the file, the start of the loaded block, the
    position inside its decompressed data, and the calls received. *)
Record BgzfReader : Type := mkReader {
  rd_file : bgzf_file;
  rd_block_start : Z;
  rd_within : Z;
  rd_calls : list bgzf_call
}.

(** A reader as [BgzfReader(fname, "rb")] opens it. *)
Definition bgzf_open (f : bgzf_file) : BgzfReader :=
  mkReader f 0 0 [].

(** [_load_block(start_offset)]: the blocks of the file from the one that
    starts at compressed offset [start_offset] on ([pos] is the offset of
    the first block of [f]).  At or after the end of the file nothing is
    left (the reader then holds an empty buffer); an offset inside a block
    does not start with the block magic. *)
Fixpoint blocks_at (f : bgzf_file) (pos start_offset : Z) : result bgzf_file :=
  if pos =? start_offset then Ok f
  else
    match f with
    | [] => Ok []
    | b :: rest =>
        if start_offset <? pos + block_raw_length b then Err ValueError
        else blocks_at rest (pos + block_raw_length b) start_offset
    end.

Definition buffer_of (blocks : bgzf_file) : list Z :=
  match blocks with
  | [] => []
  | b :: _ => block_data b
  end.

(** [BgzfReader.seek]. *)
Definition bgzf_seek (r : BgzfReader) (virtual_offset : Z) : result BgzfReader :=
  let start_offset := Z.shiftr virtual_offset 16 in
  let within_block := Z.lxor virtual_offset (Z.shiftl start_offset 16) in
  blocks ← blocks_at (rd_file r) 0 start_offset;
  if len (buffer_of blocks) <? within_block then Err ValueError
  else Ok (mkReader (rd_file r) start_offset within_block
                    (rd_calls r ++ [Seek virtual_offset])).

(** The loop of [BgzfReader.read]: [blocks] starts with the loaded block,
    which begins at [start]; the result is the data read and the position
    the reader is left at. *)
Fixpoint read_loop (blocks : bgzf_file) (start : Z) (within size : nat)
    : list Z * (Z * nat) :=
  match blocks with
  | [] => ([], (start, within))
  | b :: rest =>
      if (size =? 0)%nat || (block_raw_length b =? 0) then ([], (start, within))
      else if (within + size <=? length (block_data b))%nat
      then (take size (drop within (block_data b)), (start, (within + size)%nat))
      else
        let data := drop within (block_data b) in
        let '(more, pos) :=
          read_loop rest (start + block_raw_length b) 0 (size - length data) in
        (data ++ more, pos)
  end.

(** [BgzfReader.read]. *)
Definition bgzf_read (r : BgzfReader) (size : Z) : result (list Z * BgzfReader) :=
  if size <? 0 then Err NotImplementedError
  else
    blocks ← blocks_at (rd_file r) 0 (rd_block_start r);
    let '(data, (start, within)) :=
      read_loop blocks (rd_block_start r) (Z.to_nat (rd_within r)) (Z.to_nat size) in
    Ok (data, mkReader (rd_file r) start (Z.of_nat within)
                       (rd_calls r ++ [Read size])).

(** A file as a BGZF writer produces it: every block takes room in the
    file, decompresses to less than 64 KiB, and starts below 2^48. *)
Definition raw_size (f : bgzf_file) : Z :=
  foldr (fun b acc => block_raw_length b + acc) 0 f.

Definition blocks_ok (f : bgzf_file) : Prop :=
  Forall (fun b => 0 < block_raw_length b /\ len (block_data b) < 65536) f.

Definition file_ok (f : bgzf_file) : Prop :=
  blocks_ok f /\ raw_size f < 281474976710656.

(** The compressed and the decompressed offset of block [i]. *)
Definition cstart (f : bgzf_file) (i : nat) : Z := raw_size (take i f).
Definition dstart (f : bgzf_file) (i : nat) : Z := len (decompress (take i f)).

(** A non-decreasing array, as [searchsorted] expects. *)
Definition mono (a : list Z) : Prop :=
  forall i j x y, (i <= j)%nat -> a !! i = Some x -> a !! j = Some y -> x <= y.

(** Rows of one width. *)
Definition uniform {A} (n : nat) (rows : list (list A)) : Prop :=
  Forall (fun row => length row = n) rows.

Definition sumZ (l : list Z) : Z := foldr Z.add 0 l.


(** The number of entries of [occs] equal to [k]. *)
Definition occurrences (k : Z) (occs : list Z) : Z :=
  len (filter (fun o => o = k) occs).

(** A call that returns the value [a] (and leaves some state). *)
Definition returns {A S} (m : result (A * S)) (a : A) : Prop :=
  exists s, m = Ok (a, s).

(** A loop whose body may raise. *)
Fixpoint foldM {A B} (f : B -> A -> result B) (b : B) (l : list A) : result B :=
  match l with
  | [] => Ok b
  | x :: t => b' ← f b x; foldM f b' t
  end.

(** [np.fromfile(f, dtype, count)] on the unread bytes [data] of a file:
    at most [count] whole items of [itemsize] bytes, and what is left. *)
Definition fromfile (itemsize : nat) (count : Z) (data : list Z)
    : list (list Z) * list Z :=
  let n := Nat.min (Z.to_nat count) (length data / itemsize) in
  (chunks n itemsize data, drop (n * itemsize) data).

(** [a[1:] = b] where [a] has [n + 1] entries: [b] must have [n] entries,
    or one entry that is broadcast. *)
Definition assign_tail {A} (n : Z) (b : list A) : result (list A) :=
  if len b =? n then Ok b
  else
    match b with
    | [x] => Ok (replicate (Z.to_nat n) x)
    | _ => Err ValueError
    end.

(** [np.concatenate(arrs, axis=1)]: the arrays side by side. *)
Fixpoint hconcat {A} (arrs : list (list (list A))) : result (list (list A)) :=
  match arrs with
  | [] => Err ValueError
  | [a] => Ok a
  | a :: rest =>
      r ← hconcat rest;
      if (length a =? length r)%nat then Ok (zip_with app a r) else Err ValueError
  end.

(** [d[k].append(a)] on a [defaultdict(list)], keys in insertion order. *)
Fixpoint dd_append {A} (k : Z) (a : A) (d : list (Z * list A)) : list (Z * list A) :=
  match d with
  | [] => [(k, [a])]
  | (k', l) :: rest =>
      if k' =? k then (k', l ++ [a]) :: rest else (k', l) :: dd_append k a rest
  end.

(** [ret[i] = v] on a uint32 array. *)
Definition np_put (ret : list Z) (i v : Z) : result (list Z) :=
  if (0 <=? i) && (i <? len ret) then Ok (<[Z.to_nat i := v mod 2 ^ 32]> ret)
  else if (- len ret <=? i) && (i <? 0)
  then Ok (<[Z.to_nat (i + len ret) := v mod 2 ^ 32]> ret)
  else Err IndexError.

(** ** Ranges, slices, paths *)

(** [np.arange(start, stop, step)] on integers. *)
Definition np_arange (start stop step : Z) : result (list Z) :=
  if step =? 0 then Err ZeroDivisionError
  else Ok (map (fun j => start + j * step) (seqZ 0 (ceil_div (stop - start) step))).

(** [np.clip(x, a_min, a_max)] *)
Definition np_clip (x a_min a_max : Z) : Z := Z.min a_max (Z.max x a_min).

(** [a[start:stop]]: a negative bound counts from the end, and both bounds
    are brought into the array. *)
Definition slice_bound (n i : Z) : Z :=
  if i <? 0 then Z.max 0 (i + n) else Z.min i n.

Definition np_slice {A} (a : list A) (start stop : Z) : list A :=
  let lo := slice_bound (len a) start in
  let hi := slice_bound (len a) stop in
  take (Z.to_nat (hi - lo)) (drop (Z.to_nat lo) a).

(** [s.reindex(cols)] on a Series of counts: the entries at the labels
    [cols], a missing value ([None]) where the Series has none. *)
Definition reindex (h : gmap Z Z) (cols : list Z) : list (option Z) :=
  map (fun c => h !! c) cols.

(** [s.startswith(p)], [s.endswith(p)] and [os.path.join(a, *p)] (POSIX). *)
Definition startswith (s p : string) : bool := String.prefix p s.

Definition endswith (s p : string) : bool :=
  String.prefix (String.rev p) (String.rev s).

Definition os_path_join (a : string) (p : list string) : string :=
  foldl (fun path b =>
           if startswith b "/" then b
           else if String.eqb path "" || endswith path "/" then path +:+ b
           else path +:+ "/" +:+ b)
        a p.

(** The line feed of the text files. *)
Definition nl : string := String (Ascii.ascii_of_nat 10) "".

(** [ls[-1].append(x)] on a list of lists. *)
Definition append_last {A} (ls : list (list A)) (x : A) : result (list (list A)) :=
  last ← np_index ls (-1);
  Ok (<[Z.to_nat (len ls - 1) := last ++ [x]]> ls).

(** ** class Genome, read mode *)

Module Genome.

(** The fields of a genome opened for reading: the number of genomes of
    the collection, the stored steps, the chromosome table (name and size,
    in file order) and, per step, the loaded block index and the reader of
    the bitmap file. *)
Record t : Type := mk {
  ngenomes : Z;
  steps : list Z;
  chr : list (string * Z);
  blocks : gmap Z (list (Z * Z));
  bitmaps : gmap Z BgzfReader
}.

(** [self.nbytes = int(np.ceil(self.ngenomes / 8))] *)
Definition nbytes (g : t) : Z := ceil_div (ngenomes g) 8.


(** [set_chrs]: [step_sizes] has a column per step, the number of rows each
    chromosome has at that step; [offsets] is its [cumsum().shift(fill_value=0)]. *)
Definition step_sizes (g : t) (step : Z) : list Z :=
  map (fun c => ceil_div c.2 step) (chr g).

Fixpoint cumsum_shift (acc : Z) (col : list Z) : list Z :=
  match col with
  | [] => []
  | x :: rest => acc :: cumsum_shift (acc + x) rest
  end.

Definition offsets (g : t) : list (Z * list Z) :=
  map (fun step => (step, cumsum_shift 0 (step_sizes g step))) (steps g).

Definition chr_index (g : t) (name : string) : result nat :=
  of_option KeyError (fst <$> list_find (fun c => c.1 = name) (chr g)).

(** [self.offsets.loc[name, bstep]] *)
Definition offsets_loc (g : t) (name : string) (bstep : Z) : result Z :=
  i ← chr_index g name;
  col ← of_option KeyError (list_find (fun c => c.1 = bstep) (offsets g));
  of_option KeyError (col.2.2 !! i).

(** [seq_len]: [self.sizes.loc[seq_name]] *)
Definition seq_len (g : t) (seq_name : string) : result Z :=
  i ← chr_index g seq_name;
  of_option KeyError (snd <$> chr g !! i).

(** The files of a genome, in its directory [prefix]: the bitmap and the
    block index of a step ([bgz_fname], [idx_fname]). *)
Definition BGZ_SUFFIX : string := "gz".
Definition IDX_SUFFIX : string := "gzi".

Definition bgz_fname (prefix : string) (step : Z) : string :=
  os_path_join prefix ["bitmap." +:+ pretty step +:+ "." +:+ BGZ_SUFFIX].

Definition idx_fname (prefix : string) (step : Z) : string :=
  os_path_join prefix ["bitmap." +:+ pretty step +:+ "." +:+ IDX_SUFFIX].


(** [load_bgz_blocks], on the bytes of the index file. *)
Definition load_bgz_blocks (idx_in : list Z) : result (list (Z * Z)) :=
  let '(head, rest) := fromfile 8 1 idx_in in
  nblocks ← np_index (map le_value head) 0;
  let '(recs, _) := fromfile 16 nblocks rest in
  let pairs := map (fun r => (le_value (take 8 r), le_value (drop 8 r))) recs in
  entries ← assign_tail nblocks pairs;
  Ok (map (fun e => (to_int64 e.1, to_int64 e.2)) ((0, 0) :: entries)).

(** [_bytes_to_bits] *)
Definition _bytes_to_bits (ngenomes : Z) (pac : list (list Z)) : list (list bool) :=
  map (fun row => take (Z.to_nat ngenomes) (row ≫= byte_bits)) pac.

(** [_query_bytes]; the genome returned holds the reader as the call
    leaves it. *)
Definition _query_bytes (g : t) (name : string) (start end_ step bstep : Z)
    : result (list (list Z) * t) :=
  off ← offsets_loc g name bstep;
  if bstep =? 0 then Err ZeroDivisionError else
  let byte_start := nbytes g * (off + start / bstep) in
  let length := (end_ - start) / bstep in
  let step := step / bstep in
  index ← dict_get (blocks g) bstep;
  let blk := searchsorted_right (map snd index) byte_start - 1 in
  dstart ← np_index (map snd index) blk;
  let blk_offs := byte_start - dstart in
  blk_start ← np_index (map fst index) blk;
  r ← dict_get (bitmaps g) bstep;
  voff ← make_virtual_offset blk_start blk_offs;
  r ← bgzf_seek r voff;
  '(buf, r) ← bgzf_read r (length * nbytes g);
  let g := mk (ngenomes g) (steps g) (chr g) (blocks g) (<[bstep := r]> (bitmaps g)) in
  if nbytes g =? 0 then Err ZeroDivisionError else
  pac ← reshape buf (len buf / nbytes g) (nbytes g);
  if 1 <? step then Ok (stride (Z.to_nat step) pac, g) else Ok (pac, g).

(** The loop of [query] that chooses the stored step to read. *)
Fixpoint select_bstep (steps : list Z) (step bstep : Z) : result Z :=
  match steps with
  | [] => Ok bstep
  | s :: rest =>
      if s =? 0 then Err ZeroDivisionError
      else if step mod s =? 0 then select_bstep rest step (Z.max bstep s)
      else select_bstep rest step bstep
  end.

(** [query] *)
Definition query (g : t) (name : string) (start end_ : option Z) (step : Z)
    : result (list (list bool) * t) :=
  bstep ← select_bstep (steps g) step 1;
  let start := default 0 start in
  end_ ← match end_ with Some e => Ok e | None => seq_len g name end;
  '(pac, g') ← _query_bytes g name start end_ step bstep;
  Ok (_bytes_to_bits (ngenomes g) pac, g').

(** [bitsum_count] *)
Definition bitsum_count (occs : list Z) : gmap Z Z := value_counts occs.

(** [query_occ_counts] *)
Definition query_occ_counts (g : t) (name : string) (start end_ : option Z) (step : Z)
    : result (gmap Z Z * t) :=
  '(m, g') ← query g name start end_ step;
  Ok (bitsum_count (sum_axis1 m), g').

(** *** Write mode

    The fields of a genome being anchored: the k-mer databases (one per
    group of 32 genomes; a database gives, for a sequence, one 32-bit
    counter per position) and, per step, the bytes written so far to the
    bitmap file. *)
Record wt : Type := mkw {
  w_ngenomes : Z;
  w_steps : list Z;
  kmc_dbs : list (string -> list Z);
  w_bitmaps : gmap Z (list Z)
}.

Definition w_nbytes (w : wt) : Z := ceil_div (w_ngenomes w) 8.

(** The number of bytes [_query_kmc_bytes] keeps of each counter. *)
Definition kmc_width (w : wt) (db_i : Z) : Z :=
  if w_nbytes w <=? 4 then w_nbytes w
  else if (db_i =? len (kmc_dbs w)) && (0 <? w_nbytes w mod 4) then w_nbytes w mod 4
  else 4.

(** [_query_kmc_bytes] *)
Definition _query_kmc_bytes (w : wt) (db_i : Z) (seq : string) : result (list (list Z)) :=
  db ← np_index (kmc_dbs w) db_i;
  let vec := db seq in
  let pac8 := map (le_bytes 4) vec in
  let n := kmc_width w db_i in
  Ok (map (take (Z.to_nat n)) pac8).

(** [_write_bitmap]; the counters [bitmap_lens] and [seq_lens], which
    nothing reads, are left out. *)
Definition _write_bitmap (w : wt) (name seq : string)
    : result (list (list bool) * wt) :=
  byte_arrs ← foldM (fun byte_arrs db =>
      pacbytes ← _query_kmc_bytes w db seq;
      foldM (fun byte_arrs s =>
          a ← slice_step pacbytes s;
          Ok (dd_append s a byte_arrs))
        byte_arrs (w_steps w))
    [] (seqZ 0 (len (kmc_dbs w)));
  '(arrs, w') ← foldM (fun '(arrs, w) '(step, arr) =>
      a ← hconcat arr;
      out ← dict_get (w_bitmaps w) step;
      Ok (<[step := a]> arrs,
          mkw (w_ngenomes w) (w_steps w) (kmc_dbs w)
              (<[step := out ++ concat a]> (w_bitmaps w))))
    (∅, w) byte_arrs;
  a1 ← dict_get arrs 1;
  Ok (_bytes_to_bits (w_ngenomes w) a1, w').

(** [run_anchor], as far as the bitmaps go: a writer is opened per step,
    and the records of the FASTA file are written in file order.  The
    result lists the presence matrix of each record. *)
Definition run_anchor (w : wt) (fasta : list (string * string))
    : result (list (list (list bool)) * wt) :=
  let w := mkw (w_ngenomes w) (w_steps w) (kmc_dbs w)
               (list_to_map ((fun s => (s, [])) <$> w_steps w)) in
  foldM (fun '(bitmaps, w) '(name, seq) =>
      '(bitmap, w') ← _write_bitmap w name seq;
      Ok (bitmaps ++ [bitmap], w'))
    ([], w) fasta.

(** The occurrence bins that [run_anchor] tabulates for a record, from the
    number of genomes at each of its positions ([bitsum]): a row per bin
    of [chr_bin_kbp * 1000] positions, with the start and the end of the
    bin and, for each number of genomes from 1 to [ngenomes], the number of
    positions of the bin with that many genomes. *)
Definition bin_occs (ngenomes chr_bin_kbp : Z) (bitsum : list Z)
    : result (list (Z * Z * list (option Z))) :=
  let binlen := chr_bin_kbp * 1000 in
  starts ← np_arange 0 (len bitsum) binlen;
  let ends := map (fun s => np_clip (s + binlen) 0 (len bitsum)) starts in
  let coords := zip starts ends in
  let cols := map (fun c => c + 1) (seqZ 0 ngenomes) in
  Ok (map (fun '(st, en) =>
             (st, en, reindex (value_counts (np_slice bitsum st en)) cols))
          coords).

End Genome.

(** ** class Index *)

Module Index.

(** [steps]: [(1, self.lowres_step)] *)
Definition steps (lowres_step : Z) : list Z := [1; lowres_step].

(** [bitsum_count]: [ret[occs - 1] = counts] on [np.zeros(ngenomes)]. *)
Definition bitsum_count (ngenomes : Z) (occs : list Z) : result (list Z) :=
  foldM (fun ret '(o, c) => np_put ret (o - 1) c)
        (replicate (Z.to_nat ngenomes) 0) (np_unique occs).

(** The sample table in file order: the name of a genome and its FASTA
    file, when the table gives one. *)
Definition samples_t : Type := list (string * option string).

Definition get_subdir (prefix name : string) : string :=
  os_path_join prefix [name].

Definition kmc_prefix (prefix : string) (names : list string) : string :=
  os_path_join (get_subdir prefix "kmc") [String.concat "." names].

Definition init_dir (prefix path : string) : string :=
  os_path_join prefix [path].

(** [kmc_bitvec_count]: [int(np.ceil(len(self.samples) / 32.0))] *)
Definition kmc_bitvec_count (samples : samples_t) : Z :=
  ceil_div (len samples) 32.

Definition opdef_filenames (prefix : string) (samples : samples_t) : list string :=
  map (fun i => kmc_prefix prefix ["opdef" +:+ pretty i +:+ ".txt"])
      (seqZ 0 (kmc_bitvec_count samples)).

(** The tuples of [_iter_kmc_genome_args], as [_run_kmc_genome] names
    their fields; the configuration, the same in every tuple, is left
    out. *)
Record kmc_genome_args : Type := KmcGenomeArgs {
  arg_db_i : Z;
  arg_i : Z;
  arg_name : string;
  arg_fasta : option string;
  arg_count_db : string;
  arg_onehot_db : string;
  arg_tmp_dir : string;
  arg_fasta_in : option string
}.

(** The loop of [_iter_kmc_genome_args], from the counters [i] and
    [db_i]. *)
Fixpoint iter_kmc_genome_args_from (prefix : string) (i db_i : Z) (samples : samples_t)
    : list kmc_genome_args :=
  match samples with
  | [] => []
  | (name, fasta) :: rest =>
      let '(i, db_i) := if 32 <=? i then (0, db_i + 1) else (i, db_i) in
      let count_db := kmc_prefix prefix [name; "count"] in
      let onehot_db := kmc_prefix prefix [name; "onehot"] in
      let tmp_dir := init_dir prefix ("tmp/" +:+ name) in
      KmcGenomeArgs db_i i name fasta count_db onehot_db tmp_dir fasta
        :: iter_kmc_genome_args_from prefix (i + 1) db_i rest
  end.

(** [_iter_kmc_genome_args] *)
Definition _iter_kmc_genome_args (prefix : string) (samples : samples_t)
    : list kmc_genome_args :=
  iter_kmc_genome_args_from prefix 0 0 samples.

(** The first loop of [init_opdefs]: the one-hot databases in groups, a
    new group being opened when a genome arrives and the last group holds
    32. *)
Fixpoint group_onehot_dbs (prefix : string) (genome_dbs : list (list (string * string)))
    (i : Z) (samples : samples_t) : result (list (list (string * string))) :=
  match samples with
  | [] => Ok genome_dbs
  | (name, fasta) :: rest =>
      let '(genome_dbs, i) :=
        if i =? 32 then (genome_dbs ++ [[]], 0) else (genome_dbs, i) in
      genome_dbs ← append_last genome_dbs (name, kmc_prefix prefix [name; "onehot"]);
      group_onehot_dbs prefix genome_dbs (i + 1) rest
  end.

Definition genome_dbs (prefix : string) (samples : samples_t)
    : result (list (list (string * string))) :=
  group_onehot_dbs prefix [[]] 0 samples.

(** The text [init_opdefs] writes to an operation file: the databases of
    the group as inputs, their sum as the output [bitvec_fname]. *)
Definition opdef_text (bitvec_fname : string) (dbs : list (string * string))
    : result string :=
  first ← np_index dbs 0;
  Ok ("INPUT:" +:+ nl
      +:+ String.concat "" (map (fun d => d.1 +:+ " = " +:+ d.2 +:+ nl) dbs)
      +:+ "OUTPUT:" +:+ nl +:+ bitvec_fname +:+ " = " +:+ first.1
      +:+ String.concat "" (map (fun d => " + " +:+ d.1) (drop 1 dbs))
      +:+ nl +:+ "-ocsum" +:+ nl).

(** [init_opdefs]: the files written, name and text, in the order of
    writing. *)
Definition init_opdefs (prefix : string) (samples : samples_t)
    : result (list (string * string)) :=
  genome_dbs ← genome_dbs prefix samples;
  let fnames := opdef_filenames prefix samples in
  foldM (fun files '(i, fname) =>
           dbs ← np_index genome_dbs i;
           text ← opdef_text (kmc_prefix prefix ["bitvec" +:+ pretty i]) dbs;
           Ok (files ++ [(fname, text)]))
        [] (zip (seqZ 0 (len fnames)) fnames).

(** [__getitem__]: [self.genomes[genome]] *)
Definition __getitem__ (genomes : gmap string Genome.t) (genome : string)
    : result Genome.t :=
  of_option KeyError (genomes !! genome).

(** [query_bitmap]; the dictionary returned holds the genome as the
    query leaves it. *)
Definition query_bitmap (genomes : gmap string Genome.t) (genome chrom : string)
    (start end_ : option Z) (step : Z)
    : result (list (list bool) * gmap string Genome.t) :=
  g ← __getitem__ genomes genome;
  '(m, g') ← Genome.query g chrom start end_ step;
  Ok (m, <[genome := g']> genomes).

End Index.

(** ** Sessions

    [same_files g g'] : the genome [g'] is [g] after some reads (the
    readers may have moved).  [session_ok g rows] : the genome [g] is open
    on well-formed files; [rows s] lists the rows of the bitmap of step [s]
    (all chromosomes, in file order), each [nbytes] wide, as many per
    chromosome as [set_chrs] expects; the block index of a step is the one
    of its bitmap file. *)

Definition same_files (g g' : Genome.t) : Prop :=
  Genome.ngenomes g' = Genome.ngenomes g
  /\ Genome.steps g' = Genome.steps g
  /\ Genome.chr g' = Genome.chr g
  /\ Genome.blocks g' = Genome.blocks g
  /\ forall s, rd_file <$> (Genome.bitmaps g' !! s) = rd_file <$> (Genome.bitmaps g !! s).

(** Two calls with the same outcome: the same exception, or the same value
    and genomes open on the same files. *)
Definition same_outcome {A} (m1 m2 : result (A * Genome.t)) : Prop :=
  match m1, m2 with
  | Ok (a1, g1), Ok (a2, g2) => a1 = a2 /\ same_files g1 g2
  | Err e1, Err e2 => e1 = e2
  | _, _ => False
  end.

Record session_ok (g : Genome.t) (rows : Z -> list (list Z)) : Prop := {
  ok_ngenomes : 0 < Genome.ngenomes g;
  ok_names : NoDup (Genome.chr g).*1;
  ok_sizes : Forall (fun c => 0 <= c.2) (Genome.chr g);
  ok_steps : Forall (fun s => 0 < s) (Genome.steps g);
  ok_rows : forall s, s ∈ Genome.steps g ->
    uniform (Z.to_nat (Genome.nbytes g)) (rows s)
    /\ len (rows s) = sumZ (Genome.step_sizes g s);
  ok_files : forall s, s ∈ Genome.steps g ->
    exists r, Genome.bitmaps g !! s = Some r
      /\ file_ok (rd_file r)
      /\ decompress (rd_file r) = concat (rows s)
      /\ Genome.blocks g !! s = Some (gzi_index (rd_file r))
}.

(** ** Anchoring

    [kmc_rows w seq db_i] : the array [_query_kmc_bytes] returns for
    database [db_i]; [packed_rows w seq] : the full-resolution rows of a
    sequence, the arrays of all databases side by side. *)

Fixpoint hjoin {A} (arrs : list (list (list A))) : list (list A) :=
  match arrs with
  | [] => []
  | [a] => a
  | a :: rest => zip_with app a (hjoin rest)
  end.

Definition kmc_rows (w : Genome.wt) (seq : string) (db_i : Z) : list (list Z) :=
  match Genome.kmc_dbs w !! Z.to_nat db_i with
  | Some db =>
      map (fun c => take (Z.to_nat (Genome.kmc_width w db_i)) (le_bytes 4 c)) (db seq)
  | None => []
  end.

Definition packed_rows (w : Genome.wt) (seq : string) : list (list Z) :=
  hjoin (map (kmc_rows w seq) (seqZ 0 (len (Genome.kmc_dbs w)))).

(** The rows that the bitmap of step [s] holds after anchoring: of each
    record, in file order, every [s]-th row. *)
Definition stored_rows (w : Genome.wt) (fasta : list (string * string)) (s : Z)
    : list (list Z) :=
  concat (map (fun rec => stride (Z.to_nat s) (packed_rows w rec.2)) fasta).

(** [anchor_ok w fasta] : what anchoring relies on.  The steps are positive,
    distinct and include 1; there is a database; the databases give as many
    counters for a sequence as it has positions, each the same number; the
    bytes kept of the databases make up a row of [nbytes] bytes. *)
Record anchor_ok (w : Genome.wt) (fasta : list (string * string)) : Prop := {
  aok_ngenomes : 0 < Genome.w_ngenomes w;
  aok_nodup : NoDup (Genome.w_steps w);
  aok_steps : Forall (fun s => 0 < s) (Genome.w_steps w);
  aok_step1 : 1 ∈ Genome.w_steps w;
  aok_dbs : Genome.kmc_dbs w <> [];
  aok_names : NoDup fasta.*1;
  aok_counters : forall name seq db db',
    (name, seq) ∈ fasta -> db ∈ Genome.kmc_dbs w -> db' ∈ Genome.kmc_dbs w ->
    length (db seq) = length (db' seq);
  aok_width :
    sumZ (map (Genome.kmc_width w) (seqZ 0 (len (Genome.kmc_dbs w)))) = Genome.w_nbytes w
}.

(** [anchored w fasta bitmaps g] : [g] is a genome opened on the files that
    [run_anchor w fasta] wrote, [bitmaps] being the presence matrices it
    returned; the chromosome table lists the records with their numbers of
    positions, and each bitmap file decompresses to the bytes written. *)
Definition anchored (w : Genome.wt) (fasta : list (string * string))
    (bitmaps : list (list (list bool))) (g : Genome.t) : Prop :=
  exists w',
    Genome.run_anchor w fasta = Ok (bitmaps, w')
    /\ Genome.ngenomes g = Genome.w_ngenomes w
    /\ Genome.steps g = Genome.w_steps w
    /\ Genome.chr g = zip_with (fun rec bitmap => (rec.1, len bitmap)) fasta bitmaps
    /\ forall s, s ∈ Genome.steps g ->
         exists r out,
           Genome.bitmaps g !! s = Some r
           /\ Genome.w_bitmaps w' !! s = Some out
           /\ file_ok (rd_file r)
           /\ decompress (rd_file r) = out
           /\ Genome.blocks g !! s = Some (gzi_index (rd_file r)).

(** ** A small collection

    Three genomes and an anchor with two chromosomes, [X] with five
    positions and [Y] with three, stored at the steps 1 and 2.  The k-mer
    database gives the counters of the two sequences; a counter has bit [j]
    set when the k-mer occurs in genome [j].  Each bitmap file is cut into
    two blocks of data and the empty block that ends a BGZF file. *)

Definition ex_db (seq : string) : list Z :=
  if String.eqb seq "ACGTACG" then [7; 3; 1; 6; 7]
  else if String.eqb seq "TTGCA" then [5; 2; 4]
  else [].

Definition ex_fasta : list (string * string) :=
  [("X", "ACGTACG"); ("Y", "TTGCA")]%string.

Definition ex_w : Genome.wt := Genome.mkw 3 [1; 2] [ex_db] ∅.

Definition ex_bitmaps : list (list (list bool)) :=
  [ [ [true; true; true]; [true; true; false]; [true; false; false];
      [false; true; true]; [true; true; true] ];
    [ [true; false; true]; [false; true; false]; [false; false; true] ] ].

Definition ex_written : gmap Z (list Z) :=
  match Genome.run_anchor ex_w ex_fasta with
  | Ok (_, w') => Genome.w_bitmaps w'
  | Err _ => ∅
  end.

Definition ex_file (s : Z) : bgzf_file :=
  let out := default [] (ex_written !! s) in
  [BgzfBlock 30 (take 3 out); BgzfBlock 40 (drop 3 out); BgzfBlock 28 []].

Definition ex_genome : Genome.t :=
  Genome.mk 3 [1; 2] [("X", 5); ("Y", 3)]%string
    (list_to_map [(1, gzi_index (ex_file 1)); (2, gzi_index (ex_file 2))])
    (list_to_map [(1, bgzf_open (ex_file 1)); (2, bgzf_open (ex_file 2))]).

(** Forty genomes in two groups of 32: a row should take five bytes. *)
Definition ex_db40 (seq : string) : list Z := [4294967295; 1].

Definition ex_w40 : Genome.wt :=
  Genome.mkw 40 [1] [ex_db40; ex_db40] (list_to_map [(1, [])]).

(** * Verification *)

Import Genome.

(** ** The error monad *)

Lemma bind_Ok {A B} (f : A -> result B) (a : A) : (Ok a ≫= f) = f a.
Proof. reflexivity. Qed.

Lemma bind_Err {A B} (f : A -> result B) (e : exn) : (Err e ≫= f) = Err e.
Proof. reflexivity. Qed.

Lemma bind_inv_Ok {A B} (f : A -> result B) (m : result A) (b : B) :
  (m ≫= f) = Ok b -> exists a, m = Ok a /\ f a = Ok b.
Proof. destruct m as [a|e]; [eauto | discriminate]. Qed.

Lemma len_nonneg {A} (l : list A) : 0 <= len l.
Proof. unfold len. lia. Qed.

Lemma len_app {A} (l k : list A) : len (l ++ k) = len l + len k.
Proof. unfold len. rewrite length_app. lia. Qed.

(** ** Bisection *)


Lemma bisect_right_spec fuel a v :
  mono a ->
  forall lo hi,
  (hi - lo <= fuel)%nat -> (lo <= hi)%nat -> (hi <= length a)%nat ->
  (forall i x, (i < lo)%nat -> a !! i = Some x -> x <= v) ->
  (forall i x, (hi <= i)%nat -> a !! i = Some x -> v < x) ->
  let r := bisect_right fuel a v lo hi in
  (lo <= r <= hi)%nat
  /\ (forall i x, (i < r)%nat -> a !! i = Some x -> x <= v)
  /\ (forall i x, (r <= i)%nat -> a !! i = Some x -> v < x).
Proof.
  intros Hmono. induction fuel as [|fuel IH]; intros lo hi Hfuel Hle Hhi Hlo Hup;
    cbn [bisect_right].
  - assert (lo = hi) by lia. subst. repeat split; auto; lia.
  - destruct (Nat.ltb_spec lo hi) as [Hlt|Hge].
    + set (mid := (lo + (hi - lo) / 2)%nat).
      assert (Hmid : (lo <= mid < hi)%nat).
      { unfold mid. pose proof (Nat.Div0.div_lt_upper_bound (hi - lo) 2 (hi - lo)). lia. }
      destruct (lookup_lt_is_Some_2 a mid) as [m Hm]; [lia|].
      rewrite Hm. change (default 0 (Some m)) with m.
      destruct (Z.ltb_spec v m) as [Hv|Hv].
      * destruct (IH lo mid) as (H1 & H2 & H3); try lia; auto.
        { intros i x Hi Hx. pose proof (Hmono mid i m x Hi Hm Hx). lia. }
        repeat split; auto; lia.
      * destruct (IH (S mid) hi) as (H1 & H2 & H3); try lia; auto.
        { intros i x Hi Hx. assert (Hi' : (i <= mid)%nat) by lia.
          pose proof (Hmono i mid x m Hi' Hx Hm). lia. }
        repeat split; auto; lia.
    + assert (lo = hi) by lia. subst. repeat split; auto; lia.
Qed.

Lemma searchsorted_right_spec a v :
  mono a ->
  exists r : nat,
    searchsorted_right a v = Z.of_nat r
    /\ (r <= length a)%nat
    /\ (forall i x, (i < r)%nat -> a !! i = Some x -> x <= v)
    /\ (forall i x, (r <= i)%nat -> a !! i = Some x -> v < x).
Proof.
  intros Hmono. unfold searchsorted_right.
  destruct (bisect_right_spec (length a) a v Hmono 0 (length a)) as (H1 & H2 & H3);
    try lia.
  - intros i x Hi Hx. apply lookup_lt_Some in Hx. lia.
  - eexists. split; [reflexivity|]. repeat split; auto; lia.
Qed.

(** ** Blocks of a file and their offsets *)


Lemma decompress_cons b f : decompress (b :: f) = block_data b ++ decompress f.
Proof. reflexivity. Qed.

Lemma decompress_app f1 f2 : decompress (f1 ++ f2) = decompress f1 ++ decompress f2.
Proof. unfold decompress. by rewrite map_app, concat_app. Qed.

Lemma cstart_S b f i : cstart (b :: f) (S i) = block_raw_length b + cstart f i.
Proof. reflexivity. Qed.

Lemma dstart_S b f i : dstart (b :: f) (S i) = len (block_data b) + dstart f i.
Proof. unfold dstart. simpl. rewrite decompress_cons. apply len_app. Qed.

Lemma block_offsets_lookup f : forall c d i,
  (i < length f)%nat ->
  block_offsets f c d !! i = Some (c + cstart f i, d + dstart f i).
Proof.
  induction f as [|b f IH]; intros c d i Hi; simpl in Hi; [lia|].
  destruct i as [|i]; simpl.
  - unfold cstart, dstart. simpl. f_equal. f_equal; unfold len; simpl; lia.
  - rewrite IH by lia. rewrite cstart_S, dstart_S. f_equal. f_equal; lia.
Qed.

Lemma block_offsets_length f c d : length (block_offsets f c d) = length f.
Proof. revert c d. induction f; intros; simpl; auto. Qed.

Lemma gzi_index_nonempty b f : gzi_index (b :: f) = block_offsets (b :: f) 0 0.
Proof. reflexivity. Qed.

Lemma gzi_index_length f : length (gzi_index f) = Nat.max 1 (length f).
Proof.
  destruct f as [|b f]; [reflexivity|].
  rewrite gzi_index_nonempty, block_offsets_length. simpl. lia.
Qed.

Lemma gzi_index_lookup f i :
  (i < Nat.max 1 (length f))%nat ->
  gzi_index f !! i = Some (cstart f i, dstart f i).
Proof.
  destruct f as [|b f]; intros Hi.
  - simpl in Hi. assert (i = 0)%nat by lia. subst. reflexivity.
  - rewrite gzi_index_nonempty, block_offsets_lookup by (simpl in *; lia).
    f_equal.
Qed.

Lemma cstart_mono f i j : 
  blocks_ok f ->
  (i <= j)%nat -> cstart f i <= cstart f j.
Proof.
  intros Hf. revert i j. induction Hf as [|b f [Hb _] Hf IH]; intros i j Hij.
  - unfold cstart. by rewrite !take_nil.
  - destruct i as [|i]; destruct j as [|j]; try lia.
    + unfold cstart at 1. simpl. rewrite cstart_S.
      specialize (IH 0%nat j ltac:(lia)). unfold cstart at 1 in IH. simpl in IH. lia.
    + rewrite !cstart_S. specialize (IH i j ltac:(lia)). lia.
Qed.

Lemma dstart_mono f i j : (i <= j)%nat -> dstart f i <= dstart f j.
Proof.
  revert i j. induction f as [|b f IH]; intros i j Hij.
  - unfold dstart. by rewrite !take_nil.
  - destruct i as [|i]; destruct j as [|j]; try lia.
    + unfold dstart at 1. simpl. rewrite dstart_S.
      specialize (IH 0%nat j ltac:(lia)). unfold dstart at 1 in IH. simpl in IH.
      pose proof (len_nonneg (block_data b)). unfold len at 1. simpl. unfold len in IH at 1. simpl in IH. lia.
    + rewrite !dstart_S. specialize (IH i j ltac:(lia)). lia.
Qed.

Lemma cstart_le_raw_size f i : 
  blocks_ok f ->
  0 <= cstart f i <= raw_size f.
Proof.
  intros Hf. split.
  - pose proof (cstart_mono f 0 i Hf ltac:(lia)) as H. unfold cstart at 1 in H.
    rewrite take_0 in H. exact H.
  - destruct (decide (i <= length f)%nat).
    + pose proof (cstart_mono f i (length f) Hf ltac:(lia)) as H.
      unfold cstart at 2 in H. by rewrite firstn_all in H.
    + unfold cstart. rewrite take_ge by lia. lia.
Qed.


Lemma blocks_at_cstart f :
  blocks_ok f ->
  forall pos i, blocks_at f pos (pos + cstart f i) = Ok (drop i f).
Proof.
  intros Hf. induction Hf as [|b f [Hb Hd] Hf IH]; intros pos i.
  - unfold cstart. rewrite take_nil, drop_nil. simpl.
    replace (pos + 0) with pos by lia. by rewrite Z.eqb_refl.
  - destruct i as [|i].
    + unfold cstart. simpl. replace (pos + 0) with pos by lia. by rewrite Z.eqb_refl.
    + rewrite cstart_S. pose proof (cstart_le_raw_size f i Hf) as [Hc _].
      simpl. destruct (Z.eqb_spec pos (pos + (block_raw_length b + cstart f i))); [lia|].
      destruct (Z.ltb_spec (pos + (block_raw_length b + cstart f i)) (pos + block_raw_length b)); [lia|].
      replace (pos + (block_raw_length b + cstart f i))
        with ((pos + block_raw_length b) + cstart f i) by lia.
      apply IH.
Qed.

Lemma read_loop_data bs :
  blocks_ok bs ->
  forall start w n,
  (w <= length (buffer_of bs))%nat ->
  (read_loop bs start w n).1 = take n (drop w (decompress bs)).
Proof.
  intros Hbs. induction Hbs as [|b bs [Hb Hd] Hbs IH]; intros start w n Hw.
  - simpl in Hw. assert (w = 0)%nat as -> by lia. by destruct n.
  - simpl in Hw. cbn [read_loop]. rewrite decompress_cons.
    destruct (Nat.eqb_spec n 0) as [->|Hn]; [reflexivity|].
    destruct (Z.eqb_spec (block_raw_length b) 0) as [|_]; [lia|]. cbn [orb].
    destruct (Nat.leb_spec (w + n) (length (block_data b))) as [Hfit|Hover].
    + cbn [fst]. rewrite drop_app_le by lia. rewrite take_app_le; [done|].
      rewrite length_drop. lia.
    + specialize (IH (start + block_raw_length b) 0%nat
                     (n - length (drop w (block_data b)))%nat ltac:(lia)).
      destruct (read_loop bs _ _ _) as [more pos]. cbn [fst] in *.
      rewrite IH, drop_0. rewrite drop_app_le by lia.
      rewrite take_app_ge; [done|]. rewrite length_drop. lia.
Qed.

Lemma read_loop_start bs start w n :
  exists start' w', (read_loop bs start w n).2 = (start', w').
Proof. destruct (read_loop bs start w n) as [? [? ?]]. eauto. Qed.

(** ** Virtual offsets *)

Lemma virtual_offset_block c w :
  0 <= w < 65536 -> Z.shiftr (Z.lor (Z.shiftl c 16) w) 16 = c.
Proof.
  intros Hw. rewrite Z.shiftr_lor, Z.shiftr_shiftl_l by lia.
  replace (16 - 16) with 0 by lia. rewrite Z.shiftl_0_r.
  rewrite (Z.shiftr_div_pow2 w) by lia.
  rewrite Z.div_small by (change (2 ^ 16) with 65536; lia).
  apply Z.lor_0_r.
Qed.

Lemma virtual_offset_within c w :
  0 <= w < 65536 -> Z.lxor (Z.lor (Z.shiftl c 16) w) (Z.shiftl c 16) = w.
Proof.
  intros Hw. apply Z.bits_inj'. intros n Hn.
  rewrite Z.lxor_spec, Z.lor_spec.
  destruct (Z.lt_ge_cases n 16) as [Hlt|Hge].
  - rewrite Z.shiftl_spec_low by lia. simpl. by rewrite xorb_false_r.
  - assert (Z.testbit w n = false) as ->.
    { destruct (Z.eq_dec w 0) as [->|Hw0]; [apply Z.bits_0|].
      apply Z.bits_above_log2; [lia|].
      apply Z.lt_le_trans with 16; [|lia].
      apply Z.log2_lt_pow2; [lia|]. change (2 ^ 16) with 65536. lia. }
    rewrite orb_false_r. apply xorb_nilpotent.
Qed.

Lemma make_virtual_offset_Ok c w v :
  make_virtual_offset c w = Ok v ->
  v = Z.lor (Z.shiftl c 16) w /\ 0 <= w < 65536 /\ 0 <= c < 281474976710656.
Proof.
  unfold make_virtual_offset.
  destruct (Z.ltb_spec w 0), (Z.leb_spec 65536 w); simpl; try discriminate.
  destruct (Z.ltb_spec c 0), (Z.leb_spec 281474976710656 c); simpl; try discriminate.
  intros [= <-]. lia.
Qed.

Lemma dstart_succ f i b :
  f !! i = Some b -> dstart f (S i) = dstart f i + len (block_data b).
Proof.
  intros Hb. unfold dstart. rewrite (take_S_r _ _ _ Hb), decompress_app, len_app.
  f_equal. unfold decompress. simpl. by rewrite app_nil_r.
Qed.

Lemma dstart_all f : dstart f (length f) = len (decompress f).
Proof. unfold dstart. by rewrite firstn_all. Qed.

Lemma dstart_0 f : dstart f 0 = 0.
Proof. reflexivity. Qed.

Lemma gzi_index_dstart f i :
  (i < length (gzi_index f))%nat -> map snd (gzi_index f) !! i = Some (dstart f i).
Proof.
  intros Hi. rewrite gzi_index_length in Hi.
  by rewrite list_lookup_fmap, gzi_index_lookup.
Qed.

Lemma gzi_index_mono f : mono (map snd (gzi_index f)).
Proof.
  intros i j x y Hij Hx Hy.
  pose proof (lookup_lt_Some _ _ _ Hx) as Hi. pose proof (lookup_lt_Some _ _ _ Hy) as Hj.
  rewrite length_map in Hi, Hj.
  rewrite gzi_index_dstart in Hx, Hy by done.
  injection Hx as <-. injection Hy as <-. by apply dstart_mono.
Qed.

(** The entry that [_query_bytes] picks for a target offset inside the
    decompressed stream is the last one that starts at or before it, and
    the target lies inside (or at the end of) its block. *)
Lemma locate_block f t :
  0 <= t <= len (decompress f) ->
  exists i : nat,
    searchsorted_right (map snd (gzi_index f)) t - 1 = Z.of_nat i
    /\ (i < length (gzi_index f))%nat
    /\ dstart f i <= t
    /\ t - dstart f i <= len (buffer_of (drop i f))
    /\ (forall j d, map snd (gzi_index f) !! j = Some d -> d <= t -> (j <= i)%nat).
Proof.
  intros Ht.
  destruct (searchsorted_right_spec (map snd (gzi_index f)) t (gzi_index_mono f))
    as (r & Hr & Hlen & Hlow & Hup).
  rewrite length_map in Hlen.
  assert (Hr1 : (1 <= r)%nat).
  { destruct r as [|r]; [|lia]. 
    specialize (Hup 0%nat 0 ltac:(lia)). 
    rewrite gzi_index_dstart in Hup by (rewrite gzi_index_length; lia).
    specialize (Hup eq_refl). lia. }
  exists (r - 1)%nat. rewrite Hr.
  assert (Hi : (r - 1 < length (gzi_index f))%nat) by lia.
  split; [lia|]. split; [done|].
  split; [apply (Hlow (r - 1)%nat); [lia | by apply gzi_index_dstart]|].
  split.
  - destruct (decide (r < length (gzi_index f))%nat) as [Hnext|Hlast].
    + specialize (Hup r (dstart f r) ltac:(lia) (gzi_index_dstart f r Hnext)).
      rewrite gzi_index_length in Hnext.
      destruct (lookup_lt_is_Some_2 f (r - 1)%nat) as [b Hb]; [lia|].
      rewrite (drop_S _ _ _ Hb). simpl.
      pose proof (dstart_succ f (r - 1)%nat b Hb) as Hs.
      replace (S (r - 1)) with r in Hs by lia. lia.
    + rewrite gzi_index_length in Hlast, Hi.
      destruct (decide (length f = 0)%nat) as [Hf|Hf].
      * apply length_zero_iff_nil in Hf. subst f. simpl in *.
        assert (r = 1)%nat as -> by lia. simpl. unfold dstart, len in *; simpl in *. lia.
      * destruct (lookup_lt_is_Some_2 f (r - 1)%nat) as [b Hb]; [lia|].
        rewrite (drop_S _ _ _ Hb). simpl.
        pose proof (dstart_succ f (r - 1)%nat b Hb) as Hs.
        replace (S (r - 1)) with (length f) in Hs by lia.
        rewrite dstart_all in Hs. lia.
  - intros j d Hj Hd. destruct (decide (j <= r - 1)%nat); [done|].
    specialize (Hup j d ltac:(lia) Hj). lia.
Qed.

Lemma np_index_nat {A} (a : list A) (i : nat) x :
  a !! i = Some x -> np_index a (Z.of_nat i) = Ok x.
Proof.
  intros Hx. pose proof (lookup_lt_Some _ _ _ Hx) as Hi. unfold np_index, len.
  destruct (Z.leb_spec 0 (Z.of_nat i)); [|lia].
  destruct (Z.ltb_spec (Z.of_nat i) (Z.of_nat (length a))); [|lia].
  simpl. by rewrite Nat2Z.id, Hx.
Qed.

(** Seeking to the entry of the block index chosen for a target offset
    and reading [n] bytes yields the [n] bytes at that offset of the
    decompressed stream. *)
Lemma seek_read r t n :
  file_ok (rd_file r) ->
  0 <= t <= len (decompress (rd_file r)) -> 0 <= n ->
  let index := gzi_index (rd_file r) in
  let blk := searchsorted_right (map snd index) t - 1 in
  exists c d voff r1 r2,
    np_index (map snd index) blk = Ok d
    /\ np_index (map fst index) blk = Ok c
    /\ make_virtual_offset c (t - d) = Ok voff
    /\ bgzf_seek r voff = Ok r1
    /\ bgzf_read r1 n
       = Ok (take (Z.to_nat n) (drop (Z.to_nat t) (decompress (rd_file r))), r2)
    /\ rd_file r2 = rd_file r
    /\ rd_calls r2 = rd_calls r ++ [Seek voff; Read n].
Proof.
  intros [Hblocks Hsize] Ht Hn index blk. subst index blk.
  set (f := rd_file r) in *.
  destruct (locate_block f t Ht) as (i & Hblk & Hi & Hd & Hdelta & _).
  rewrite Hblk.
  pose proof (gzi_index_lookup f i ltac:(by rewrite <- gzi_index_length)) as Hlk.
  exists (cstart f i), (dstart f i).
  assert (Hc : 0 <= cstart f i < 281474976710656).
  { pose proof (cstart_le_raw_size f i Hblocks). lia. }
  assert (Hw : 0 <= t - dstart f i < 65536).
  { split; [lia|]. destruct (drop i f) as [|b bs] eqn:Hdrop; simpl in Hdelta.
    - unfold len in Hdelta. simpl in Hdelta. lia.
    - assert (Hin : b ∈ f).
      { apply (subseteq_drop i f). rewrite Hdrop. left. }
      unfold blocks_ok in Hblocks. rewrite Forall_forall in Hblocks.
      destruct (Hblocks b Hin). lia. }
  exists (Z.lor (Z.shiftl (cstart f i) 16) (t - dstart f i)).
  assert (Hseek : blocks_at f 0 (cstart f i) = Ok (drop i f)).
  { pose proof (blocks_at_cstart f Hblocks 0 i) as H. by rewrite Z.add_0_l in H. }
  pose proof (read_loop_data (drop i f)) as Hdata.
  specialize (Hdata ltac:(by apply Forall_drop) (cstart f i)
                (Z.to_nat (t - dstart f i)) (Z.to_nat n)).
  specialize (Hdata ltac:(unfold len in Hdelta; lia)).
  destruct (read_loop _ _ _ _) as [data [start' w']] eqn:Hloop.
  cbn [fst] in Hdata. subst data.
  eexists. eexists.
  split; [apply np_index_nat; by rewrite list_lookup_fmap, Hlk|].
  split; [apply np_index_nat; by rewrite list_lookup_fmap, Hlk|].
  split.
  { unfold make_virtual_offset.
    destruct (Z.ltb_spec (t - dstart f i) 0); [lia|].
    destruct (Z.leb_spec 65536 (t - dstart f i)); [lia|].
    destruct (Z.ltb_spec (cstart f i) 0); [lia|].
    destruct (Z.leb_spec 281474976710656 (cstart f i)); [lia|]. reflexivity. }
  split.
  { unfold bgzf_seek. rewrite virtual_offset_block, virtual_offset_within by done.
    fold f. rewrite Hseek. rewrite bind_Ok.
    destruct (Z.ltb_spec (len (buffer_of (drop i f))) (t - dstart f i)); [lia|].
    reflexivity. }
  unfold bgzf_read. cbn [rd_file rd_block_start rd_within rd_calls].
  destruct (Z.ltb_spec n 0); [lia|]. fold f. rewrite Hseek, bind_Ok, Hloop.
  split.
  { f_equal. apply pair_equal_spec. split; [|reflexivity].
    assert (decompress f = decompress (take i f) ++ decompress (drop i f)) as ->
      by (by rewrite <- decompress_app, take_drop).
    rewrite drop_app_ge by (unfold dstart, len in Hd; lia).
    f_equal. f_equal. unfold dstart, len. lia. }
  split; [reflexivity|].
  cbn [rd_calls]. by rewrite <- app_assoc.
Qed.

(** ** Strided slices *)

Lemma stride_from_lookup {A} (k : nat) (a : list A) :
  (1 <= k)%nat -> forall j i, stride_from k j a !! i = a !! (j + i * k)%nat.
Proof.
  intros Hk. induction a as [|x a IH]; intros j i; [done|].
  destruct j as [|j]; cbn [stride_from].
  - destruct i as [|i]; [done|]. cbn [lookup list_lookup]. rewrite IH.
    replace (0 + S i * k)%nat with (S (k - 1 + i * k)) by lia. done.
  - rewrite IH. done.
Qed.

Lemma stride_lookup {A} (k : nat) (a : list A) i :
  (1 <= k)%nat -> stride k a !! i = a !! (i * k)%nat.
Proof. intros Hk. unfold stride. by rewrite stride_from_lookup. Qed.

Lemma stride_1 {A} (a : list A) : stride 1 a = a.
Proof.
  apply list_eq. intros i. rewrite stride_lookup by lia. f_equal. lia.
Qed.

Lemma stride_length {A} (k : nat) (a : list A) :
  (1 <= k)%nat -> length (stride k a) = ((length a + k - 1) / k)%nat.
Proof.
  intros Hk. 
  set (n := ((length a + k - 1) / k)%nat).
  assert (Hn : forall i, (i < n <-> i * k < length a)%nat).
  { intros i. unfold n.
    pose proof (Nat.div_mod_eq (length a + k - 1) k) as Hdm.
    pose proof (Nat.mod_upper_bound (length a + k - 1) k ltac:(lia)) as Hmod.
    split; intros H; nia. }
  destruct (Nat.lt_trichotomy (length (stride k a)) n) as [Hlt|[Heq|Hgt]]; [|done|].
  - exfalso. apply Hn in Hlt. 
    apply lookup_lt_is_Some_2 in Hlt. rewrite <- stride_lookup in Hlt by done.
    apply lookup_lt_is_Some_1 in Hlt. lia.
  - exfalso. destruct (lookup_lt_is_Some_2 (stride k a) n Hgt) as [x Hx].
    rewrite stride_lookup in Hx by done. apply lookup_lt_Some in Hx.
    apply Hn in Hx. lia.
Qed.




Lemma stride_app {A} (k m : nat) (a b : list A) :
  (1 <= k)%nat -> length a = (m * k)%nat -> stride k (a ++ b) = stride k a ++ stride k b.
Proof.
  intros Hk Ha. apply list_eq. intros i.
  assert (Hlen : length (stride k a) = m).
  { rewrite stride_length, Ha by done.
    replace (m * k + k - 1)%nat with ((k - 1) + m * k)%nat by lia.
    rewrite Nat.div_add by lia. rewrite Nat.div_small by lia. done. }
  rewrite stride_lookup by done.
  destruct (decide (i < m)%nat) as [Hi|Hi].
  - rewrite !lookup_app_l by (rewrite ?Hlen, ?Ha; nia). by rewrite stride_lookup.
  - rewrite !lookup_app_r by (rewrite ?Hlen, ?Ha; nia).
    rewrite stride_lookup, Hlen, Ha by done. f_equal. nia.
Qed.

(** ** Rows of a flat buffer *)


Lemma concat_length_uniform {A} n (rows : list (list A)) :
  uniform n rows -> length (concat rows) = (length rows * n)%nat.
Proof.
  induction 1 as [|row rows Hrow _ IH]; [done|].
  simpl. rewrite length_app, IH, Hrow. lia.
Qed.

Lemma concat_drop_uniform {A} n (rows : list (list A)) k :
  uniform n rows -> drop (k * n) (concat rows) = concat (drop k rows).
Proof.
  intros Hrows. revert k. induction Hrows as [|row rows Hrow _ IH]; intros k.
  - simpl. by rewrite !drop_nil.
  - destruct k as [|k]; [done|]. simpl concat at 1.
    rewrite drop_app_ge by lia.
    replace (S k * n - length row)%nat with (k * n)%nat by lia. apply IH.
Qed.

Lemma concat_take_uniform {A} n (rows : list (list A)) k :
  uniform n rows -> take (k * n) (concat rows) = concat (take k rows).
Proof.
  intros Hrows. revert k. induction Hrows as [|row rows Hrow _ IH]; intros k.
  - simpl. by rewrite !take_nil.
  - destruct k as [|k]; [done|]. simpl concat at 1. 
    rewrite take_app_ge by lia.
    replace (S k * n - length row)%nat with (k * n)%nat by lia.
    rewrite IH. done.
Qed.

Lemma chunks_concat {A} n (rows : list (list A)) :
  uniform n rows -> chunks (length rows) n (concat rows) = rows.
Proof.
  induction 1 as [|row rows Hrow _ IH]; [done|].
  simpl. rewrite take_app_length' by done. rewrite drop_app_length' by done.
  by rewrite IH.
Qed.

(** ** The offset table *)

Lemma ceil_div_nonneg a b : 0 <= a -> 0 < b -> 0 <= ceil_div a b.
Proof.
  intros Ha Hb. unfold ceil_div.
  assert ((- a) / b <= 0); [|lia].
  apply Z.div_le_upper_bound; lia.
Qed.

Lemma ceil_div_pos a b : 0 < a -> 0 < b -> 0 < ceil_div a b.
Proof.
  intros Ha Hb. unfold ceil_div.
  assert ((- a) / b < 0); [|lia].
  apply Z.div_lt_upper_bound; lia.
Qed.

Lemma ceil_div_ge_div a b : 0 < b -> a / b <= ceil_div a b.
Proof.
  intros Hb. unfold ceil_div.
  pose proof (Z.div_mod a b ltac:(lia)). pose proof (Z.mod_pos_bound a b Hb).
  pose proof (Z.div_mod (- a) b ltac:(lia)). pose proof (Z.mod_pos_bound (- a) b Hb).
  nia.
Qed.

Lemma ceil_div_nat (n k : nat) :
  (1 <= k)%nat -> Z.of_nat ((n + k - 1) / k) = ceil_div (Z.of_nat n) (Z.of_nat k).
Proof.
  intros Hk. unfold ceil_div.
  pose proof (Nat.div_mod_eq (n + k - 1) k) as Hdm.
  pose proof (Nat.mod_upper_bound (n + k - 1) k ltac:(lia)) as Hmod.
  pose proof (Z.div_mod (- Z.of_nat n) (Z.of_nat k) ltac:(lia)).
  pose proof (Z.mod_pos_bound (- Z.of_nat n) (Z.of_nat k) ltac:(lia)).
  nia.
Qed.

Lemma sumZ_app l k : sumZ (l ++ k) = sumZ l + sumZ k.
Proof. unfold sumZ. induction l; simpl; lia. Qed.

Lemma sumZ_nonneg l : Forall (fun x => 0 <= x) l -> 0 <= sumZ l.
Proof. induction 1; simpl; [lia|]. unfold sumZ in *. simpl. lia. Qed.

Lemma sumZ_take_le l i :
  Forall (fun x => 0 <= x) l -> sumZ (take i l) <= sumZ l.
Proof.
  intros Hl. rewrite <- (take_drop i l) at 2. rewrite sumZ_app.
  pose proof (sumZ_nonneg (drop i l) ltac:(by apply Forall_drop)). lia.
Qed.

Lemma sumZ_take_S l i x :
  l !! i = Some x -> sumZ (take (S i) l) = sumZ (take i l) + x.
Proof.
  intros Hx. rewrite (take_S_r _ _ _ Hx), sumZ_app. unfold sumZ at 2. simpl. lia.
Qed.

Lemma cumsum_shift_lookup col : forall acc i,
  (i < length col)%nat ->
  cumsum_shift acc col !! i = Some (acc + sumZ (take i col)).
Proof.
  induction col as [|x col IH]; intros acc i Hi; simpl in Hi; [lia|].
  destruct i as [|i]; simpl.
  - f_equal. unfold sumZ. simpl. lia.
  - rewrite IH by lia. f_equal. unfold sumZ. simpl. lia.
Qed.

Lemma chr_index_spec g i name size :
  NoDup (chr g).*1 -> chr g !! i = Some (name, size) -> chr_index g name = Ok i.
Proof.
  intros Hnd Hi. unfold chr_index.
  destruct (list_find _ _) as [[j c]|] eqn:Hfind.
  - apply list_find_Some in Hfind as (Hj & Hc & _). simpl in Hc.
    assert ((chr g).*1 !! i = Some name) as Hi' by (by rewrite list_lookup_fmap, Hi).
    assert ((chr g).*1 !! j = Some name) as Hj' by (by rewrite list_lookup_fmap, Hj; simpl; rewrite Hc).
    by rewrite (NoDup_lookup _ _ _ _ Hnd Hj' Hi').
  - apply list_find_None in Hfind. rewrite Forall_forall in Hfind.
    exfalso. apply (Hfind (name, size)); [|done].
    by apply list_elem_of_lookup_2 in Hi.
Qed.

Lemma offsets_loc_spec g i name size bstep :
  NoDup (chr g).*1 -> chr g !! i = Some (name, size) -> bstep ∈ steps g ->
  offsets_loc g name bstep = Ok (sumZ (take i (step_sizes g bstep))).
Proof.
  intros Hnd Hi Hs. unfold offsets_loc.
  rewrite (chr_index_spec g i name size Hnd Hi), bind_Ok.
  destruct (list_find _ _) as [[j c]|] eqn:Hfind.
  - apply list_find_Some in Hfind as (Hj & Hc & _). unfold offsets in Hj.
    rewrite list_lookup_fmap in Hj. destruct (steps g !! j) as [s|]; [|done].
    simpl in Hj. injection Hj as <-. simpl in Hc. subst s. simpl.
    rewrite cumsum_shift_lookup.
    + simpl. by rewrite Z.add_0_l.
    + unfold step_sizes. rewrite length_map. by apply lookup_lt_Some in Hi.
  - apply list_find_None in Hfind. rewrite Forall_forall in Hfind.
    exfalso. apply (Hfind (bstep, cumsum_shift 0 (step_sizes g bstep))); [|done].
    unfold offsets. apply list_elem_of_fmap. by exists bstep.
Qed.


Lemma step_sizes_nonneg g s :
  Forall (fun c => 0 <= c.2) (chr g) -> 0 < s ->
  Forall (fun x => 0 <= x) (step_sizes g s).
Proof.
  intros Hsz Hs. unfold step_sizes. apply Forall_fmap.
  eapply Forall_impl; [exact Hsz|]. intros c Hc. simpl. by apply ceil_div_nonneg.
Qed.

(** ** Reading rows *)

Lemma nbytes_pos g : 0 < ngenomes g -> 0 < nbytes g.
Proof. intros HG. unfold nbytes. by apply ceil_div_pos. Qed.

Lemma uniform_take {A} n k (rows : list (list A)) :
  uniform n rows -> uniform n (take k rows).
Proof. apply Forall_take. Qed.

Lemma uniform_drop {A} n k (rows : list (list A)) :
  uniform n rows -> uniform n (drop k rows).
Proof. apply Forall_drop. Qed.

Lemma reshape_concat (rows : list (list Z)) nb :
  0 < nb -> uniform (Z.to_nat nb) rows ->
  reshape (concat rows) (len (concat rows) / nb) nb = Ok rows.
Proof.
  intros Hnb Huni. unfold reshape, len.
  rewrite (concat_length_uniform _ _ Huni).
  assert (Hq : Z.of_nat (length rows * Z.to_nat nb) / nb = Z.of_nat (length rows)).
  { rewrite Nat2Z.inj_mul, Z2Nat.id by lia. apply Z.div_mul. lia. }
  rewrite Hq.
  destruct (Z.leb_spec 0 (Z.of_nat (length rows))); [|lia].
  destruct (Z.leb_spec 0 nb); [|lia].
  destruct (Z.eqb_spec (Z.of_nat (length rows) * nb) (Z.of_nat (length rows * Z.to_nat nb))); [|lia].
  simpl. rewrite Nat2Z.id. by rewrite chunks_concat.
Qed.

Lemma same_files_refl g : same_files g g.
Proof. by repeat split. Qed.

Lemma same_files_trans g1 g2 g3 : same_files g1 g2 -> same_files g2 g3 -> same_files g1 g3.
Proof.
  intros (H1 & H2 & H3 & H4 & H5) (K1 & K2 & K3 & K4 & K5).
  split; [congruence|]. split; [congruence|]. split; [congruence|].
  split; [congruence|]. intros s. by rewrite K5, H5.
Qed.

Lemma session_ok_same_files g g' rows :
  same_files g g' -> session_ok g rows -> session_ok g' rows.
Proof.
  intros (H1 & H2 & H3 & H4 & H5) [HG Hnd Hsz Hst Hrows Hfiles].
  split; rewrite ?H1, ?H2, ?H3; try done.
  - intros s Hs. unfold nbytes, step_sizes. rewrite H1, H3. by apply Hrows.
  - intros s Hs. destruct (Hfiles s Hs) as (r & Hr & Hf & Hd & Hb).
    specialize (H5 s). rewrite Hr in H5. destruct (bitmaps g' !! s) as [r'|]; [|done].
    simpl in H5. injection H5 as H5. exists r'. rewrite H5, H4. done.
Qed.

(** The rows a read returns: rows [first, first + count) of the bitmap of
    step [bstep], of which every [step / bstep]-th is kept. *)
Lemma query_bytes_spec g rows name i size start end_ step bstep :
  session_ok g rows ->
  chr g !! i = Some (name, size) -> bstep ∈ steps g ->
  0 <= start <= end_ ->
  let first := sumZ (take i (step_sizes g bstep)) + start / bstep in
  let count := (end_ - start) / bstep in
  first + count <= len (rows bstep) ->
  exists g' r r' c d voff,
    _query_bytes g name start end_ step bstep
    = Ok ((if 1 <? step / bstep then stride (Z.to_nat (step / bstep)) else id)
            (take (Z.to_nat count) (drop (Z.to_nat first) (rows bstep))), g')
    /\ same_files g g'
    /\ bitmaps g !! bstep = Some r
    /\ bitmaps g' !! bstep = Some r'
    /\ blocks g !! bstep = Some (gzi_index (rd_file r))
    /\ (let index := gzi_index (rd_file r) in
        let blk := searchsorted_right (map snd index) (nbytes g * first) - 1 in
        np_index (map snd index) blk = Ok d /\ np_index (map fst index) blk = Ok c)
    /\ make_virtual_offset c (nbytes g * first - d) = Ok voff
    /\ rd_calls r' = rd_calls r ++ [Seek voff; Read (count * nbytes g)].
Proof.
  intros [HG Hnd Hsz Hst Hrows Hfiles] Hi Hs Hse first count Hfit.
  destruct (Hrows bstep Hs) as [Huni Hlen].
  destruct (Hfiles bstep Hs) as (r & Hr & Hfile & Hdec & Hblk).
  assert (Hb : 0 < bstep) by (rewrite Forall_forall in Hst; auto).
  pose proof (nbytes_pos g HG) as Hnb.
  assert (Hfirst : 0 <= first).
  { unfold first.
    pose proof (sumZ_nonneg (take i (step_sizes g bstep))
                  ltac:(by apply Forall_take, step_sizes_nonneg)).
    pose proof (Z.div_pos start bstep ltac:(lia) Hb). lia. }
  assert (Hcount : 0 <= count) by (apply Z.div_pos; lia).
  assert (Hdlen : len (decompress (rd_file r)) = nbytes g * len (rows bstep)).
  { rewrite Hdec. unfold len. rewrite (concat_length_uniform _ _ Huni). lia. }
  destruct (seek_read r (nbytes g * first) (count * nbytes g))
    as (c & d & voff & r1 & r2 & Hd & Hc & Hv & Hseek & Hread & Hf2 & Hcalls);
    [done | rewrite Hdlen; nia | nia |].
  set (rows' := take (Z.to_nat count) (drop (Z.to_nat first) (rows bstep))).
  assert (Hbuf : take (Z.to_nat (count * nbytes g))
                   (drop (Z.to_nat (nbytes g * first)) (decompress (rd_file r)))
                 = concat rows').
  { rewrite Hdec. rewrite Z2Nat.inj_mul by lia.
    replace (Z.to_nat (nbytes g * first)) with (Z.to_nat first * Z.to_nat (nbytes g))%nat
      by (rewrite Z2Nat.inj_mul by lia; lia).
    rewrite (concat_drop_uniform _ _ _ Huni).
    by rewrite (concat_take_uniform _ _ _ (uniform_drop _ _ _ Huni)). }
  rewrite Hbuf in Hread.
  eexists _, r, r2, c, d, voff.
  split; [|split; [|split; [exact Hr|split; [|split; [exact Hblk|split; [|split]]]]]];
    [| | | by split | exact Hv | exact Hcalls].
  - unfold _query_bytes.
    rewrite (offsets_loc_spec g i name size bstep Hnd Hi Hs), bind_Ok.
    destruct (Z.eqb_spec bstep 0) as [|_]; [lia|].
    unfold dict_get. rewrite Hblk. cbn [of_option]. rewrite bind_Ok.
    fold first. rewrite Hd, bind_Ok, Hc, bind_Ok, Hr. cbn [of_option].
    rewrite bind_Ok, Hv, bind_Ok, Hseek, bind_Ok. fold count. rewrite Hread, bind_Ok.
    repeat match goal with
    | |- context [nbytes (mk ?a ?b ?c ?d ?e)] =>
        change (nbytes (mk a b c d e)) with (nbytes g)
    end.
    destruct (Z.eqb_spec (nbytes g) 0) as [|_]; [lia|].
    rewrite reshape_concat, bind_Ok;
      [|done|by apply uniform_take, uniform_drop].
    destruct (1 <? step / bstep); reflexivity.
  - repeat split; try reflexivity. intros s. cbn [bitmaps].
    destruct (decide (s = bstep)) as [->|Hne].
    + rewrite lookup_insert_eq, Hr. simpl. by rewrite Hf2.
    + by rewrite lookup_insert_ne.
  - cbn [bitmaps]. by rewrite lookup_insert_eq.
Qed.

(** ** Choosing the stored step *)

Lemma select_bstep_spec steps step :
  Forall (fun s => 0 < s) steps ->
  forall b0, exists b,
    select_bstep steps step b0 = Ok b
    /\ b0 <= b
    /\ (b = b0 \/ (b ∈ steps /\ step mod b = 0))
    /\ (forall s, s ∈ steps -> step mod s = 0 -> s <= b).
Proof.
  induction 1 as [|s steps Hs _ IH]; intros b0.
  - exists b0. repeat split; auto; try lia. intros s Hs. by apply elem_of_nil in Hs.
  - cbn [select_bstep]. destruct (Z.eqb_spec s 0) as [|_]; [lia|].
    destruct (Z.eqb_spec (step mod s) 0) as [Hdiv|Hndiv].
    + destruct (IH (Z.max b0 s)) as (b & Hb & Hle & Hin & Hmax).
      exists b. split; [done|]. split; [lia|]. split.
      * destruct Hin as [->|[Hin Hd]].
        -- destruct (Z.max_spec b0 s) as [[_ ->]|[_ ->]]; [right|left; done].
           split; [left|done].
        -- right. split; [by right|done].
      * intros s' Hs' Hd'. apply elem_of_cons in Hs' as [->|Hs']; [lia|auto].
    + destruct (IH b0) as (b & Hb & Hle & Hin & Hmax).
      exists b. split; [done|]. split; [done|]. split.
      * destruct Hin as [->|[Hin Hd]]; [by left|]. right. split; [by right|done].
      * intros s' Hs' Hd'. apply elem_of_cons in Hs' as [->|Hs']; [done|auto].
Qed.

Lemma select_bstep_stored steps step :
  Forall (fun s => 0 < s) steps ->
  (exists s, s ∈ steps /\ step mod s = 0) ->
  exists b,
    select_bstep steps step 1 = Ok b
    /\ b ∈ steps /\ step mod b = 0
    /\ (forall s, s ∈ steps -> step mod s = 0 -> s <= b).
Proof.
  intros Hpos (s & Hs & Hd).
  destruct (select_bstep_spec steps step Hpos 1) as (b & Hb & Hle & Hin & Hmax).
  exists b. split; [done|].
  destruct Hin as [->|[Hin Hdiv]]; [|done].
  assert (s = 1) as ->.
  { specialize (Hmax s Hs Hd). rewrite Forall_forall in Hpos. specialize (Hpos s Hs). lia. }
  done.
Qed.

Lemma select_bstep_self steps s :
  Forall (fun s => 0 < s) steps -> s ∈ steps -> select_bstep steps s 1 = Ok s.
Proof.
  intros Hpos Hs.
  destruct (select_bstep_stored steps s Hpos) as (b & Hb & Hin & Hdiv & Hmax).
  { exists s. split; [done|]. apply Z.mod_same. rewrite Forall_forall in Hpos.
    specialize (Hpos s Hs). lia. }
  rewrite Hb. f_equal.
  rewrite Forall_forall in Hpos. pose proof (Hpos s Hs). pose proof (Hpos b Hin).
  specialize (Hmax s Hs (Z.mod_same s ltac:(lia))).
  assert (b <= s); [|lia].
  apply Z.mod_divide in Hdiv; [|lia]. apply Z.divide_pos_le in Hdiv; lia.
Qed.

Lemma select_bstep_one steps :
  Forall (fun s => 0 < s) steps -> select_bstep steps 1 1 = Ok 1.
Proof.
  intros Hpos. destruct (select_bstep_spec steps 1 Hpos 1) as (b & Hb & Hle & Hin & Hmax).
  rewrite Hb. f_equal. destruct Hin as [->|[Hin Hdiv]]; [done|].
  rewrite Forall_forall in Hpos. pose proof (Hpos b Hin).
  apply Z.mod_divide in Hdiv; [|lia]. apply Z.divide_pos_le in Hdiv; lia.
Qed.



Lemma is_Err_bind {A B} (m : result A) (f : A -> result B) :
  is_Err m -> is_Err (m ≫= f).
Proof. intros [e ->]. by exists e. Qed.

Lemma is_Err_bind_r {A B} (m : result A) (f : A -> result B) :
  (forall a, is_Err (f a)) -> is_Err (m ≫= f).
Proof. intros Hf. destruct m as [a|e]; [apply Hf | by exists e]. Qed.

Lemma is_Err_Err {A} e : is_Err (@Err A e).
Proof. by exists e. Qed.


(** A read of a negative number of rows fails. *)
Lemma query_bytes_negative g name start end_ step bstep :
  0 < bstep -> end_ < start -> is_Err (_query_bytes g name start end_ step bstep).
Proof.
  intros Hb Hlt. unfold _query_bytes.
  apply is_Err_bind_r. intros off.
  destruct (Z.eqb_spec bstep 0) as [|_]; [apply is_Err_Err|].
  assert (Hneg : (end_ - start) / bstep < 0) by (apply Z.div_lt_upper_bound; lia).
  do 6 (apply is_Err_bind_r; intros ?).
  unfold bgzf_read.
  destruct (Z.ltb_spec ((end_ - start) / bstep * nbytes g) 0) as [|Hpos];
    [apply is_Err_Err|].
  destruct (blocks_at _ _ _) as [bs|e]; [|apply is_Err_Err]. rewrite bind_Ok.
  destruct (read_loop _ _ _ _) as [data [s' w']]. rewrite bind_Ok.
  repeat match goal with
  | |- context [nbytes (mk ?a ?b ?c ?d ?e)] =>
      change (nbytes (mk a b c d e)) with (nbytes g)
  end.
  destruct (Z.eqb_spec (nbytes g) 0) as [|Hnz]; [apply is_Err_Err|].
  apply is_Err_bind. unfold reshape.
  destruct (Z.leb_spec 0 (nbytes g)) as [|_]; [nia|].
  rewrite andb_false_r. apply is_Err_Err.
Qed.

Lemma stream_window (rows : list (list Z)) nb first count :
  uniform (Z.to_nat nb) rows -> 0 < nb -> 0 <= first -> 0 <= count ->
  take (Z.to_nat (count * nb)) (drop (Z.to_nat (nb * first)) (concat rows))
  = concat (take (Z.to_nat count) (drop (Z.to_nat first) rows)).
Proof.
  intros Huni Hnb Hfirst Hcount. rewrite Z2Nat.inj_mul by lia.
  replace (Z.to_nat (nb * first)) with (Z.to_nat first * Z.to_nat nb)%nat
    by (rewrite Z2Nat.inj_mul by lia; lia).
  rewrite (concat_drop_uniform _ _ _ Huni).
  by rewrite (concat_take_uniform _ _ _ (uniform_drop _ _ _ Huni)).
Qed.

Lemma div_add_le a c b : 0 < b -> a / b + c / b <= (a + c) / b.
Proof.
  intros Hb.
  pose proof (Z.div_mod a b ltac:(lia)). pose proof (Z.mod_pos_bound a b Hb).
  pose proof (Z.div_mod c b ltac:(lia)). pose proof (Z.mod_pos_bound c b Hb).
  pose proof (Z.div_mod (a + c) b ltac:(lia)). pose proof (Z.mod_pos_bound (a + c) b Hb).
  nia.
Qed.

(** A range inside a chromosome stays inside the rows of that chromosome. *)
Lemma window_fits g i name size start end_ bstep :
  Forall (fun c => 0 <= c.2) (chr g) -> 0 < bstep ->
  chr g !! i = Some (name, size) -> 0 <= start <= end_ -> end_ <= size ->
  sumZ (take i (step_sizes g bstep)) + start / bstep + (end_ - start) / bstep
  <= sumZ (take (S i) (step_sizes g bstep))
  /\ sumZ (take (S i) (step_sizes g bstep)) <= sumZ (step_sizes g bstep).
Proof.
  intros Hsz Hb Hi Hse Hend. split.
  - assert (Hcol : step_sizes g bstep !! i = Some (ceil_div size bstep)).
    { unfold step_sizes. by rewrite list_lookup_fmap, Hi. }
    rewrite (sumZ_take_S _ _ _ Hcol).
    pose proof (div_add_le start (end_ - start) bstep Hb) as H1.
    replace (start + (end_ - start)) with end_ in H1 by lia.
    pose proof (Z.div_le_mono end_ size bstep Hb Hend).
    pose proof (ceil_div_ge_div size bstep Hb). lia.
  - apply sumZ_take_le. by apply step_sizes_nonneg.
Qed.

Lemma take_length_fits {A} (l : list A) first count :
  0 <= first -> 0 <= count -> first + count <= len l ->
  length (take (Z.to_nat count) (drop (Z.to_nat first) l)) = Z.to_nat count.
Proof.
  intros Hf Hc Hfit. unfold len in Hfit. rewrite length_take, length_drop. lia.
Qed.

(** ** Little-endian integers and the block index file *)

Lemma le_bytes_length n v : length (le_bytes n v) = n.
Proof. revert v. induction n; intros; simpl; auto. Qed.

Lemma le_value_bytes n v :
  0 <= v < 256 ^ Z.of_nat n -> le_value (le_bytes n v) = v.
Proof.
  revert v. induction n as [|n IH]; intros v Hv.
  - simpl in *. lia.
  - cbn [le_bytes le_value]. rewrite IH.
    + pose proof (Z.div_mod v 256 ltac:(lia)). lia.
    + rewrite Nat2Z.inj_succ, Z.pow_succ_r in Hv by lia.
      split; [apply Z.div_pos; lia|]. apply Z.div_lt_upper_bound; lia.
Qed.

Lemma le_value_bytes8 v : 0 <= v < 2 ^ 64 -> le_value (le_bytes 8 v) = v.
Proof. intros Hv. apply le_value_bytes. exact Hv. Qed.

Lemma to_int64_small v : 0 <= v < 2 ^ 63 -> to_int64 v = v.
Proof. intros Hv. unfold to_int64. destruct (Z.ltb_spec v (2 ^ 63)); lia. Qed.

Lemma fromfile_rows (rows : list (list Z)) n (count : Z) rest :
  (0 < n)%nat -> uniform n rows -> count = len rows -> (length rest < n)%nat ->
  fromfile n count (concat rows ++ rest) = (rows, rest).
Proof.
  intros Hn Huni -> Hrest. unfold fromfile, len.
  rewrite Nat2Z.id, length_app, (concat_length_uniform _ _ Huni).
  assert ((length rows * n + length rest) / n = length rows)%nat as ->.
  { rewrite Nat.add_comm, Nat.div_add by lia. rewrite Nat.div_small by lia. done. }
  rewrite Nat.min_id. f_equal.
  - revert Huni. clear. induction 1 as [|row rows Hrow _ IH]; [done|].
    simpl. rewrite <- app_assoc, take_app_length', drop_app_length' by done.
    by rewrite IH.
  - rewrite drop_app_length'; [done|]. by rewrite (concat_length_uniform _ _ Huni).
Qed.

Lemma fromfile_head (item : list Z) n rest :
  (0 < n)%nat -> length item = n -> 
  fromfile n 1 (item ++ rest) = ([item], drop n (item ++ rest)) .
Proof.
  intros Hn Hitem. unfold fromfile. rewrite length_app, Hitem.
  assert (1 <= (n + length rest) / n)%nat.
  { apply Nat.div_le_lower_bound; lia. }
  replace (Nat.min (Z.to_nat 1) ((n + length rest) / n)) with 1%nat by lia.
  simpl. rewrite take_app_length' by done. f_equal. f_equal. lia.
Qed.

Lemma load_bgz_blocks_spec entries :
  Forall (fun e => 0 <= e.1 < 2 ^ 63 /\ 0 <= e.2 < 2 ^ 63) entries ->
  len entries < 2 ^ 64 ->
  load_bgz_blocks (gzi_file entries) = Ok ((0, 0) :: entries).
Proof.
  intros Hent Hlen. unfold load_bgz_blocks, gzi_file.
  rewrite fromfile_head by (rewrite ?le_bytes_length; lia).
  rewrite drop_app_length' by (by rewrite le_bytes_length).
  cbn [map]. rewrite le_value_bytes8 by (pose proof (len_nonneg entries); lia).
  change (np_index [len entries] 0) with (Ok (len entries)). rewrite bind_Ok.
  rewrite <- (app_nil_r (concat _)).
  rewrite (fromfile_rows _ 16 (len entries) []);
    [|lia| | |simpl; lia].
  - assert (Hdec : map (fun r => (le_value (take 8 r), le_value (drop 8 r)))
                     (map (fun e => le_bytes 8 e.1 ++ le_bytes 8 e.2) entries) = entries).
    { clear Hlen. induction Hent as [|[a b] entries [Ha Hb] _ IH]; [done|].
      cbn [map]. rewrite IH.
      rewrite take_app_length', drop_app_length' by (by rewrite le_bytes_length).
      cbn [fst snd] in *. assert (2 ^ 63 < 2 ^ 64) by done.
      rewrite !le_value_bytes8 by lia. done. }
    rewrite Hdec. unfold assign_tail. rewrite Z.eqb_refl, bind_Ok.
    f_equal. cbn [map]. f_equal. clear Hlen Hdec.
    induction Hent as [|[a b] entries [Ha Hb] _ IH]; [done|].
    cbn [map]. rewrite IH.
    cbn [fst snd] in *. by rewrite !to_int64_small.
  - apply Forall_fmap, Forall_true. intros e. unfold compose.
    by rewrite length_app, !le_bytes_length.
  - unfold len. by rewrite length_map.
Qed.

(** ** Histograms *)

Lemma occurrences_nil k : occurrences k [] = 0.
Proof. reflexivity. Qed.

Lemma occurrences_cons k o occs :
  occurrences k (o :: occs) = (if decide (o = k) then 1 else 0) + occurrences k occs.
Proof.
  unfold occurrences, len. rewrite filter_cons.
  destruct (decide (o = k)); simpl; lia.
Qed.

Lemma occurrences_app k l1 l2 :
  occurrences k (l1 ++ l2) = occurrences k l1 + occurrences k l2.
Proof. unfold occurrences. by rewrite filter_app, len_app. Qed.


Lemma occurrences_pos k occs : 0 < occurrences k occs <-> k ∈ occs.
Proof.
  unfold occurrences, len. split.
  - intros H. destruct (filter _ occs) as [|x l] eqn:Hf; [simpl in H; lia|].
    assert (Hx : x ∈ filter (fun o => o = k) occs) by (rewrite Hf; left).
    apply list_elem_of_filter in Hx as [-> Hx]. done.
  - intros H. assert (Hk : k ∈ filter (fun o => o = k) occs)
      by (by apply list_elem_of_filter).
    destruct (filter _ occs); [by apply elem_of_nil in Hk | simpl; lia].
Qed.

Lemma hist_get_insert h o c k :
  hist_get (<[o := c]> h) k = if decide (o = k) then c else hist_get h k.
Proof.
  unfold hist_get. destruct (decide (o = k)) as [->|Hne].
  - by rewrite lookup_insert_eq.
  - by rewrite lookup_insert_ne.
Qed.

Lemma value_counts_get occs k :
  hist_get (value_counts occs) k = occurrences k occs.
Proof.
  induction occs as [|o occs IH]; [done|].
  cbn [value_counts foldr]. fold (value_counts occs).
  rewrite hist_get_insert, occurrences_cons.
  destruct (decide (o = k)) as [->|Hne]; lia.
Qed.

Lemma value_counts_lookup occs k c :
  value_counts occs !! k = Some c -> c = occurrences k occs /\ k ∈ occs.
Proof.
  revert c. induction occs as [|o occs IH]; intros c; [done|].
  cbn [value_counts foldr]. fold (value_counts occs).
  rewrite occurrences_cons. destruct (decide (o = k)) as [->|Hne].
  - rewrite lookup_insert_eq. intros [= <-]. rewrite value_counts_get.
    split; [lia | left].
  - rewrite lookup_insert_ne by done. intros Hc. destruct (IH c Hc) as [-> Hin].
    split; [lia | by right].
Qed.

Lemma hist_total_insert h o c :
  h !! o = None -> hist_total (<[o := c]> h) = c + hist_total h.
Proof.
  intros Hnone. unfold hist_total.
  rewrite map_fold_insert_L; [done| |done]. intros. lia.
Qed.

Lemma hist_total_update h o c :
  hist_total (<[o := c]> h) = c + hist_total h - hist_get h o.
Proof.
  destruct (h !! o) as [c0|] eqn:Ho.
  - rewrite <- (insert_delete_eq h o c).
    rewrite hist_total_insert by apply lookup_delete_eq.
    rewrite <- (insert_id h o c0 Ho) at 2. rewrite <- (insert_delete_eq h o c0).
    rewrite hist_total_insert by apply lookup_delete_eq.
    unfold hist_get. rewrite Ho. simpl. lia.
  - rewrite hist_total_insert by done. unfold hist_get. rewrite Ho. simpl. lia.
Qed.

Lemma value_counts_total occs : hist_total (value_counts occs) = len occs.
Proof.
  induction occs as [|o occs IH]; [done|].
  cbn [value_counts foldr]. fold (value_counts occs).
  rewrite hist_total_update, IH. unfold len. simpl length. lia.
Qed.


Lemma bytes_to_bits_width G pac :
  0 <= G -> Forall (fun row => len row <= G) (_bytes_to_bits G pac).
Proof.
  intros HG. unfold _bytes_to_bits. apply Forall_fmap, Forall_true. intros row.
  unfold compose, len. rewrite length_take. lia.
Qed.

(** ** The writer *)

Lemma foldM_Ok {A B} (f : B -> A -> result B) (g : B -> A -> B) (l : list A) :
  (forall b x, x ∈ l -> f b x = Ok (g b x)) ->
  forall b, foldM f b l = Ok (foldl g b l).
Proof.
  induction l as [|x l IH]; intros Hf b; [done|].
  cbn [foldM foldl]. rewrite Hf by left. rewrite bind_Ok.
  apply IH. intros b' x' Hx'. apply Hf. by right.
Qed.

Lemma dd_append_fresh {A} k (a : A) d :
  k ∉ d.*1 -> dd_append k a d = d ++ [(k, [a])].
Proof.
  induction d as [|[k' l] d IH]; intros Hk; [done|].
  cbn [dd_append]. destruct (Z.eqb_spec k' k) as [->|Hne].
  - exfalso. apply Hk. left.
  - rewrite IH; [done|]. intros Hin. apply Hk. by right.
Qed.

Lemma dd_append_present {A} k (a : A) (F : Z -> list A) keys :
  NoDup keys -> k ∈ keys ->
  dd_append k a (map (fun s => (s, F s)) keys)
  = map (fun s => (s, if decide (s = k) then F s ++ [a] else F s)) keys.
Proof.
  induction 1 as [|k' keys Hk' Hnd IH]; intros Hin; [by apply elem_of_nil in Hin|].
  cbn [map dd_append]. destruct (Z.eqb_spec k' k) as [->|Hne].
  - rewrite decide_True by done. f_equal.
    apply map_ext_in. intros s Hs. apply list_elem_of_In in Hs.
    rewrite decide_False; [done|]. by intros ->.
  - rewrite decide_False by done. f_equal. apply IH.
    by apply elem_of_cons in Hin as [->|Hin].
Qed.

(** The arrays of one database join those of the databases before it. *)
Lemma dd_append_steps {A} (f : Z -> A) steps :
  NoDup steps ->
  forall ss F, NoDup ss -> ss ⊆ steps ->
  foldl (fun d s => dd_append s (f s) d) (map (fun s => (s, F s)) steps) ss
  = map (fun s => (s, if decide (s ∈ ss) then F s ++ [f s] else F s)) steps.
Proof.
  intros Hnd ss. induction ss as [|s0 ss IH]; intros F Hss Hsub.
  - cbn [foldl]. apply map_ext. intros s. rewrite decide_False; [done|]. apply not_elem_of_nil.
  - apply NoDup_cons in Hss as [Hs0 Hss]. cbn [foldl].
    rewrite dd_append_present; [|done|apply Hsub; left].
    rewrite (IH (fun s => if decide (s = s0) then F s ++ [f s0] else F s));
      [|done|intros s Hs; apply Hsub; by right].
    apply map_ext. intros s. f_equal.
    destruct (decide (s = s0)) as [->|Hne].
    + rewrite decide_False by done. rewrite decide_True by left. done.
    + destruct (decide (s ∈ ss)) as [Hin|Hnin].
      * rewrite decide_True by (by right). done.
      * rewrite decide_False; [done|]. intros Hin. by apply elem_of_cons in Hin as [?|?].
Qed.

(** The arrays of the first database open the dictionary. *)
Lemma dd_append_first {A} (f : Z -> A) :
  forall ss done_, NoDup (done_ ++ ss) ->
  foldl (fun d s => dd_append s (f s) d) (map (fun s => (s, [f s])) done_) ss
  = map (fun s => (s, [f s])) (done_ ++ ss).
Proof.
  induction ss as [|s0 ss IH]; intros done_ Hnd.
  - by rewrite app_nil_r.
  - cbn [foldl]. rewrite dd_append_fresh.
    + replace (map (fun s => (s, [f s])) done_ ++ [(s0, [f s0])])
        with (map (fun s => (s, [f s])) (done_ ++ [s0])) by (by rewrite map_app).
      rewrite IH by (by rewrite <- app_assoc). by rewrite <- app_assoc.
    + rewrite <- list_fmap_compose. 
      assert ((fst ∘ (fun s => (s, [f s]))) <$> done_ = done_) as ->.
      { induction done_; [done|]. cbn [fmap list_fmap]. f_equal. apply IHdone_.
        by apply NoDup_cons in Hnd as [_ ?]. }
      apply NoDup_app in Hnd as (_ & Hdis & _). intros Hin. apply (Hdis s0 Hin). left.
Qed.

Lemma byte_arrs_spec {A} (pacs : list A) (sl : Z -> A -> A) steps p0 :
  NoDup steps ->
  foldl (fun d pac => foldl (fun d s => dd_append s (sl s pac) d) d steps) [] (p0 :: pacs)
  = map (fun s => (s, map (sl s) (p0 :: pacs))) steps.
Proof.
  intros Hnd. cbn [foldl].
  pose proof (dd_append_first (fun s => sl s p0) steps [] Hnd) as Hfirst.
  cbn [map app] in Hfirst. rewrite Hfirst. clear Hfirst.
  assert (Hgen : forall ps F,
    foldl (fun d pac => foldl (fun d s => dd_append s (sl s pac) d) d steps)
          (map (fun s => (s, F s)) steps) ps
    = map (fun s => (s, F s ++ map (sl s) ps)) steps).
  { induction ps as [|p ps IH]; intros F.
    - cbn [foldl]. apply map_ext. intros s. by rewrite app_nil_r.
    - cbn [foldl]. rewrite (dd_append_steps (fun s => sl s p) steps Hnd steps F Hnd) by done.
      rewrite IH. apply map_ext_in. intros s Hs. apply list_elem_of_In in Hs.
      rewrite decide_True by done. by rewrite <- app_assoc. }
  apply Hgen.
Qed.

Lemma stride_from_zip_with {A B C} (f : A -> B -> C) k :
  forall a b j,
  stride_from k j (zip_with f a b) = zip_with f (stride_from k j a) (stride_from k j b).
Proof.
  induction a as [|x a IH]; intros b j; [done|].
  destruct b as [|y b].
  - cbn [zip_with stride_from]. by destruct (match j with O => _ | S _ => _ end).
  - cbn [zip_with stride_from]. destruct j as [|j]; cbn [zip_with]; by rewrite IH.
Qed.

Lemma stride_zip_with {A B C} (f : A -> B -> C) k a b :
  stride k (zip_with f a b) = zip_with f (stride k a) (stride k b).
Proof. apply stride_from_zip_with. Qed.

Lemma hjoin_cons {A} (a : list (list A)) rest :
  rest <> [] -> hjoin (a :: rest) = zip_with app a (hjoin rest).
Proof. by destruct rest. Qed.

Lemma hconcat_cons {A} (a : list (list A)) rest :
  rest <> [] ->
  hconcat (a :: rest)
  = (r ← hconcat rest;
     if (length a =? length r)%nat then Ok (zip_with app a r) else Err ValueError).
Proof. by destruct rest. Qed.

Lemma hconcat_hjoin {A} (arrs : list (list (list A))) m :
  arrs <> [] -> Forall (fun a => length a = m) arrs ->
  hconcat arrs = Ok (hjoin arrs) /\ length (hjoin arrs) = m.
Proof.
  induction arrs as [|a arrs IH]; intros Hne Hlen; [done|].
  apply Forall_cons in Hlen as [Ha Hlen].
  destruct (decide (arrs = [])) as [->|Hne'].
  - by split.
  - destruct (IH Hne' Hlen) as [Hc Hl].
    rewrite hconcat_cons, hjoin_cons, Hc, bind_Ok by done. rewrite Ha, Hl, Nat.eqb_refl.
    split; [done|]. rewrite length_zip_with. lia.
Qed.

Lemma hjoin_stride {A} k (arrs : list (list (list A))) :
  hjoin (map (stride k) arrs) = stride k (hjoin arrs).
Proof.
  induction arrs as [|a arrs IH]; [done|].
  destruct (decide (arrs = [])) as [->|Hne]; [done|].
  cbn [map]. rewrite !hjoin_cons, IH, stride_zip_with; [done|done|].
  by destruct arrs.
Qed.

Lemma uniform_zip_app {A} n m (a b : list (list A)) :
  uniform n a -> uniform m b -> uniform (n + m) (zip_with app a b).
Proof.
  intros Ha. revert b. induction Ha as [|x a Hx _ IH]; intros b Hb; [constructor|].
  destruct Hb as [|y b Hy Hb]; [constructor|].
  cbn [zip_with]. constructor; [rewrite length_app; lia | by apply IH].
Qed.

Lemma hjoin_uniform {A} (arrs : list (list (list A))) (widths : list nat) :
  Forall2 (fun a n => uniform n a) arrs widths ->
  arrs <> [] ->
  uniform (sum_list widths) (hjoin arrs).
Proof.
  induction 1 as [|a n arrs widths Ha Hrest IH]; intros Hne; [done|].
  destruct (decide (arrs = [])) as [->|Hne'].
  - apply Forall2_nil_inv_l in Hrest as ->. simpl. by rewrite Nat.add_0_r.
  - rewrite hjoin_cons by done. simpl. apply uniform_zip_app; auto.
Qed.

Lemma slice_step_pos {A} (a : list A) s :
  0 < s -> slice_step a s = Ok (stride (Z.to_nat s) a).
Proof.
  intros Hs. unfold slice_step. destruct (Z.eqb_spec s 0); [lia|].
  destruct (Z.ltb_spec 0 s); [done|lia].
Qed.

Lemma dict_get_Some {V} (d : gmap Z V) k v : d !! k = Some v -> dict_get d k = Ok v.
Proof. intros H. unfold dict_get. by rewrite H. Qed.

Lemma query_kmc_bytes_spec w db_i seq :
  0 <= db_i < len (kmc_dbs w) ->
  _query_kmc_bytes w db_i seq = Ok (kmc_rows w seq db_i).
Proof.
  intros Hi. unfold _query_kmc_bytes, kmc_rows, np_index.
  destruct (Z.leb_spec 0 db_i); [|lia]. destruct (Z.ltb_spec db_i (len (kmc_dbs w))); [|lia].
  cbn [andb]. destruct (lookup_lt_is_Some_2 (kmc_dbs w) (Z.to_nat db_i)) as [db Hdb];
    [unfold len in Hi; lia|].
  rewrite Hdb. cbn [of_option]. rewrite bind_Ok. by rewrite map_map.
Qed.

(** The second loop of [_write_bitmap]: each step's arrays are joined and
    appended to that step's stream. *)
Lemma write_streams_spec G steps dbs (A : Z -> list (list (list Z))) (B : Z -> list (list Z)) :
  forall ss (arrs : gmap Z (list (list Z))) (m : gmap Z (list Z)),
  NoDup ss ->
  (forall s, s ∈ ss -> hconcat (A s) = Ok (B s)) ->
  (forall s, s ∈ ss -> is_Some (m !! s)) ->
  exists (arrs' : gmap Z (list (list Z))) (m' : gmap Z (list Z)),
    foldM (fun '(arrs, w) '(step, arr) =>
        a ← hconcat arr;
        out ← dict_get (w_bitmaps w) step;
        Ok (<[step := a]> arrs,
            mkw (w_ngenomes w) (w_steps w) (kmc_dbs w)
                (<[step := out ++ concat a]> (w_bitmaps w))))
      (arrs, mkw G steps dbs m) (map (fun s => (s, A s)) ss)
    = Ok (arrs', mkw G steps dbs m')
    /\ (forall s, s ∈ ss ->
          arrs' !! s = Some (B s)
          /\ exists out, m !! s = Some out /\ m' !! s = Some (out ++ concat (B s)))
    /\ (forall s, s ∉ ss -> arrs' !! s = arrs !! s /\ m' !! s = m !! s).
Proof.
  induction ss as [|s0 ss IH]; intros arrs m Hnd HA Hm.
  - exists arrs, m. split; [done|]. split; [|done].
    intros s Hs. by apply elem_of_nil in Hs.
  - apply NoDup_cons in Hnd as [Hs0 Hnd].
    destruct (Hm s0 ltac:(left)) as [out Hout].
    destruct (IH (<[s0 := B s0]> arrs) (<[s0 := out ++ concat (B s0)]> m) Hnd)
      as (arrs' & m' & Hfold & Hin & Hout').
    { intros s Hs. apply HA. by right. }
    { intros s Hs. rewrite lookup_insert_ne by (by intros ->). apply Hm. by right. }
    exists arrs', m'. split; [|split].
    + cbn [map foldM]. rewrite HA by left. rewrite bind_Ok.
      cbn [w_bitmaps w_ngenomes w_steps kmc_dbs].
      rewrite (dict_get_Some _ _ _ Hout), !bind_Ok. exact Hfold.
    + intros s Hs. apply elem_of_cons in Hs as [->|Hs].
      * destruct (Hout' s0 Hs0) as [-> ->]. rewrite !lookup_insert_eq. eauto.
      * destruct (Hin s Hs) as [-> (o & Ho & ->)]. split; [done|].
        rewrite lookup_insert_ne in Ho by (by intros ->). eauto.
    + intros s Hs. destruct (Hout' s) as [-> ->].
      { intros Hin'. apply Hs. by right. }
      rewrite !lookup_insert_ne; [done| |]; intros ->; apply Hs; left.
Qed.

Lemma seqZ_cons_nonempty n : 0 < n -> seqZ 0 n = 0 :: seqZ 1 (n - 1).
Proof.
  intros Hn. rewrite seqZ_cons by lia. done.
Qed.

Lemma kmc_rows_length w seq db_i db :
  kmc_dbs w !! Z.to_nat db_i = Some db -> length (kmc_rows w seq db_i) = length (db seq).
Proof. intros Hdb. unfold kmc_rows. rewrite Hdb. by rewrite length_map. Qed.

(** [_write_bitmap] appends, for each step, the rows of the sequence at that
    step to the stream of the step, and returns the presence matrix. *)
Lemma write_bitmap_spec G steps dbs m name seq :
  NoDup steps -> Forall (fun s => 0 < s) steps -> 1 ∈ steps -> dbs <> [] ->
  (forall db db', db ∈ dbs -> db' ∈ dbs -> length (db seq) = length (db' seq)) ->
  (forall s, s ∈ steps -> is_Some (m !! s)) ->
  let w := mkw G steps dbs m in
  exists m',
    _write_bitmap w name seq
    = Ok (_bytes_to_bits G (packed_rows w seq), mkw G steps dbs m')
    /\ (forall s, s ∈ steps ->
          exists out, m !! s = Some out
            /\ m' !! s = Some (out ++ concat (stride (Z.to_nat s) (packed_rows w seq))))
    /\ (forall s, s ∉ steps -> m' !! s = m !! s).
Proof.
  intros Hnd Hpos H1 Hdbs Hcnt Hm w.
  set (pac := fun db => kmc_rows w seq db).
  assert (Hlen : 0 < len dbs).
  { unfold len. destruct dbs; [done|]. simpl. lia. }
  destruct (lookup_lt_is_Some_2 dbs 0%nat) as [db0 Hdb0]; [unfold len in Hlen; lia|].
  assert (Hsame : Forall (fun a => length a = length (db0 seq))
                    (map pac (seqZ 0 (len dbs)))).
  { apply Forall_fmap, Forall_forall. intros i Hi.
    apply elem_of_seqZ in Hi. unfold compose, pac.
    destruct (lookup_lt_is_Some_2 dbs (Z.to_nat i)) as [db Hdb]; [unfold len in Hi; lia|].
    rewrite (kmc_rows_length w seq i db Hdb). apply Hcnt.
    - by apply list_elem_of_lookup_2 in Hdb.
    - by apply list_elem_of_lookup_2 in Hdb0. }
  assert (Hpk : packed_rows w seq = hjoin (map pac (seqZ 0 (len dbs)))) by done.
  destruct (map pac (seqZ 0 (len dbs))) as [|p0 ps] eqn:Hpacs.
  { rewrite seqZ_cons_nonempty in Hpacs by done. done. }
  assert (Harrs :
    foldM (fun byte_arrs db =>
        pacbytes ← _query_kmc_bytes w db seq;
        foldM (fun byte_arrs s =>
            a ← slice_step pacbytes s;
            Ok (dd_append s a byte_arrs))
          byte_arrs (w_steps w))
      [] (seqZ 0 (len (kmc_dbs w)))
    = Ok (map (fun s => (s, map (stride (Z.to_nat s)) (p0 :: ps))) steps)).
  { rewrite (foldM_Ok _ (fun d db =>
        foldl (fun d s => dd_append s (stride (Z.to_nat s) (pac db)) d) d steps)).
    - rewrite <- (foldl_fmap
        (fun d p => foldl (fun d s => dd_append s (stride (Z.to_nat s) p) d) d steps)
        [] (seqZ 0 (len (kmc_dbs w))) pac).
      cbn [kmc_dbs w].
      change (pac <$> seqZ 0 (len dbs)) with (map pac (seqZ 0 (len dbs))).
      rewrite Hpacs.
      by rewrite (byte_arrs_spec ps (fun s p => stride (Z.to_nat s) p) steps p0 Hnd).
    - intros d db Hdb. apply elem_of_seqZ in Hdb.
      rewrite query_kmc_bytes_spec by lia. rewrite bind_Ok.
      apply foldM_Ok. intros d' s Hs. cbn [w_steps w] in Hs.
      rewrite slice_step_pos; [done|]. rewrite Forall_forall in Hpos. auto. }
  destruct (write_streams_spec G steps dbs
              (fun s => map (stride (Z.to_nat s)) (p0 :: ps))
              (fun s => stride (Z.to_nat s) (packed_rows w seq))
              steps ∅ m Hnd) as (arrs' & m' & Hfold & Hin & Hout).
  { intros s Hs.
    destruct (hconcat_hjoin (map (stride (Z.to_nat s)) (p0 :: ps))
                ((length (db0 seq) + Z.to_nat s - 1) / Z.to_nat s)%nat) as [Hc _].
    - done.
    - apply Forall_fmap. eapply Forall_impl; [exact Hsame|]. intros a Ha.
      unfold compose. rewrite stride_length, Ha; [done|].
      rewrite Forall_forall in Hpos. specialize (Hpos s Hs). lia.
    - rewrite Hc. f_equal. rewrite Hpk. apply hjoin_stride. }
  { done. }
  exists m'. split; [|split].
  - unfold _write_bitmap. rewrite Harrs, bind_Ok. subst w. rewrite Hfold, bind_Ok.
    destruct (Hin 1 H1) as [Harr1 _]. rewrite (dict_get_Some _ _ _ Harr1), bind_Ok.
    change (Z.to_nat 1) with 1%nat. by rewrite stride_1.
  - intros s Hs. by destruct (Hin s Hs) as [_ ?].
  - intros s Hs. by destruct (Hout s Hs) as [_ ?].
Qed.

Lemma packed_rows_fields w1 w2 seq :
  w_ngenomes w1 = w_ngenomes w2 -> kmc_dbs w1 = kmc_dbs w2 ->
  packed_rows w1 seq = packed_rows w2 seq.
Proof.
  intros HG Hdbs. unfold packed_rows, kmc_rows, kmc_width, w_nbytes.
  by rewrite HG, Hdbs.
Qed.

Lemma open_writers_lookup (steps : list Z) s :
  s ∈ steps ->
  (list_to_map ((fun s => (s, [])) <$> steps) : gmap Z (list Z)) !! s = Some [].
Proof.
  induction steps as [|s0 steps IH]; intros Hs; [by apply elem_of_nil in Hs|].
  cbn [fmap list_fmap list_to_map foldr]. 
  destruct (decide (s0 = s)) as [->|Hne].
  - by rewrite lookup_insert_eq.
  - rewrite lookup_insert_ne by done. apply IH.
    by apply elem_of_cons in Hs as [->|Hs].
Qed.

(** The loop of [run_anchor]: the records are written one after the other. *)
Lemma write_records_spec G steps dbs :
  NoDup steps -> Forall (fun s => 0 < s) steps -> 1 ∈ steps -> dbs <> [] ->
  forall (recs : list (string * string)) bms m,
  (forall name seq db db', (name, seq) ∈ recs -> db ∈ dbs -> db' ∈ dbs ->
     length (db seq) = length (db' seq)) ->
  (forall s, s ∈ steps -> is_Some (m !! s)) ->
  let w0 := mkw G steps dbs ∅ in
  exists m',
    foldM (fun '(bitmaps, w) '(name, seq) =>
        '(bitmap, w') ← _write_bitmap w name seq;
        Ok (bitmaps ++ [bitmap], w'))
      (bms, mkw G steps dbs m) recs
    = Ok (bms ++ map (fun rec => _bytes_to_bits G (packed_rows w0 rec.2)) recs,
          mkw G steps dbs m')
    /\ forall s, s ∈ steps ->
         exists out, m !! s = Some out
           /\ m' !! s = Some (out ++ concat (map (fun rec =>
                concat (stride (Z.to_nat s) (packed_rows w0 rec.2))) recs)).
Proof.
  intros Hnd Hpos H1 Hdbs recs. induction recs as [|[name seq] recs IH];
    intros bms m Hcnt Hm w0.
  - exists m. split; [by rewrite app_nil_r|].
    intros s Hs. destruct (Hm s Hs) as [out Hout]. exists out.
    by rewrite app_nil_r.
  - destruct (write_bitmap_spec G steps dbs m name seq Hnd Hpos H1 Hdbs)
      as (m1 & Hw & Hin & Hout); [|done|].
    { intros db db'. apply (Hcnt name seq). left. }
    destruct (IH (bms ++ [_bytes_to_bits G (packed_rows w0 seq)]) m1)
      as (m' & Hfold & Hin').
    { intros n sq db db' Hrec. apply (Hcnt n sq). by right. }
    { intros s Hs. destruct (Hin s Hs) as (out & _ & ->). eauto. }
    exists m'. split.
    + cbn [foldM map]. rewrite Hw, bind_Ok.
      rewrite (packed_rows_fields _ w0 seq) by done.
      rewrite bind_Ok. rewrite Hfold. by rewrite <- app_assoc.
    + intros s Hs. destruct (Hin s Hs) as (out & Hout0 & Hm1).
      destruct (Hin' s Hs) as (out1 & Hout1 & Hm').
      rewrite Hm1 in Hout1. injection Hout1 as <-.
      exists out. split; [done|]. rewrite Hm'. f_equal.
      cbn [map concat snd]. rewrite (packed_rows_fields _ w0 seq) by done.
      by rewrite <- app_assoc.
Qed.

Lemma run_anchor_spec w fasta :
  anchor_ok w fasta ->
  exists w',
    run_anchor w fasta
    = Ok (map (fun rec => _bytes_to_bits (w_ngenomes w) (packed_rows w rec.2)) fasta, w')
    /\ forall s, s ∈ w_steps w ->
         w_bitmaps w' !! s
         = Some (concat (map (fun rec =>
             concat (stride (Z.to_nat s) (packed_rows w rec.2))) fasta)).
Proof.
  intros [HG Hnd Hpos H1 Hdbs Hnames Hcnt Hwidth].
  destruct (write_records_spec (w_ngenomes w) (w_steps w) (kmc_dbs w)
              Hnd Hpos H1 Hdbs fasta []
              (list_to_map ((fun s => (s, [])) <$> w_steps w)))
    as (m' & Hfold & Hin).
  { exact Hcnt. }
  { intros s Hs. rewrite open_writers_lookup by done. eauto. }
  eexists. split.
  - unfold run_anchor. rewrite Hfold. reflexivity.
  - intros s Hs. destruct (Hin s Hs) as (out & Hout & Hm').
    rewrite open_writers_lookup in Hout by done. injection Hout as <-.
    cbn [w_bitmaps]. rewrite Hm'. reflexivity.
Qed.

(** ** From the writer to a session *)

Lemma uniform_stride {A} n k (rows : list (list A)) :
  (1 <= k)%nat -> uniform n rows -> uniform n (stride k rows).
Proof.
  intros Hk Huni. apply Forall_lookup. intros i row Hrow.
  rewrite stride_lookup in Hrow by done.
  unfold uniform in Huni. rewrite Forall_lookup in Huni. eauto.
Qed.

Lemma uniform_concat {A} n (ls : list (list (list A))) :
  Forall (uniform n) ls -> uniform n (concat ls).
Proof. induction 1; [constructor|]. simpl. by apply Forall_app. Qed.

Lemma kmc_width_bounds w db_i :
  0 < w_ngenomes w -> 0 <= kmc_width w db_i <= 4.
Proof.
  intros HG. unfold kmc_width.
  assert (0 < w_nbytes w) by (by apply ceil_div_pos).
  destruct (Z.leb_spec (w_nbytes w) 4); [lia|].
  destruct (_ && _); [|lia].
  pose proof (Z.mod_pos_bound (w_nbytes w) 4 ltac:(lia)). lia.
Qed.

Lemma kmc_rows_uniform w seq db_i :
  0 < w_ngenomes w ->
  uniform (Z.to_nat (kmc_width w db_i)) (kmc_rows w seq db_i).
Proof.
  intros HG. unfold kmc_rows. destruct (kmc_dbs w !! _) as [db|]; [|constructor].
  apply Forall_fmap, Forall_true. intros c. unfold compose.
  pose proof (kmc_width_bounds w db_i HG).
  rewrite length_take, le_bytes_length. lia.
Qed.

Lemma sum_list_to_nat (f : Z -> Z) l :
  Forall (fun x => 0 <= f x) l ->
  sum_list (map (fun x => Z.to_nat (f x)) l) = Z.to_nat (sumZ (map f l)).
Proof.
  induction 1 as [|x l Hx Hl IH]; [done|].
  change (sum_list (map (fun x => Z.to_nat (f x)) (x :: l)))
    with (Z.to_nat (f x) + sum_list (map (fun x => Z.to_nat (f x)) l))%nat.
  change (sumZ (map f (x :: l))) with (f x + sumZ (map f l)).
  rewrite IH.
  pose proof (sumZ_nonneg (map f l) ltac:(by apply Forall_fmap)).
  lia.
Qed.

Lemma packed_rows_uniform w fasta seq :
  anchor_ok w fasta -> uniform (Z.to_nat (w_nbytes w)) (packed_rows w seq).
Proof.
  intros [HG Hnd Hpos H1 Hdbs Hnames Hcnt Hwidth].
  rewrite <- Hwidth. rewrite <- (sum_list_to_nat (kmc_width w)).
  - unfold packed_rows. apply hjoin_uniform.
    + apply Forall2_fmap, Forall_Forall2_diag, Forall_true.
      intros i. by apply kmc_rows_uniform.
    + assert (0 < len (kmc_dbs w)).
      { unfold len. destruct (kmc_dbs w); [done|]. simpl. lia. }
      by rewrite seqZ_cons_nonempty.
  - apply Forall_true. intros i. by apply kmc_width_bounds.
Qed.

Lemma concat_concat_map {A B} (f : A -> list (list B)) l :
  concat (concat (map f l)) = concat (map (fun x => concat (f x)) l).
Proof.
  induction l as [|x l IH]; [done|]. cbn [map concat]. by rewrite concat_app, IH.
Qed.

Lemma bytes_to_bits_length G pac : len (_bytes_to_bits G pac) = len pac.
Proof. unfold _bytes_to_bits, len. by rewrite length_map. Qed.

Lemma stride_len {A} (s : Z) (a : list A) :
  0 < s -> len (stride (Z.to_nat s) a) = ceil_div (len a) s.
Proof.
  intros Hs. unfold len. rewrite stride_length by lia.
  rewrite ceil_div_nat by lia. by rewrite Z2Nat.id by lia.
Qed.

Lemma zip_with_fmap_diag {A B C} (f : A -> B -> C) (g : A -> B) l :
  zip_with f l (map g l) = map (fun x => f x (g x)) l.
Proof. induction l; [done|]. cbn [map zip_with]. by f_equal. Qed.

(** What an anchored genome holds. *)
Lemma anchored_inv w fasta bitmaps g :
  anchor_ok w fasta -> anchored w fasta bitmaps g ->
  bitmaps = map (fun rec => _bytes_to_bits (w_ngenomes w) (packed_rows w rec.2)) fasta
  /\ chr g = map (fun rec => (rec.1, len (packed_rows w rec.2))) fasta
  /\ nbytes g = w_nbytes w
  /\ session_ok g (stored_rows w fasta).
Proof.
  intros Hok (w' & Hrun & HG & Hsteps & Hchr & Hfiles).
  destruct (run_anchor_spec w fasta Hok) as (w'' & Hrun' & Hout).
  rewrite Hrun in Hrun'. injection Hrun' as -> ->.
  assert (Hchr' : chr g = map (fun rec => (rec.1, len (packed_rows w rec.2))) fasta).
  { rewrite Hchr, zip_with_fmap_diag. apply map_ext. intros rec.
    by rewrite bytes_to_bits_length. }
  assert (Hnb : nbytes g = w_nbytes w) by (unfold nbytes, w_nbytes; by rewrite HG).
  split; [done|]. split; [done|]. split; [done|].
  pose proof Hok as [HG0 Hnd Hpos H1 Hdbs Hnames Hcnt Hwidth].
  split.
  - by rewrite HG.
  - rewrite Hchr'. by rewrite <- list_fmap_compose.
  - rewrite Hchr'. apply Forall_fmap, Forall_true. intros rec. apply len_nonneg.
  - by rewrite Hsteps.
  - intros s Hs. rewrite Hsteps in Hs.
    assert (0 < s) by (rewrite Forall_forall in Hpos; auto).
    split.
    + rewrite Hnb. apply uniform_concat, Forall_fmap, Forall_true. intros rec.
      apply uniform_stride; [lia|]. by apply (packed_rows_uniform w fasta).
    + unfold stored_rows, step_sizes. rewrite Hchr'.
      clear -H. induction fasta as [|rec fasta IH]; [done|].
      cbn [map concat]. rewrite len_app, IH, stride_len by done.
      reflexivity.
  - intros s Hs. destruct (Hfiles s Hs) as (r & out & Hr & Hw & Hf & Hd & Hb).
    exists r. rewrite Hsteps in Hs. rewrite (Hout s Hs) in Hw. injection Hw as <-.
    split; [done|]. split; [done|]. split; [|done].
    rewrite Hd. unfold stored_rows. by rewrite concat_concat_map.
Qed.

(** The rows of one chromosome inside the bitmap of a step. *)
Lemma stored_rows_chromosome w fasta g i name (seq : string) s q count :
  chr g = map (fun rec => (rec.1, len (packed_rows w rec.2))) fasta ->
  fasta !! i = Some (name, seq) -> 0 < s ->
  0 <= q -> 0 <= count ->
  q + count <= len (stride (Z.to_nat s) (packed_rows w seq)) ->
  take (Z.to_nat count)
    (drop (Z.to_nat (sumZ (take i (step_sizes g s)) + q)) (stored_rows w fasta s))
  = take (Z.to_nat count) (drop (Z.to_nat q) (stride (Z.to_nat s) (packed_rows w seq))).
Proof.
  intros Hchr Hi Hs Hq Hcount Hfit.
  assert (Hoff : sumZ (take i (step_sizes g s))
                 = len (concat (map (fun rec => stride (Z.to_nat s) (packed_rows w rec.2))
                                    (take i fasta)))).
  { unfold step_sizes. rewrite Hchr. rewrite map_map. rewrite firstn_map.
    generalize (take i fasta). clear -Hs. intros l.
    induction l as [|rec l IH]; [done|].
    cbn [map concat]. rewrite len_app, <- IH, stride_len by done.
    unfold sumZ. cbn [foldr snd]. done. }
  unfold stored_rows.
  rewrite <- (take_drop_middle fasta i (name, seq) Hi) at 1.
  rewrite map_app, concat_app. cbn [map concat snd].
  rewrite Hoff. unfold len in *.
  rewrite Z2Nat.inj_add, Nat2Z.id by lia.
  rewrite drop_app_ge by lia.
  replace (length _ + Z.to_nat q - length _)%nat with (Z.to_nat q) by lia.
  rewrite drop_app_le by lia.
  rewrite take_app_le; [done|]. rewrite length_drop. lia.
Qed.

(** ** Queries *)

Lemma query_unfold g name start end_ step b :
  select_bstep (steps g) step 1 = Ok b ->
  query g name (Some start) (Some end_) step
  = ('(pac, g') ← _query_bytes g name start end_ step b;
     Ok (_bytes_to_bits (ngenomes g) pac, g')).
Proof. intros Hb. unfold query. by rewrite Hb. Qed.

(** The matrix a query returns, in terms of the rows of the bitmap read. *)
Lemma query_spec g rows name i size start end_ step b :
  session_ok g rows ->
  chr g !! i = Some (name, size) ->
  select_bstep (steps g) step 1 = Ok b -> b ∈ steps g ->
  0 <= start <= end_ ->
  let first := sumZ (take i (step_sizes g b)) + start / b in
  let count := (end_ - start) / b in
  first + count <= len (rows b) ->
  exists g',
    query g name (Some start) (Some end_) step
    = Ok (_bytes_to_bits (ngenomes g)
            ((if 1 <? step / b then stride (Z.to_nat (step / b)) else id)
               (take (Z.to_nat count) (drop (Z.to_nat first) (rows b)))), g')
    /\ same_files g g'.
Proof.
  intros Hok Hi Hsel Hb Hse first count Hfit.
  destruct (query_bytes_spec g rows name i size start end_ step b Hok Hi Hb Hse Hfit)
    as (g' & r & r' & c & d & voff & Hq & Hsame & _).
  exists g'. split; [|done].
  rewrite (query_unfold g name start end_ step b Hsel). fold first count in Hq.
  by rewrite Hq.
Qed.

Lemma session_window g rows i name size start end_ b :
  session_ok g rows -> chr g !! i = Some (name, size) -> b ∈ steps g ->
  0 <= start <= end_ -> end_ <= size ->
  0 < b
  /\ 0 <= sumZ (take i (step_sizes g b))
  /\ 0 <= start / b /\ 0 <= (end_ - start) / b
  /\ sumZ (take i (step_sizes g b)) + start / b + (end_ - start) / b <= len (rows b).
Proof.
  intros [HG Hnd Hsz Hst Hrows Hfiles] Hi Hb Hse Hend.
  assert (Hpos : 0 < b) by (rewrite Forall_forall in Hst; auto).
  destruct (window_fits g i name size start end_ b Hsz Hpos Hi Hse Hend) as [H1 H2].
  destruct (Hrows b Hb) as [_ Hlen].
  pose proof (sumZ_nonneg (take i (step_sizes g b))
                ltac:(by apply Forall_take, step_sizes_nonneg)).
  pose proof (Z.div_pos start b ltac:(lia) Hpos).
  pose proof (Z.div_pos (end_ - start) b ltac:(lia) Hpos).
  repeat split; try lia.
Qed.


(** ** The small collection *)

Lemma ex_anchor_ok : anchor_ok ex_w ex_fasta.
Proof.
  split.
  - done.
  - apply NoDup_ListNoDup. repeat constructor; simpl; intuition lia.
  - repeat constructor.
  - left.
  - done.
  - apply NoDup_ListNoDup. repeat constructor; simpl; intuition discriminate.
  - intros name seq db db' _ Hdb Hdb'.
    apply list_elem_of_singleton in Hdb, Hdb'. by subst.
  - reflexivity.
Qed.

Lemma ex_run_anchor :
  exists w', run_anchor ex_w ex_fasta = Ok (ex_bitmaps, w') /\ w_bitmaps w' = ex_written.
Proof. eexists. split; [vm_compute; reflexivity|]. reflexivity. Qed.

Lemma ex_file_ok s : s = 1 \/ s = 2 -> file_ok (ex_file s).
Proof.
  intros [Hs|Hs]; subst s; (split; [|by vm_compute]); unfold blocks_ok, ex_file;
    repeat (apply Forall_cons; split; [split|]); try apply Forall_nil;
    by vm_compute.
Qed.

Lemma ex_anchored : anchored ex_w ex_fasta ex_bitmaps ex_genome.
Proof.
  destruct ex_run_anchor as (w' & Hrun & Hw).
  exists w'. split; [done|]. split; [done|]. split; [done|]. split; [done|].
  intros s Hs. rewrite Hw.
  assert (s = 1 \/ s = 2) as Hcase.
  { apply elem_of_cons in Hs as [?|Hs]; [by left|right].
    by apply list_elem_of_singleton in Hs. }
  destruct Hcase as [Hs1|Hs2]; subst s.
  - exists (bgzf_open (ex_file 1)), (default [] (ex_written !! 1)).
    split; [done|]. split; [by vm_compute|]. split; [apply ex_file_ok; by left|].
    split; [|done]. by vm_compute.
  - exists (bgzf_open (ex_file 2)), (default [] (ex_written !! 2)).
    split; [done|]. split; [by vm_compute|]. split; [apply ex_file_ok; by right|].
    split; [|done]. by vm_compute.
Qed.

Lemma ex_session_ok : session_ok ex_genome (stored_rows ex_w ex_fasta).
Proof. apply (anchored_inv ex_w ex_fasta ex_bitmaps), ex_anchored. apply ex_anchor_ok. Qed.

(** ** [np.unique] and the vector of [Index.bitsum_count] *)




Lemma unique_insert_keys o u v :
  v ∈ (unique_insert o u).*1 <-> v = o \/ v ∈ u.*1.
Proof.
  induction u as [|[v' c] u IH]; cbn [unique_insert].
  - cbn [fmap list_fmap fst]. rewrite elem_of_cons. done.
  - destruct (Z.ltb_spec o v').
    + cbn [fmap list_fmap fst]. rewrite !elem_of_cons. done.
    + destruct (Z.eqb_spec o v') as [->|Hne]; cbn [fmap list_fmap fst].
      * rewrite !elem_of_cons. tauto.
      * rewrite !elem_of_cons, IH. tauto.
Qed.



Lemma np_unique_keys occs v : v ∈ (np_unique occs).*1 <-> v ∈ occs.
Proof.
  induction occs as [|o occs IH]; [done|].
  cbn [np_unique foldr]. fold (np_unique occs).
  rewrite unique_insert_keys, IH, elem_of_cons. done.
Qed.










Lemma sum_axis1_app m1 m2 : sum_axis1 (m1 ++ m2) = sum_axis1 m1 ++ sum_axis1 m2.
Proof. apply map_app. Qed.

Lemma bytes_to_bits_app G p1 p2 :
  _bytes_to_bits G (p1 ++ p2) = _bytes_to_bits G p1 ++ _bytes_to_bits G p2.
Proof. apply map_app. Qed.

Lemma take_plus {A} (l : list A) n m :
  take (n + m) l = take n l ++ take m (drop n l).
Proof.
  revert l. induction n as [|n IH]; intros l; [done|].
  destruct l as [|x l]; [simpl; by rewrite take_nil|].
  simpl. by rewrite IH.
Qed.

Lemma take_drop_split {A} (l : list A) k n m :
  take (n + m) (drop k l) = take n (drop k l) ++ take m (drop (k + n) l).
Proof. by rewrite take_plus, drop_drop. Qed.

Lemma query_occ_counts_spec g name start end_ step m g' :
  query g name start end_ step = Ok (m, g') ->
  query_occ_counts g name start end_ step = Ok (bitsum_count (sum_axis1 m), g').
Proof. intros Hq. unfold query_occ_counts. by rewrite Hq. Qed.

(** A query at full resolution returns the rows of the range. *)
Lemma query_step1 g rows name i size start end_ :
  session_ok g rows -> 1 ∈ steps g -> chr g !! i = Some (name, size) ->
  0 <= start <= end_ -> end_ <= size ->
  returns (query g name (Some start) (Some end_) 1)
    (_bytes_to_bits (ngenomes g)
       (take (Z.to_nat (end_ - start))
          (drop (Z.to_nat (sumZ (take i (step_sizes g 1)) + start)) (rows 1)))).
Proof.
  intros Hok H1 Hi Hse Hend.
  pose proof Hok as [HG Hnd Hsz Hst Hrows Hfiles].
  pose proof (select_bstep_one (steps g) Hst) as Hsel.
  destruct (session_window g rows i name size start end_ 1 Hok Hi H1 Hse Hend)
    as (_ & _ & _ & _ & Hfit).
  destruct (query_spec g rows name i size start end_ 1 1 Hok Hi Hsel H1 Hse Hfit)
    as (g' & Hquery & _).
  exists g'. rewrite Hquery. by rewrite !Z.div_1_r.
Qed.

(** C10 -- conservation of positions in occurrence counts.  Whatever
    matrix a query returns, [query_occ_counts] returns the table that gives,
    for each number of genomes [k], the number of rows of the matrix with
    exactly [k] genomes, rows without any genome being counted under key 0;
    the values of the table sum to the number of rows.  A valid query of a
    well-formed session does return a matrix. *)
Theorem C10_occ_counts_conserve_positions g name start end_ step :
  (forall m g',
     query g name (Some start) (Some end_) step = Ok (m, g') ->
     exists h,
       query_occ_counts g name (Some start) (Some end_) step = Ok (h, g')
       /\ hist_total h = len m
       /\ (forall k, hist_get h k = occurrences k (sum_axis1 m))
       /\ hist_get h 0 = occurrences 0 (sum_axis1 m))
  /\ (forall rows i size,
        session_ok g rows ->
        chr g !! i = Some (name, size) ->
        (exists s, s ∈ steps g /\ step mod s = 0) ->
        0 <= start <= end_ -> end_ <= size ->
        exists m g', query g name (Some start) (Some end_) step = Ok (m, g')).
Proof.
  split.
  - intros m g' Hq. exists (bitsum_count (sum_axis1 m)).
    split; [by apply query_occ_counts_spec|]. unfold bitsum_count.
    split; [|split].
    + rewrite value_counts_total. unfold sum_axis1, len. by rewrite length_map.
    + intros k. apply value_counts_get.
    + apply value_counts_get.
  - intros rows i size Hok Hi Hdiv Hse Hend.
    pose proof Hok as [HG Hnd Hsz Hst Hrows Hfiles].
    destruct (select_bstep_stored (steps g) step Hst Hdiv) as (b & Hsel & Hb & _).
    destruct (session_window g rows i name size start end_ b Hok Hi Hb Hse Hend)
      as (_ & _ & _ & _ & Hfit).
    destruct (query_spec g rows name i size start end_ step b Hok Hi Hsel Hb Hse Hfit)
      as (g' & Hquery & _).
    eauto.
Qed.

Lemma C10_occ_counts_conserve_positions_witness :
  exists h g',
    query_occ_counts ex_genome "X" (Some 0) (Some 5) 1 = Ok (h, g')
    /\ hist_total h = 5.
Proof.
  destruct (C10_occ_counts_conserve_positions ex_genome "X" 0 5 1) as [Hcount Hret].
  destruct (Hret (stored_rows ex_w ex_fasta) 0%nat 5) as (m & g' & Hq).
  - exact ex_session_ok.
  - reflexivity.
  - exists 1. split; [left | reflexivity].
  - lia.
  - lia.
  - destruct (Hcount m g' Hq) as (h & Hh & Htotal & _).
    exists h, g'. split; [exact Hh|]. rewrite Htotal.
    pose proof Hq as Hq'. vm_compute in Hq'. by injection Hq' as <- _.
Defined.

(** C6 -- histogram additivity.  For a range [a, c) of a chromosome cut at
    [b], the occurrence counts of [a, c) are, key by key, the sums of the
    occurrence counts of [a, b) and of [b, c). *)
Theorem C6_histogram_additivity g rows name i size a b c :
  session_ok g rows -> 1 ∈ steps g ->
  chr g !! i = Some (name, size) ->
  0 <= a <= b -> b <= c <= size ->
  exists h h1 h2,
    returns (query_occ_counts g name (Some a) (Some c) 1) h
    /\ returns (query_occ_counts g name (Some a) (Some b) 1) h1
    /\ returns (query_occ_counts g name (Some b) (Some c) 1) h2
    /\ forall k, hist_get h k = hist_get h1 k + hist_get h2 k.
Proof.
  intros Hok H1 Hi Hab Hbc.
  destruct (query_step1 g rows name i size a c Hok H1 Hi) as [g0 Hq0]; [lia|lia|].
  destruct (query_step1 g rows name i size a b Hok H1 Hi) as [g1 Hq1]; [lia|lia|].
  destruct (query_step1 g rows name i size b c Hok H1 Hi) as [g2 Hq2]; [lia|lia|].
  apply query_occ_counts_spec in Hq0, Hq1, Hq2.
  eexists _, _, _. split; [by exists g0|]. split; [by exists g1|]. split; [by exists g2|].
  intros k. unfold bitsum_count. rewrite !value_counts_get.
  rewrite <- occurrences_app, <- sum_axis1_app, <- bytes_to_bits_app.
  f_equal. f_equal. f_equal.
  pose proof Hok as [HG Hnd Hsz Hst Hrows Hfiles].
  pose proof (sumZ_nonneg (take i (step_sizes g 1))
                ltac:(by apply Forall_take, step_sizes_nonneg)) as Hoff.
  replace (Z.to_nat (c - a)) with (Z.to_nat (b - a) + Z.to_nat (c - b))%nat by lia.
  rewrite take_drop_split. f_equal. f_equal. f_equal. lia.
Qed.

Lemma C6_histogram_additivity_witness :
  exists h h1 h2,
    returns (query_occ_counts ex_genome "X" (Some 0) (Some 5) 1) h
    /\ returns (query_occ_counts ex_genome "X" (Some 0) (Some 2) 1) h1
    /\ returns (query_occ_counts ex_genome "X" (Some 2) (Some 5) 1) h2
    /\ forall k, hist_get h k = hist_get h1 k + hist_get h2 k.
Proof.
  apply (C6_histogram_additivity ex_genome (stored_rows ex_w ex_fasta) "X" 0%nat 5 0 2 5).
  - exact ex_session_ok.
  - left.
  - reflexivity.
  - lia.
  - lia.
Defined.

Lemma take1_drop {A} (l : list A) q x : l !! q = Some x -> take 1 (drop q l) = [x].
Proof. intros Hx. by rewrite (drop_S _ _ _ Hx). Qed.


Lemma fasta_lookup_chr w (fasta : list (string * string)) g i name seq :
  chr g = map (fun rec => (rec.1, len (packed_rows w rec.2))) fasta ->
  fasta !! i = Some (name, seq) ->
  chr g !! i = Some (name, len (packed_rows w seq)).
Proof. intros Hchr Hi. by rewrite Hchr, list_lookup_fmap, Hi. Qed.

(** The rows of a range of one chromosome that starts on a stored row,
    read at a stored step. *)
Lemma query_stored_rows w fasta bitmaps g i name seq step b q count :
  anchor_ok w fasta -> anchored w fasta bitmaps g ->
  fasta !! i = Some (name, seq) ->
  select_bstep (steps g) step 1 = Ok b -> b ∈ steps g ->
  0 <= q -> 0 <= count ->
  q + count <= len (stride (Z.to_nat b) (packed_rows w seq)) ->
  returns (query g name (Some (q * b)) (Some ((q + count) * b)) step)
    (_bytes_to_bits (ngenomes g)
       ((if 1 <? step / b then stride (Z.to_nat (step / b)) else id)
          (take (Z.to_nat count) (drop (Z.to_nat q) (stride (Z.to_nat b) (packed_rows w seq)))))).
Proof.
  intros Hok Hanc Hi Hsel Hb Hq Hcount Hfit.
  destruct (anchored_inv w fasta bitmaps g Hok Hanc) as (_ & Hchr & _ & Hses).
  pose proof (fasta_lookup_chr w fasta g i name seq Hchr Hi) as Hci.
  pose proof Hses as [HG Hnd Hsz Hst Hrows Hfiles].
  assert (Hpos : 0 < b) by (rewrite Forall_forall in Hst; auto).
  assert (Hq' : q * b / b = q) by (apply Z.div_mul; lia).
  assert (Hc' : ((q + count) * b - q * b) / b = count).
  { replace ((q + count) * b - q * b) with (count * b) by lia. apply Z.div_mul; lia. }
  assert (Hwin : sumZ (take i (step_sizes g b)) + q + count <= len (stored_rows w fasta b)).
  { destruct (Hrows b Hb) as [_ ->].
    pose proof (sumZ_take_le (step_sizes g b) (S i) (step_sizes_nonneg g b Hsz Hpos)) as Hle.
    assert (Hcol : step_sizes g b !! i = Some (ceil_div (len (packed_rows w seq)) b)).
    { unfold step_sizes. by rewrite list_lookup_fmap, Hci. }
    rewrite (sumZ_take_S _ _ _ Hcol) in Hle. rewrite stride_len in Hfit by done. lia. }
  destruct (query_spec g (stored_rows w fasta) name i (len (packed_rows w seq))
              (q * b) ((q + count) * b) step b Hses Hci Hsel Hb)
    as (g' & Hquery & _); [nia | by rewrite Hq', Hc' |].
  exists g'. rewrite Hquery, Hq', Hc'. f_equal. f_equal. f_equal. f_equal.
  by apply (stored_rows_chromosome w fasta g i name seq b q count Hchr Hi Hpos Hq Hcount).
Qed.

(** C1 -- round trip, for the positions a step stores.  After anchoring,
    for every chromosome, every stored step [s] and every position that is
    a multiple of [s] (every position at step 1), the row read back from
    the bitmap of step [s] at the offset computed for that position, and
    unpacked, is the presence row packed and written at that position. *)
Theorem C1_round_trip w fasta bitmaps g i name seq bitmap s pos row :
  anchor_ok w fasta ->
  anchored w fasta bitmaps g ->
  fasta !! i = Some (name, seq) ->
  bitmaps !! i = Some bitmap ->
  s ∈ steps g ->
  0 <= pos -> pos mod s = 0 ->
  bitmap !! Z.to_nat pos = Some row ->
  returns (query g name (Some pos) (Some (pos + s)) s) [row].
Proof.
  intros Hok Hanc Hi Hbm Hs Hpos Hmod Hrow.
  destruct (anchored_inv w fasta bitmaps g Hok Hanc) as (Hbms & Hchr & _ & Hses).
  pose proof Hses as [HG Hnd Hsz Hst Hrows Hfiles].
  assert (Hs0 : 0 < s) by (rewrite Forall_forall in Hst; auto).
  rewrite Hbms, list_lookup_fmap, Hi in Hbm. simpl in Hbm. injection Hbm as <-.
  unfold _bytes_to_bits in Hrow. rewrite list_lookup_fmap in Hrow.
  destruct (packed_rows w seq !! Z.to_nat pos) as [r|] eqn:Hr; [|done].
  simpl in Hrow. injection Hrow as <-.
  pose proof (lookup_lt_Some _ _ _ Hr) as Hlt.
  apply Z.mod_divide in Hmod; [|lia]. destruct Hmod as [q ->].
  assert (0 <= q) by nia.
  pose proof (select_bstep_self (steps g) s Hst Hs) as Hsel.
  assert (Hsq : stride (Z.to_nat s) (packed_rows w seq) !! Z.to_nat q = Some r).
  { rewrite stride_lookup by lia. by rewrite <- Z2Nat.inj_mul by lia. }
  destruct (query_stored_rows w fasta bitmaps g i name seq s s q 1 Hok Hanc Hi Hsel Hs)
    as [g' Hquery]; [lia|lia| |].
  { apply lookup_lt_Some in Hsq. unfold len. lia. }
  replace ((q + 1) * s) with (q * s + s) in Hquery by lia.
  exists g'. rewrite Hquery. f_equal. f_equal.
  rewrite Z.div_same by lia. change (1 <? 1) with false. cbn [id].
  change (Z.to_nat 1) with 1%nat. rewrite (take1_drop _ _ r Hsq).
  destruct Hanc as (w' & _ & -> & _). done.
Qed.

Lemma C1_round_trip_witness :
  returns (query ex_genome "X" (Some 4) (Some 6) 2) [[true; true; true]]
  /\ returns (query ex_genome "Y" (Some 1) (Some 2) 1) [[false; true; false]].
Proof.
  split.
  - apply (C1_round_trip ex_w ex_fasta ex_bitmaps ex_genome 0%nat "X" "ACGTACG"
             [ [true; true; true]; [true; true; false]; [true; false; false];
               [false; true; true]; [true; true; true] ] 2 4).
    + exact ex_anchor_ok.
    + exact ex_anchored.
    + reflexivity.
    + reflexivity.
    + right; left.
    + lia.
    + reflexivity.
    + reflexivity.
  - apply (C1_round_trip ex_w ex_fasta ex_bitmaps ex_genome 1%nat "Y" "TTGCA"
             [ [true; false; true]; [false; true; false]; [false; false; true] ] 1 1).
    + exact ex_anchor_ok.
    + exact ex_anchored.
    + reflexivity.
    + reflexivity.
    + left.
    + lia.
    + reflexivity.
    + reflexivity.
Defined.

(** C1, as stated for every position, fails at a step above 1: in the
    anchored example, at step 2, the offset computed for position 1 of [X]
    is that of the row of position 0, which differs from the row packed
    at position 1. *)
Lemma C1_counterexample :
  anchored ex_w ex_fasta ex_bitmaps ex_genome
  /\ 2 ∈ steps ex_genome
  /\ (exists bitmap, ex_bitmaps !! 0%nat = Some bitmap
        /\ bitmap !! 1%nat = Some [true; true; false])
  /\ returns (query ex_genome "X" (Some 1) (Some 3) 2) [[true; true; true]].
Proof.
  split; [exact ex_anchored|]. split; [right; left|].
  split; [eexists; split; reflexivity|]. eexists. vm_compute. reflexivity.
Qed.

(** C7 -- offset computation.  A valid query mapped to the stored step
    [bstep] reads the decompressed stream from
    [byte_start = nbytes * (offsets[name, bstep] + start // bstep)], where
    the offset is the number of rows of the chromosomes before [name]; it
    asks the reader for [length * nbytes] bytes, [length = (end - start) //
    bstep], and gets that many; the bytes are cut into [length] rows of
    [nbytes] bytes, of which every [(step // bstep)]-th is returned when
    [step // bstep > 1], and all otherwise. *)
Theorem C7_offset_computation g rows name i size start end_ step bstep :
  session_ok g rows ->
  chr g !! i = Some (name, size) ->
  bstep ∈ steps g ->
  0 <= start <= end_ -> end_ <= size ->
  exists off r g' r' voff,
    offsets_loc g name bstep = Ok off
    /\ off = sumZ (take i (step_sizes g bstep))
    /\ bitmaps g !! bstep = Some r
    /\ let byte_start := nbytes g * (off + start / bstep) in
       let length := (end_ - start) / bstep in
       let buf := take (Z.to_nat (length * nbytes g))
                       (drop (Z.to_nat byte_start) (decompress (rd_file r))) in
       let pac := chunks (Z.to_nat length) (Z.to_nat (nbytes g)) buf in
       len buf = length * nbytes g
       /\ len pac = length
       /\ uniform (Z.to_nat (nbytes g)) pac
       /\ _query_bytes g name start end_ step bstep
          = Ok (if 1 <? step / bstep then stride (Z.to_nat (step / bstep)) pac else pac, g')
       /\ bitmaps g' !! bstep = Some r'
       /\ rd_calls r' = rd_calls r ++ [Seek voff; Read (length * nbytes g)].
Proof.
  intros Hok Hi Hb Hse Hend.
  destruct (session_window g rows i name size start end_ bstep Hok Hi Hb Hse Hend)
    as (Hpos & Hoff & Hq & Hcount & Hfit).
  destruct (query_bytes_spec g rows name i size start end_ step bstep Hok Hi Hb Hse)
    as (g' & r & r' & c & d & voff & Hquery & Hsame & Hr & Hr' & Hblk & _ & Hv & Hcalls);
    [lia|].
  pose proof Hok as [HG Hnd Hsz Hst Hrows Hfiles].
  destruct (Hrows bstep Hb) as [Huni Hlen].
  destruct (Hfiles bstep Hb) as (r0 & Hr0 & _ & Hdec & _).
  rewrite Hr in Hr0. injection Hr0 as <-.
  pose proof (nbytes_pos g HG) as Hnb.
  exists (sumZ (take i (step_sizes g bstep))), r, g', r', voff.
  split; [by apply (offsets_loc_spec g i name size)|]. split; [done|]. split; [done|].
  cbv zeta.
  set (rows' := take (Z.to_nat ((end_ - start) / bstep))
                  (drop (Z.to_nat (sumZ (take i (step_sizes g bstep)) + start / bstep))
                     (rows bstep))) in *.
  assert (Hrows' : length rows' = Z.to_nat ((end_ - start) / bstep)).
  { apply take_length_fits; lia. }
  assert (Huni' : uniform (Z.to_nat (nbytes g)) rows')
    by (by apply uniform_take, uniform_drop).
  rewrite Hdec, stream_window by (done || lia). fold rows'.
  rewrite <- Hrows', chunks_concat by done.
  split.
  { unfold len. rewrite (concat_length_uniform _ _ Huni'), Hrows'. lia. }
  split; [unfold len; lia|]. split; [done|].
  split; [|done]. rewrite Hquery. by destruct (1 <? step / bstep).
Qed.

Lemma C7_offset_computation_witness :
  exists pac g',
    _query_bytes ex_genome "Y" 0 3 2 1 = Ok (pac, g') /\ pac = [[5]; [4]].
Proof.
  destruct (C7_offset_computation ex_genome (stored_rows ex_w ex_fasta)
              "Y" 1%nat 3 0 3 2 1)
    as (off & r & g' & r' & voff & _ & Hoff & Hr & _ & _ & _ & Hq & _).
  - exact ex_session_ok.
  - reflexivity.
  - left.
  - lia.
  - lia.
  - injection Hr as <-. subst off. eexists _, g'. split; [exact Hq|].
    vm_compute. reflexivity.
Defined.

(** C8 -- block index load and seek.  [load_bgz_blocks] reads the 8-byte
    count of an index file and that many pairs of 8-byte offsets, and puts
    the entry [(0, 0)] before them.  For a valid query the target offset
    [nbytes * (offsets[name, bstep] + start // bstep)] selects the entry
    [blk] of the loaded index that is the last one whose decompressed
    offset is at most the target (so an entry that starts exactly at the
    target is selected), and the reader is sent to the virtual offset made
    of that entry's compressed offset (shifted by 16 bits) and of the
    distance from the entry's decompressed offset to the target, before
    the bytes are read. *)
Theorem C8_block_index_load_and_seek entries g rows name i size start end_ step bstep :
  Forall (fun e => 0 <= e.1 < 2 ^ 63 /\ 0 <= e.2 < 2 ^ 63) entries ->
  len entries < 2 ^ 64 ->
  session_ok g rows ->
  chr g !! i = Some (name, size) ->
  bstep ∈ steps g ->
  0 <= start <= end_ -> end_ <= size ->
  load_bgz_blocks (gzi_file entries) = Ok ((0, 0) :: entries)
  /\ exists off index r (blk : nat) c d pac g' r',
       offsets_loc g name bstep = Ok off
       /\ blocks g !! bstep = Some index
       /\ bitmaps g !! bstep = Some r
       /\ let target := nbytes g * (off + start / bstep) in
          searchsorted_right (map snd index) target - 1 = Z.of_nat blk
          /\ index !! blk = Some (c, d)
          /\ d <= target
          /\ (forall j c' d', index !! j = Some (c', d') -> d' <= target -> (j <= blk)%nat)
          /\ _query_bytes g name start end_ step bstep = Ok (pac, g')
          /\ bitmaps g' !! bstep = Some r'
          /\ rd_calls r'
             = rd_calls r ++ [Seek (Z.lor (Z.shiftl c 16) (target - d));
                              Read ((end_ - start) / bstep * nbytes g)].
Proof.
  intros Hent Hlen Hok Hi Hb Hse Hend.
  split; [by apply load_bgz_blocks_spec|].
  destruct (session_window g rows i name size start end_ bstep Hok Hi Hb Hse Hend)
    as (Hpos & Hoff & Hq & Hcount & Hfit).
  destruct (query_bytes_spec g rows name i size start end_ step bstep Hok Hi Hb Hse)
    as (g' & r & r' & c & d & voff & Hquery & Hsame & Hr & Hr' & Hblk & [Hd Hc] & Hv & Hcalls);
    [lia|].
  pose proof Hok as [HG Hnd Hsz Hst Hrows Hfiles].
  destruct (Hrows bstep Hb) as [Huni Hrlen].
  destruct (Hfiles bstep Hb) as (r0 & Hr0 & _ & Hdec & _).
  rewrite Hr in Hr0. injection Hr0 as <-.
  pose proof (nbytes_pos g HG) as Hnb.
  set (target := nbytes g * (sumZ (take i (step_sizes g bstep)) + start / bstep)) in *.
  destruct (locate_block (rd_file r) target) as (blk & Hsel & Hlt & Hle & _ & Hlast).
  { rewrite Hdec. unfold len. rewrite (concat_length_uniform _ _ Huni).
    unfold target, len in *. nia. }
  rewrite Hsel in Hd, Hc.
  pose proof (gzi_index_lookup (rd_file r) blk ltac:(by rewrite <- gzi_index_length)) as Hlk.
  rewrite (np_index_nat _ blk (dstart (rd_file r) blk)) in Hd
    by (by rewrite list_lookup_fmap, Hlk).
  rewrite (np_index_nat _ blk (cstart (rd_file r) blk)) in Hc
    by (by rewrite list_lookup_fmap, Hlk).
  injection Hd as <-. injection Hc as <-.
  apply make_virtual_offset_Ok in Hv as (-> & _ & _).
  eexists _, _, r, blk, _, _, _, g', r'.
  split; [by apply (offsets_loc_spec g i name size)|]. split; [exact Hblk|].
  split; [done|]. cbv zeta. fold target.
  split; [done|]. split; [exact Hlk|]. split; [done|]. split.
  { intros j c' d' Hj Hd'. apply (Hlast j d'); [|done].
    by rewrite list_lookup_fmap, Hj. }
  split; [exact Hquery|]. split; [done|]. exact Hcalls.
Qed.

Lemma C8_block_index_load_and_seek_witness :
  load_bgz_blocks (gzi_file [(30, 3); (70, 8)]) = Ok [(0, 0); (30, 3); (70, 8)]
  /\ exists g' r',
       returns (_query_bytes ex_genome "Y" 1 3 1 1) [[2]; [4]]
       /\ _query_bytes ex_genome "Y" 1 3 1 1 = Ok ([[2]; [4]], g')
       /\ bitmaps g' !! 1 = Some r'
       /\ rd_calls r' = [Seek (Z.lor (Z.shiftl 30 16) 3); Read 2].
Proof.
  destruct (C8_block_index_load_and_seek [(30, 3); (70, 8)]
              ex_genome (stored_rows ex_w ex_fasta) "Y" 1%nat 3 1 3 1 1)
    as (Hload & off & index & r & blk & c & d & pac & g' & r'
        & Hoff & Hindex & Hr & Hsel & Hlk & _ & _ & Hq & Hr' & Hcalls).
  - apply (bool_decide_unpack _). by vm_compute.
  - by vm_compute.
  - exact ex_session_ok.
  - reflexivity.
  - left.
  - lia.
  - lia.
  - split; [exact Hload|].
    injection Hoff as <-. injection Hindex as <-. injection Hr as <-.
    assert (blk = 1%nat) as ->.
    { match type of Hsel with ?x = _ =>
        let v := eval vm_compute in x in change x with v in Hsel end. lia. }
    injection Hlk as <- <-.
    assert (pac = [[2]; [4]]) as ->.
    { pose proof Hq as Hq'. vm_compute in Hq'. by injection Hq' as <- _. }
    exists g', r'. split; [by exists g'|]. split; [exact Hq|]. split; [exact Hr'|].
    rewrite Hcalls. by vm_compute.
Defined.

Lemma select_bstep_ge steps step : forall b0 b,
  select_bstep steps step b0 = Ok b -> b0 <= b.
Proof.
  induction steps as [|s steps IH]; intros b0 b; cbn [select_bstep].
  - intros [= <-]. lia.
  - destruct (s =? 0); [discriminate|].
    destruct (step mod s =? 0); intros Hb; apply IH in Hb; lia.
Qed.

Lemma stride_nil {A} k : stride k (@nil A) = [].
Proof. reflexivity. Qed.

(** C2 -- bounds checking, as the code has it.  A query with [start > end]
    fails: the decoder is asked for a negative number of bytes (or an
    earlier lookup or seek fails).  A query with [start == end] inside the
    chromosome returns a matrix without rows.  (The code does not compare
    [end] with the chromosome length.) *)
Theorem C2_bounds_checking g name start end_ step :
  (end_ < start -> is_Err (query g name (Some start) (Some end_) step))
  /\ (forall rows i size,
        session_ok g rows ->
        chr g !! i = Some (name, size) ->
        (exists s, s ∈ steps g /\ step mod s = 0) ->
        0 <= start <= size -> end_ = start ->
        returns (query g name (Some start) (Some end_) step) []).
Proof.
  split.
  - intros Hlt. unfold query.
    destruct (select_bstep (steps g) step 1) as [b|e] eqn:Hsel; [|apply is_Err_Err].
    rewrite bind_Ok, bind_Ok. apply is_Err_bind.
    apply query_bytes_negative; [|done].
    apply select_bstep_ge in Hsel. lia.
  - intros rows i size Hok Hi Hdiv Hstart ->.
    pose proof Hok as [HG Hnd Hsz Hst Hrows Hfiles].
    destruct (select_bstep_stored (steps g) step Hst Hdiv) as (b & Hsel & Hb & _).
    destruct (session_window g rows i name size start start b Hok Hi Hb) as
      (Hpos & Hoff & Hq & Hcount & Hfit); [lia|lia|].
    destruct (query_spec g rows name i size start start step b Hok Hi Hsel Hb)
      as (g' & Hquery & _); [lia|lia|].
    exists g'. rewrite Hquery. f_equal. f_equal.
    replace (start - start) with 0 by lia. rewrite Z.div_0_l by lia.
    change (Z.to_nat 0) with 0%nat. rewrite take_0.
    by destruct (1 <? step / b).
Qed.

Lemma C2_bounds_checking_witness :
  is_Err (query ex_genome "X" (Some 3) (Some 2) 1)
  /\ returns (query ex_genome "Y" (Some 3) (Some 3) 2) [].
Proof.
  split.
  - apply (C2_bounds_checking ex_genome "X" 3 2 1). lia.
  - apply (C2_bounds_checking ex_genome "Y" 3 3 2) 
      with (rows := stored_rows ex_w ex_fasta) (i := 1%nat) (size := 3).
    + exact ex_session_ok.
    + reflexivity.
    + exists 2. split; [right; left | reflexivity].
    + lia.
    + reflexivity.
Defined.

(** C2, as stated, fails: on chromosome [X] (5 positions) the query of
    [1, 7) at step 1 does not fail but returns six rows, the last two
    being rows of chromosome [Y]; on the last chromosome [Y] (3 positions)
    the query of [1, 7) returns the two rows that are left in the file. *)
Lemma C2_counterexample :
  seq_len ex_genome "X" = Ok 5
  /\ returns (query ex_genome "X" (Some 1) (Some 7) 1)
       [ [true; true; false]; [true; false; false]; [false; true; true];
         [true; true; true]; [true; false; true]; [false; true; false] ]
  /\ seq_len ex_genome "Y" = Ok 3
  /\ returns (query ex_genome "Y" (Some 1) (Some 7) 1)
       [ [false; true; false]; [false; false; true] ].
Proof.
  split; [reflexivity|]. split; [eexists; vm_compute; reflexivity|].
  split; [reflexivity|]. eexists; vm_compute; reflexivity.
Qed.






(** C4 -- the width of a row with more than 32 genomes.  With 40 genomes
    in two groups a row should take [nbytes = 5] bytes, four of the first
    group and one of the last; [_query_kmc_bytes] keeps four bytes of each
    group ([db_i] never equals [len(kmc_dbs)]), so [_write_bitmap] writes
    rows of eight bytes.  (With the single database that [Index.run_anchor]
    passes, four bytes are kept, not five.) *)
Theorem C4_row_width_forty_genomes :
  w_nbytes ex_w40 = 5
  /\ map (kmc_width ex_w40) (seqZ 0 (len (kmc_dbs ex_w40))) = [4; 4]
  /\ kmc_width (mkw 40 [1] [ex_db40] ∅) 0 = 4
  /\ exists bitmap w',
       _write_bitmap ex_w40 "X" "ACGT" = Ok (bitmap, w')
       /\ w_bitmaps w' !! 1
          = Some [255; 255; 255; 255; 255; 255; 255; 255; 1; 0; 0; 0; 1; 0; 0; 0].
Proof.
  split; [reflexivity|]. split; [reflexivity|]. split; [reflexivity|].
  eexists _, _. split; [vm_compute; reflexivity|]. reflexivity.
Qed.


Lemma bind_byte_bits_length (row : list Z) : length (row ≫= byte_bits) = (8 * length row)%nat.
Proof.
  induction row as [|b row IH]; [done|].
  change ((b :: row) ≫= byte_bits) with (byte_bits b ++ (row ≫= byte_bits)).
  rewrite length_app, IH. simpl. lia.
Qed.

Lemma bytes_to_bits_columns G nb pac :
  0 <= G -> G <= 8 * nb -> uniform (Z.to_nat nb) pac ->
  Forall (fun row => len row = G) (_bytes_to_bits G pac).
Proof.
  intros HG Hnb Huni. unfold _bytes_to_bits. apply Forall_fmap.
  eapply Forall_impl; [exact Huni|]. intros row Hrow. unfold compose, len.
  rewrite length_take, bind_byte_bits_length, Hrow. lia.
Qed.

Lemma nbytes_covers g : ngenomes g <= 8 * nbytes g.
Proof.
  unfold nbytes, ceil_div.
  pose proof (Z.div_mod (- ngenomes g) 8 ltac:(lia)).
  pose proof (Z.mod_pos_bound (- ngenomes g) 8 ltac:(lia)). lia.
Qed.





(** * Further properties of the read path *)

(** ** The layout of the rows *)

Lemma sumZ_take_mono l i j :
  Forall (fun x => 0 <= x) l -> (i <= j)%nat -> sumZ (take i l) <= sumZ (take j l).
Proof.
  intros Hl Hij.
  replace (take i l) with (take i (take j l)) by (rewrite take_take; f_equal; lia).
  apply sumZ_take_le. by apply Forall_take.
Qed.

Lemma div_lt_ceil_div p size s : 0 < s -> 0 <= p < size -> p / s < ceil_div size s.
Proof.
  intros Hs Hp. unfold ceil_div.
  pose proof (Z.div_mod p s ltac:(lia)). pose proof (Z.mod_pos_bound p s Hs).
  pose proof (Z.div_mod (- size) s ltac:(lia)). pose proof (Z.mod_pos_bound (- size) s Hs).
  nia.
Qed.

Lemma step_sizes_lookup g s i name size :
  chr g !! i = Some (name, size) -> step_sizes g s !! i = Some (ceil_div size s).
Proof. intros Hi. unfold step_sizes. by rewrite list_lookup_fmap, Hi. Qed.

(** The rows of a chromosome lie between its offset and the offset of the
    next chromosome. *)
Lemma row_in_chromosome g s i name size p :
  Forall (fun c => 0 <= c.2) (chr g) -> 0 < s ->
  chr g !! i = Some (name, size) -> 0 <= p < size ->
  sumZ (take i (step_sizes g s)) <= sumZ (take i (step_sizes g s)) + p / s
  /\ sumZ (take i (step_sizes g s)) + p / s < sumZ (take (S i) (step_sizes g s)).
Proof.
  intros Hsz Hs Hi Hp.
  rewrite (sumZ_take_S _ i _ (step_sizes_lookup g s i name size Hi)).
  pose proof (div_lt_ceil_div p size s Hs Hp).
  pose proof (Z.div_pos p s ltac:(lia) Hs). lia.
Qed.

(** The row of the bitmap of step [s] that holds a position is
    [offsets[name, s] + pos // s] (the row [_query_bytes] starts to read
    from).  Every position of every chromosome has its row inside the
    bitmap, and two positions share a row only when they are positions of
    the same chromosome that the step maps to the same stored row: the rows
    of different chromosomes never overlap. *)
Theorem row_address_injective g s i1 i2 n1 n2 size1 size2 p1 p2 :
  NoDup (chr g).*1 -> Forall (fun c => 0 <= c.2) (chr g) ->
  0 < s -> s ∈ steps g ->
  chr g !! i1 = Some (n1, size1) -> chr g !! i2 = Some (n2, size2) ->
  0 <= p1 < size1 -> 0 <= p2 < size2 ->
  exists o1 o2,
    offsets_loc g n1 s = Ok o1 /\ offsets_loc g n2 s = Ok o2
    /\ 0 <= o1 + p1 / s < sumZ (step_sizes g s)
    /\ (o1 + p1 / s = o2 + p2 / s -> n1 = n2 /\ p1 / s = p2 / s).
Proof.
  intros Hnd Hsz Hs Hin H1 H2 Hp1 Hp2.
  exists (sumZ (take i1 (step_sizes g s))), (sumZ (take i2 (step_sizes g s))).
  pose proof (step_sizes_nonneg g s Hsz Hs) as Hnn.
  destruct (row_in_chromosome g s i1 n1 size1 p1 Hsz Hs H1 Hp1) as [Ha1 Hb1].
  destruct (row_in_chromosome g s i2 n2 size2 p2 Hsz Hs H2 Hp2) as [Ha2 Hb2].
  repeat split.
  - by apply (offsets_loc_spec g i1 n1 size1).
  - by apply (offsets_loc_spec g i2 n2 size2).
  - pose proof (sumZ_nonneg (take i1 (step_sizes g s)) ltac:(by apply Forall_take)). lia.
  - pose proof (sumZ_take_le (step_sizes g s) (S i1) Hnn). lia.
  - destruct (decide (i1 = i2)) as [->|Hne]; [congruence|exfalso].
    destruct (decide (i1 < i2)%nat).
    + pose proof (sumZ_take_mono (step_sizes g s) (S i1) i2 Hnn ltac:(lia)). lia.
    + pose proof (sumZ_take_mono (step_sizes g s) (S i2) i1 Hnn ltac:(lia)). lia.
  - destruct (decide (i1 = i2)) as [->|Hne]; [lia|exfalso].
    destruct (decide (i1 < i2)%nat).
    + pose proof (sumZ_take_mono (step_sizes g s) (S i1) i2 Hnn ltac:(lia)). lia.
    + pose proof (sumZ_take_mono (step_sizes g s) (S i2) i1 Hnn ltac:(lia)). lia.
Qed.

Lemma row_address_injective_witness :
  exists o1 o2,
    offsets_loc ex_genome "X" 2 = Ok o1 /\ offsets_loc ex_genome "Y" 2 = Ok o2
    /\ 0 <= o1 + 4 / 2 < sumZ (step_sizes ex_genome 2)
    /\ (o1 + 4 / 2 = o2 + 0 / 2 -> "X" = "Y" /\ 4 / 2 = 0 / 2).
Proof.
  apply (row_address_injective ex_genome 2 0 1 "X" "Y" 5 3 4 0).
  - apply (ok_names _ _ ex_session_ok).
  - apply (ok_sizes _ _ ex_session_ok).
  - lia.
  - apply (bool_decide_unpack _). by vm_compute.
  - reflexivity.
  - reflexivity.
  - lia.
  - lia.
Defined.

(** ** Queries that fail, and what a query leaves behind *)

Lemma select_bstep_total steps step :
  Forall (fun s => s <> 0) steps -> forall b0, exists b, select_bstep steps step b0 = Ok b.
Proof.
  induction 1 as [|s steps Hs _ IH]; intros b0; [by exists b0|].
  cbn [select_bstep]. destruct (s =? 0) eqn:E; [lia|].
  destruct (step mod s =? 0); apply IH.
Qed.

Lemma chr_index_missing g name : name ∉ (chr g).*1 -> chr_index g name = Err KeyError.
Proof.
  intros Hn. unfold chr_index.
  destruct (list_find (fun c => c.1 = name) (chr g)) as [[i c]|] eqn:E; [|done].
  apply list_find_Some in E as (Hi & Hc & _). exfalso. apply Hn.
  rewrite <- Hc. apply list_elem_of_fmap_2. by eapply list_elem_of_lookup_2.
Qed.

(** A query for a chromosome that the table of the genome does not list
    fails with [KeyError], whatever the range and the step (the stored
    steps being nonzero, so that the choice of the step to read does not
    fail first). *)
Theorem query_unknown_chromosome g name start end_ step :
  name ∉ (chr g).*1 -> Forall (fun s => s <> 0) (steps g) ->
  query g name start end_ step = Err KeyError.
Proof.
  intros Hn Hs. unfold query.
  destruct (select_bstep_total (steps g) step Hs 1) as [b ->].
  rewrite bind_Ok.
  destruct end_ as [e|].
  - rewrite bind_Ok. unfold _query_bytes, offsets_loc.
    by rewrite (chr_index_missing g name Hn).
  - unfold seq_len. by rewrite (chr_index_missing g name Hn).
Qed.

Lemma query_unknown_chromosome_witness :
  query ex_genome "Z" None None 1 = Err KeyError.
Proof.
  apply query_unknown_chromosome.
  - apply (bool_decide_unpack _). by vm_compute.
  - apply (ok_steps _ _ ex_session_ok) || (repeat constructor; lia).
Defined.

Lemma bgzf_seek_Ok r voff r' :
  bgzf_seek r voff = Ok r' ->
  rd_file r' = rd_file r /\ rd_calls r' = rd_calls r ++ [Seek voff].
Proof.
  unfold bgzf_seek. intros H.
  apply bind_inv_Ok in H as (bl & _ & H).
  destruct (len (buffer_of bl) <? _); [done|].
  by injection H as <-.
Qed.

Lemma bgzf_read_Ok r n data r' :
  bgzf_read r n = Ok (data, r') ->
  rd_file r' = rd_file r /\ rd_calls r' = rd_calls r ++ [Read n].
Proof.
  unfold bgzf_read. intros H.
  destruct (n <? 0); [done|].
  apply bind_inv_Ok in H as (bl & _ & H).
  destruct (read_loop bl _ _ _) as [d [st wi]].
  by injection H as <- <-.
Qed.

Lemma query_bytes_frame g name start end_ step bstep pac g' :
  _query_bytes g name start end_ step bstep = Ok (pac, g') ->
  exists r r' voff n,
    ngenomes g' = ngenomes g /\ steps g' = steps g
    /\ chr g' = chr g /\ blocks g' = blocks g
    /\ bitmaps g !! bstep = Some r
    /\ bitmaps g' = <[bstep := r']> (bitmaps g)
    /\ rd_file r' = rd_file r
    /\ rd_calls r' = rd_calls r ++ [Seek voff; Read n].
Proof.
  unfold _query_bytes. intros H.
  apply bind_inv_Ok in H as (off & _ & H).
  destruct (bstep =? 0); [done|].
  apply bind_inv_Ok in H as (index & _ & H).
  apply bind_inv_Ok in H as (d & _ & H).
  apply bind_inv_Ok in H as (c & _ & H).
  apply bind_inv_Ok in H as (r & Hr & H).
  apply bind_inv_Ok in H as (voff & _ & H).
  apply bind_inv_Ok in H as (r1 & Hseek & H).
  apply bind_inv_Ok in H as ([buf r2] & Hread & H).
  apply bgzf_seek_Ok in Hseek as [Hf1 Hc1].
  apply bgzf_read_Ok in Hread as [Hf2 Hc2].
  destruct (nbytes _ =? 0); [done|].
  apply bind_inv_Ok in H as (pac' & _ & H).
  exists r, r2, voff, ((end_ - start) / bstep * nbytes g).
  assert (Hg : g' = mk (ngenomes g) (steps g) (chr g) (blocks g) (<[bstep := r2]> (bitmaps g))).
  { destruct (1 <? step / bstep); by injection H as _ <-. }
  subst g'. cbn.
  unfold dict_get in Hr. destruct (bitmaps g !! bstep) as [r0|] eqn:E; [|done].
  injection Hr as ->.
  repeat split; try done.
  - congruence.
  - rewrite Hc2, Hc1, <- (assoc_L (++)). done.
Qed.

(** A query that returns has chosen a step to read, [bstep]; it has sent
    the reader of that step one [seek] and then one [read], and nothing
    else has changed: the number of genomes, the steps, the chromosome
    table and the block indexes are as before, the readers of the other
    steps are untouched, and the reader of [bstep] is still on the same
    file. *)
Theorem query_touches_one_reader g name start end_ step m g' :
  query g name start end_ step = Ok (m, g') ->
  exists bstep r r' voff n,
    select_bstep (steps g) step 1 = Ok bstep
    /\ ngenomes g' = ngenomes g /\ steps g' = steps g
    /\ chr g' = chr g /\ blocks g' = blocks g
    /\ bitmaps g !! bstep = Some r
    /\ bitmaps g' !! bstep = Some r'
    /\ (forall s, s <> bstep -> bitmaps g' !! s = bitmaps g !! s)
    /\ rd_file r' = rd_file r
    /\ rd_calls r' = rd_calls r ++ [Seek voff; Read n].
Proof.
  unfold query. intros H.
  apply bind_inv_Ok in H as (bstep & Hsel & H).
  apply bind_inv_Ok in H as (e & _ & H).
  apply bind_inv_Ok in H as ([pac g1] & Hq & H).
  injection H as _ <-.
  apply query_bytes_frame in Hq
    as (r & r' & voff & n & HG & Hst & Hchr & Hbl & Hr & Hbm & Hf & Hc).
  exists bstep, r, r', voff, n. repeat split; try done.
  - rewrite Hbm. apply lookup_insert_eq.
  - intros s Hs. rewrite Hbm. by apply lookup_insert_ne.
Qed.

Lemma query_touches_one_reader_witness :
  exists bstep r r' voff n,
    select_bstep (steps ex_genome) 2 1 = Ok bstep
    /\ bitmaps ex_genome !! bstep = Some r
    /\ rd_file r' = rd_file r
    /\ rd_calls r' = rd_calls r ++ [Seek voff; Read n].
Proof.
  destruct (query_touches_one_reader ex_genome "Y" (Some 0) (Some 4) 2
              [[true; false; true]; [false; false; true]]
              (mk 3 [1; 2] [("X", 5); ("Y", 3)]%string (blocks ex_genome)
                 (<[2 := mkReader (ex_file 2) 30 2 [Seek 1966080; Read 2]]>
                    (bitmaps ex_genome))))
    as (bstep & r & r' & voff & n & Hsel & _ & _ & _ & _ & Hr & _ & _ & Hf & Hc).
  - vm_compute. reflexivity.
  - by exists bstep, r, r', voff, n.
Defined.

(** ** A query does not depend on the queries before it *)

Lemma same_outcome_bind {A B} (m : result A) (f1 f2 : A -> result (B * t)) :
  (forall a, same_outcome (f1 a) (f2 a)) -> same_outcome (m ≫= f1) (m ≫= f2).
Proof. intros H. destruct m as [a|e]; [apply H|done]. Qed.

Lemma same_outcome_if {B} (c : bool) (m1 m2 n1 n2 : result (B * t)) :
  same_outcome m1 m2 -> same_outcome n1 n2 ->
  same_outcome (if c then m1 else n1) (if c then m2 else n2).
Proof. by destruct c. Qed.

Lemma seek_same_file r1 r2 voff :
  rd_file r1 = rd_file r2 ->
  match bgzf_seek r1 voff, bgzf_seek r2 voff with
  | Ok r1', Ok r2' =>
      rd_file r1' = rd_file r2' /\ rd_block_start r1' = rd_block_start r2'
      /\ rd_within r1' = rd_within r2'
  | Err e1, Err e2 => e1 = e2
  | _, _ => False
  end.
Proof.
  intros Hf. unfold bgzf_seek. rewrite Hf.
  destruct (blocks_at (rd_file r2) 0 _) as [bl|e]; [|done].
  rewrite !bind_Ok. by destruct (len (buffer_of bl) <? _).
Qed.

Lemma read_same_file r1 r2 n :
  rd_file r1 = rd_file r2 -> rd_block_start r1 = rd_block_start r2 ->
  rd_within r1 = rd_within r2 ->
  match bgzf_read r1 n, bgzf_read r2 n with
  | Ok (d1, r1'), Ok (d2, r2') => d1 = d2 /\ rd_file r1' = rd_file r2'
  | Err e1, Err e2 => e1 = e2
  | _, _ => False
  end.
Proof.
  intros Hf Hs Hw. unfold bgzf_read. rewrite Hf, Hs, Hw.
  destruct (n <? 0); [done|].
  destruct (blocks_at (rd_file r2) 0 _) as [bl|e]; [|done].
  rewrite !bind_Ok. by destruct (read_loop bl _ _ _) as [d [st wi]].
Qed.

Lemma query_bytes_same_files g1 g2 name start end_ step bstep :
  same_files g1 g2 ->
  same_outcome (_query_bytes g1 name start end_ step bstep)
               (_query_bytes g2 name start end_ step bstep).
Proof.
  destruct g1 as [G st ch bl bm1], g2 as [G2 st2 ch2 bl2 bm2].
  intros (HG & Hst & Hch & Hbl & Hbm). cbn in HG, Hst, Hch, Hbl, Hbm. subst G2 st2 ch2 bl2.
  unfold _query_bytes.
  change (offsets_loc (mk G st ch bl bm2) name bstep)
    with (offsets_loc (mk G st ch bl bm1) name bstep).
  apply same_outcome_bind. intros off.
  apply same_outcome_if; [done|].
  cbn [blocks bitmaps ngenomes steps chr].
  change (nbytes (mk G st ch bl bm2)) with (nbytes (mk G st ch bl bm1)).
  apply same_outcome_bind. intros index.
  apply same_outcome_bind. intros d.
  apply same_outcome_bind. intros c.
  pose proof (Hbm bstep) as Hb. unfold dict_get.
  destruct (bm1 !! bstep) as [r1|], (bm2 !! bstep) as [r2|]; try done.
  cbn in Hb. injection Hb as Hf. cbn [of_option]. rewrite !bind_Ok.
  apply same_outcome_bind. intros voff.
  pose proof (seek_same_file r1 r2 voff (eq_sym Hf)) as Hseek.
  destruct (bgzf_seek r1 voff) as [r1'|e1], (bgzf_seek r2 voff) as [r2'|e2]; try done.
  destruct Hseek as (Hf' & Hs' & Hw'). rewrite !bind_Ok.
  pose proof (read_same_file r1' r2' ((end_ - start) / bstep * nbytes (mk G st ch bl bm1))
                Hf' Hs' Hw') as Hread.
  destruct (bgzf_read r1' _) as [[d1 r1'']|e1], (bgzf_read r2' _) as [[d2 r2'']|e2];
    try done.
  destruct Hread as [-> Hf'']. rewrite !bind_Ok.
  repeat match goal with
  | |- context [nbytes (mk ?a ?b ?c ?d ?e)] =>
      change (nbytes (mk a b c d e)) with (nbytes (mk G st ch bl bm1))
  end.
  apply same_outcome_if; [done|].
  apply same_outcome_bind. intros pac.
  assert (Hsame : same_files (mk G st ch bl (<[bstep := r1'']> bm1))
                             (mk G st ch bl (<[bstep := r2'']> bm2))).
  { repeat split; try done. intros s. cbn.
    destruct (decide (s = bstep)) as [->|Hne].
    - rewrite !lookup_insert_eq. cbn. by rewrite Hf''.
    - rewrite !lookup_insert_ne by done.
      apply Hbm. }
  by apply same_outcome_if.
Qed.

Lemma query_same_files g1 g2 name start end_ step :
  same_files g1 g2 ->
  same_outcome (query g1 name start end_ step) (query g2 name start end_ step).
Proof.
  intros Hsame. pose proof Hsame as (HG & Hst & Hch & _).
  unfold query. rewrite <- Hst.
  apply same_outcome_bind. intros bstep.
  assert (Hlen : seq_len g1 name = seq_len g2 name).
  { unfold seq_len, chr_index. by rewrite Hch. }
  rewrite Hlen.
  apply same_outcome_bind. intros e.
  pose proof (query_bytes_same_files g1 g2 name (default 0 start) e step bstep Hsame) as Hq.
  destruct (_query_bytes g1 _ _ _ _ _) as [[p1 g1']|e1],
           (_query_bytes g2 _ _ _ _ _) as [[p2 g2']|e2]; try done.
  destruct Hq as [-> Hs]. rewrite !bind_Ok. cbn. by rewrite HG.
Qed.

Lemma query_leaves_same_files g name start end_ step m g' :
  query g name start end_ step = Ok (m, g') -> same_files g g'.
Proof.
  unfold query. intros H.
  apply bind_inv_Ok in H as (bstep & _ & H).
  apply bind_inv_Ok in H as (e & _ & H).
  apply bind_inv_Ok in H as ([pac g1] & Hq & H).
  injection H as _ <-.
  apply query_bytes_frame in Hq
    as (r & r' & voff & n & HG & Hst & Hchr & Hbl & Hr & Hbm & Hf & Hc).
  repeat split; try done. intros s. rewrite Hbm.
  destruct (decide (s = bstep)) as [->|Hne].
  - rewrite lookup_insert_eq, Hr. cbn. by rewrite Hf.
  - by rewrite lookup_insert_ne.
Qed.

(** The matrix a query returns, or the exception it raises, does not
    depend on the queries made before it: on the genome that a query has
    left, every query has the outcome it has on the genome as it was (a
    query positions the reader itself before it reads). *)
Theorem query_history_independent g name0 start0 end0 step0 m0 g' name start end_ step :
  query g name0 start0 end0 step0 = Ok (m0, g') ->
  same_outcome (query g name start end_ step) (query g' name start end_ step).
Proof.
  intros H0. apply query_same_files.
  by apply (query_leaves_same_files g name0 start0 end0 step0 m0).
Qed.

Lemma query_history_independent_witness :
  same_outcome
    (query ex_genome "X" (Some 1) (Some 3) 1)
    (query (mk 3 [1; 2] [("X", 5); ("Y", 3)]%string (blocks ex_genome)
              (<[2 := mkReader (ex_file 2) 30 2 [Seek 1966080; Read 2]]>
                 (bitmaps ex_genome)))
           "X" (Some 1) (Some 3) 1).
Proof.
  apply (query_history_independent ex_genome "Y" (Some 0) (Some 4) 2
           [[true; false; true]; [false; false; true]]).
  vm_compute. reflexivity.
Defined.

(** ** The shape of the matrix returned *)

Lemma ceil_div_1 a : ceil_div a 1 = a.
Proof. unfold ceil_div. rewrite Z.div_1_r. lia. Qed.

(** A query of a range inside a chromosome, at a step [step >= 1] that a
    stored step divides, returns a matrix with one column per genome and
    [ceil(((end - start) // bstep) / (step // bstep))] rows, [bstep] being
    the stored step read. *)
Theorem query_shape g rows name i size start end_ step :
  session_ok g rows -> chr g !! i = Some (name, size) ->
  1 <= step -> (exists s, s ∈ steps g /\ step mod s = 0) ->
  0 <= start <= end_ -> end_ <= size ->
  exists m bstep,
    returns (query g name (Some start) (Some end_) step) m
    /\ select_bstep (steps g) step 1 = Ok bstep
    /\ len m = ceil_div ((end_ - start) / bstep) (step / bstep)
    /\ Forall (fun row => len row = ngenomes g) m.
Proof.
  intros Hok Hi Hstep Hdiv Hse Hend.
  pose proof Hok as [HG Hnd Hsz Hst Hrows Hfiles].
  destruct (select_bstep_stored (steps g) step Hst Hdiv) as (b & Hsel & Hb & Hmod & _).
  destruct (session_window g rows i name size start end_ b Hok Hi Hb Hse Hend)
    as (Hpos & Hoff & Hq & Hcount & Hfit).
  destruct (query_spec g rows name i size start end_ step b Hok Hi Hsel Hb Hse Hfit)
    as (g' & Hquery & _).
  remember (sumZ (take i (step_sizes g b)) + start / b) as first eqn:Hfirst.
  remember ((end_ - start) / b) as count eqn:Hcnt.
  cbn zeta in Hquery.
  remember (take (Z.to_nat count) (drop (Z.to_nat first) (rows b))) as win eqn:Hw.
  assert (Hwin : len win = count).
  { unfold len. rewrite Hw, (take_length_fits (rows b) first count);
      [by rewrite Z2Nat.id|subst first; by apply Z.add_nonneg_nonneg|done|done]. }
  assert (Huni : uniform (Z.to_nat (nbytes g)) win).
  { rewrite Hw. apply uniform_take, uniform_drop. by destruct (Hrows b Hb). }
  assert (Hk : 1 <= step / b).
  { apply Z.div_le_lower_bound; [lia|].
    apply Z.mod_divide in Hmod; [|lia]. destruct Hmod as [q ->].
    clear - Hstep Hpos.
    assert (1 <= q) by (apply Z.nlt_ge; intros ?; assert (q * b <= 0) by nia; lia).
    nia. }
  eexists _, b. split; [by exists g'|]. split; [done|]. split.
  - rewrite bytes_to_bits_length.
    destruct (1 <? step / b) eqn:E.
    + rewrite stride_len by lia. by rewrite Hwin, Hcnt.
    + assert (step / b = 1) as -> by lia. rewrite ceil_div_1. cbn [id]. by rewrite Hwin, Hcnt.
  - apply (bytes_to_bits_columns _ (nbytes g)); [lia|apply nbytes_covers|].
    destruct (1 <? step / b) eqn:E; [|done].
    apply uniform_stride; [lia|done].
Qed.

Lemma query_shape_witness :
  exists m bstep,
    returns (query ex_genome "X" (Some 0) (Some 5) 4) m
    /\ select_bstep (steps ex_genome) 4 1 = Ok bstep
    /\ len m = ceil_div ((5 - 0) / bstep) (4 / bstep)
    /\ Forall (fun row => len row = ngenomes ex_genome) m.
Proof.
  apply (query_shape ex_genome (stored_rows ex_w ex_fasta) "X" 0 5 0 5 4).
  - exact ex_session_ok.
  - reflexivity.
  - lia.
  - exists 2. split; [|reflexivity]. apply (bool_decide_unpack _). by vm_compute.
  - lia.
  - lia.
Defined.

(** ** Adjacent ranges *)

(** At full resolution the matrix of a range is the matrix of its first
    part followed by the matrix of the rest, wherever the range is cut. *)
Theorem query_adjacent_ranges g rows name i size a b c :
  session_ok g rows -> 1 ∈ steps g -> chr g !! i = Some (name, size) ->
  0 <= a <= b -> b <= c <= size ->
  exists m1 m2,
    returns (query g name (Some a) (Some b) 1) m1
    /\ returns (query g name (Some b) (Some c) 1) m2
    /\ returns (query g name (Some a) (Some c) 1) (m1 ++ m2).
Proof.
  intros Hok H1 Hi Hab Hbc.
  pose proof (query_step1 g rows name i size a b Hok H1 Hi ltac:(lia) ltac:(lia)) as Q1.
  pose proof (query_step1 g rows name i size b c Hok H1 Hi ltac:(lia) ltac:(lia)) as Q2.
  pose proof (query_step1 g rows name i size a c Hok H1 Hi ltac:(lia) ltac:(lia)) as Q3.
  eexists _, _. split; [exact Q1|]. split; [exact Q2|].
  rewrite <- bytes_to_bits_app.
  pose proof (sumZ_nonneg (take i (step_sizes g 1))
                ltac:(apply Forall_take, step_sizes_nonneg;
                      [apply (ok_sizes _ _ Hok)|lia])) as Hoff.
  replace (Z.to_nat (c - a)) with (Z.to_nat (b - a) + Z.to_nat (c - b))%nat in Q3 by lia.
  rewrite take_drop_split in Q3.
  replace (Z.to_nat (sumZ (take i (step_sizes g 1)) + a) + Z.to_nat (b - a))%nat
    with (Z.to_nat (sumZ (take i (step_sizes g 1)) + b)) in Q3 by lia.
  exact Q3.
Qed.

Lemma query_adjacent_ranges_witness :
  exists m1 m2,
    returns (query ex_genome "X" (Some 1) (Some 2) 1) m1
    /\ returns (query ex_genome "X" (Some 2) (Some 5) 1) m2
    /\ returns (query ex_genome "X" (Some 1) (Some 5) 1) (m1 ++ m2).
Proof.
  apply (query_adjacent_ranges ex_genome (stored_rows ex_w ex_fasta) "X" 0 5 1 2 5).
  - exact ex_session_ok.
  - apply (bool_decide_unpack _). by vm_compute.
  - reflexivity.
  - lia.
  - lia.
Defined.

(** ** Reading back a whole chromosome *)



(** * Further properties of anchoring *)

(** ** The bits of a presence row *)
















(** ** The size of the files written *)





(** ** Steps that anchoring cannot store *)








(** * Further properties of the loaders and of the index *)

(** ** A block index file without its count *)

(** An index file shorter than the eight bytes of the block count (an
    empty file, for one) cannot be loaded: [load_bgz_blocks] fails with
    [IndexError], on the first element of the empty array that
    [np.fromfile] returns. *)
Theorem load_bgz_blocks_short_file idx_in :
  len idx_in < 8 -> load_bgz_blocks idx_in = Err IndexError.
Proof.
  intros Hlen. unfold load_bgz_blocks, fromfile.
  assert (Hn : (length idx_in / 8 = 0)%nat).
  { apply Nat.div_small. unfold len in Hlen. lia. }
  rewrite Hn. cbn [Nat.min Z.to_nat Pos.to_nat Pos.iter_op Nat.add chunks map].
  change (Z.to_nat 1 `min` 0)%nat with 0%nat. cbn [chunks map drop Nat.mul].
  done.
Qed.

Lemma load_bgz_blocks_short_file_witness :
  load_bgz_blocks [3; 0; 0; 0] = Err IndexError.
Proof. apply load_bgz_blocks_short_file. unfold len. simpl. lia. Defined.

(** ** Counts beyond the number of genomes *)

Lemma np_put_Ok_length ret i v ret' :
  np_put ret i v = Ok ret' -> length ret' = length ret.
Proof.
  unfold np_put. intros H.
  destruct ((0 <=? i) && (i <? len ret)).
  - injection H as <-. by rewrite length_insert.
  - destruct ((- len ret <=? i) && (i <? 0)); [|done].
    injection H as <-. by rewrite length_insert.
Qed.

Lemma np_put_Err ret i v e : np_put ret i v = Err e -> e = IndexError.
Proof.
  unfold np_put. intros H.
  destruct ((0 <=? i) && (i <? len ret)); [done|].
  destruct ((- len ret <=? i) && (i <? 0)); [done|]. congruence.
Qed.

Lemma put_counts_overflow u : forall ret,
  (exists o c, (o, c) ∈ u /\ len ret < o) ->
  foldM (fun ret '(o, c) => np_put ret (o - 1) c) ret u = Err IndexError.
Proof.
  induction u as [|[o c] u IH]; intros ret (o' & c' & Hin & Hbig).
  - by apply elem_of_nil in Hin.
  - cbn [foldM].
    destruct (np_put ret (o - 1) c) as [ret'|e] eqn:E.
    + rewrite bind_Ok.
      apply elem_of_cons in Hin as [Heq|Hin].
      * injection Heq as <- <-. exfalso. unfold np_put in E.
        pose proof (len_nonneg ret).
        destruct (Z.leb_spec 0 (o' - 1)), (Z.ltb_spec (o' - 1) (len ret)); cbn in E;
          try lia.
        destruct (Z.leb_spec (- len ret) (o' - 1)), (Z.ltb_spec (o' - 1) 0); cbn in E;
          try lia; done.
      * apply IH. exists o', c'. split; [done|].
        apply np_put_Ok_length in E. unfold len in *. lia.
    + by rewrite (np_put_Err _ _ _ _ E).
Qed.

(** [Index.bitsum_count] has an entry for each number of genomes from 1
    to [ngenomes]: given a count above [ngenomes] it fails with
    [IndexError], whatever the other counts are. *)
Theorem index_bitsum_count_overflow ngenomes occs o :
  0 <= ngenomes -> o ∈ occs -> ngenomes < o ->
  Index.bitsum_count ngenomes occs = Err IndexError.
Proof.
  intros HG Ho Hbig. unfold Index.bitsum_count.
  apply put_counts_overflow.
  apply np_unique_keys in Ho. apply list_elem_of_fmap in Ho as ([o' c] & -> & Hin).
  exists o', c. split; [done|].
  unfold len. rewrite length_replicate. cbn [fst] in Hbig. lia.
Qed.

Lemma index_bitsum_count_overflow_witness :
  Index.bitsum_count 2 [1; 3; 1] = Err IndexError.
Proof.
  apply (index_bitsum_count_overflow 2 [1; 3; 1] 3).
  - lia.
  - apply (bool_decide_unpack _). by vm_compute.
  - lia.
Defined.

(** ** Queries through the index *)

Lemma index_query_bitmap_Ok genomes genome chrom start end_ step m genomes' :
  Index.query_bitmap genomes genome chrom start end_ step = Ok (m, genomes') ->
  exists g g',
    genomes !! genome = Some g
    /\ query g chrom start end_ step = Ok (m, g')
    /\ genomes' = <[genome := g']> genomes.
Proof.
  unfold Index.query_bitmap, Index.__getitem__. intros H.
  destruct (genomes !! genome) as [g|]; [|done]. cbn [of_option] in H.
  rewrite bind_Ok in H.
  apply bind_inv_Ok in H as ([m1 g'] & Hq & H). injection H as <- <-.
  by exists g, g'.
Qed.

(** The genomes of an index are queried independently of what was
    queried before: after a query of any genome has returned, a query
    through the index (of the same genome or of another, known to the
    index or not) returns the matrix, or raises the exception, that it
    would have before. *)
Theorem index_query_bitmap_history_independent
    genomes genome0 chrom0 start0 end0 step0 m0 genomes'
    genome chrom start end_ step :
  Index.query_bitmap genomes genome0 chrom0 start0 end0 step0 = Ok (m0, genomes') ->
  match Index.query_bitmap genomes genome chrom start end_ step,
        Index.query_bitmap genomes' genome chrom start end_ step with
  | Ok (m1, _), Ok (m2, _) => m1 = m2
  | Err e1, Err e2 => e1 = e2
  | _, _ => False
  end.
Proof.
  intros H0.
  apply index_query_bitmap_Ok in H0 as (g0 & g0' & Hg0 & Hq0 & ->).
  unfold Index.query_bitmap, Index.__getitem__.
  destruct (decide (genome = genome0)) as [->|Hne].
  - rewrite lookup_insert_eq, Hg0. cbn [of_option]. rewrite !bind_Ok.
    pose proof (query_same_files g0 g0' chrom start end_ step
                  (query_leaves_same_files g0 chrom0 start0 end0 step0 m0 g0' Hq0)) as Hs.
    destruct (query g0 chrom start end_ step) as [[m1 g1]|e1],
             (query g0' chrom start end_ step) as [[m2 g2]|e2]; try done.
    by destruct Hs.
  - rewrite lookup_insert_ne by done.
    destruct (genomes !! genome) as [g|]; [|done]. cbn [of_option]. rewrite !bind_Ok.
    by destruct (query g chrom start end_ step) as [[m1 g1]|e1].
Qed.

Lemma index_query_bitmap_history_independent_witness :
  match Index.query_bitmap {[ "g1"%string := ex_genome ]} "g1" "X" (Some 1) (Some 3) 1,
        Index.query_bitmap
          {[ "g1"%string :=
               mk 3 [1; 2] [("X", 5); ("Y", 3)]%string (blocks ex_genome)
                  (<[2 := mkReader (ex_file 2) 30 2 [Seek 1966080; Read 2]]>
                     (bitmaps ex_genome)) ]}
          "g1" "X" (Some 1) (Some 3) 1 with
  | Ok (m1, _), Ok (m2, _) => m1 = m2
  | Err e1, Err e2 => e1 = e2
  | _, _ => False
  end.
Proof.
  apply (index_query_bitmap_history_independent
           {[ "g1"%string := ex_genome ]} "g1" "Y" (Some 0) (Some 4) 2
           [[true; false; true]; [false; false; true]]).
  unfold Index.query_bitmap, Index.__getitem__.
  rewrite lookup_singleton_eq. cbn [of_option]. rewrite bind_Ok.
  assert (Hq : query ex_genome "Y" (Some 0) (Some 4) 2
               = Ok ([[true; false; true]; [false; false; true]],
                     mk 3 [1; 2] [("X", 5); ("Y", 3)]%string (blocks ex_genome)
                        (<[2 := mkReader (ex_file 2) 30 2 [Seek 1966080; Read 2]]>
                           (bitmaps ex_genome)))).
  { vm_compute. reflexivity. }
  rewrite Hq, bind_Ok. by rewrite insert_singleton_eq.
Defined.

(** * The groups of 32 genomes *)

(** ** The numbering of the genomes *)

Lemma iter_kmc_genome_args_from_lookup prefix samples : forall i db_i k name fasta,
  0 <= i <= 32 ->
  samples !! k = Some (name, fasta) ->
  exists a,
    Index.iter_kmc_genome_args_from prefix i db_i samples !! k = Some a
    /\ Index.arg_name a = name /\ Index.arg_fasta a = fasta
    /\ Index.arg_onehot_db a = Index.kmc_prefix prefix [name; "onehot"]
    /\ Index.arg_db_i a = (32 * db_i + i + Z.of_nat k) / 32
    /\ Index.arg_i a = (32 * db_i + i + Z.of_nat k) mod 32.
Proof.
  induction samples as [|[n f] samples IH]; intros i db_i k name fasta Hi Hk; [done|].
  cbn [Index.iter_kmc_genome_args_from].
  destruct (Z.leb_spec 32 i) as [H32|H32].
  - assert (i = 32) as -> by lia.
    destruct k as [|k].
    + injection Hk as -> ->. eexists. split; [reflexivity|]. cbn.
      repeat split; try done.
      * replace (32 * db_i + 32 + Z.of_nat 0) with ((db_i + 1) * 32) by lia.
        by rewrite Z.div_mul.
      * replace (32 * db_i + 32 + Z.of_nat 0) with ((db_i + 1) * 32) by lia.
        by rewrite Z.mod_mul.
    + cbn [lookup list_lookup] in Hk |- *.
      destruct (IH (0 + 1) (db_i + 1) k name fasta ltac:(lia) Hk)
        as (a & Ha & Hn & Hf & Ho & Hd & Hm).
      exists a. repeat split; try done.
      * rewrite Hd. f_equal. lia.
      * rewrite Hm. f_equal. lia.
  - destruct k as [|k].
    + injection Hk as -> ->. eexists. split; [reflexivity|]. cbn.
      repeat split; try done.
      * replace (32 * db_i + i + Z.of_nat 0) with (db_i * 32 + i) by lia.
        rewrite Z.div_add_l by lia. rewrite Z.div_small by lia. lia.
      * replace (32 * db_i + i + Z.of_nat 0) with (i + db_i * 32) by lia.
        rewrite Z.mod_add by lia. by rewrite Z.mod_small by lia.
    + cbn [lookup list_lookup] in Hk |- *.
      destruct (IH (i + 1) db_i k name fasta ltac:(lia) Hk)
        as (a & Ha & Hn & Hf & Ho & Hd & Hm).
      exists a. repeat split; try done.
      * rewrite Hd. f_equal. lia.
      * rewrite Hm. f_equal. lia.
Qed.

Lemma iter_kmc_genome_args_from_length prefix samples : forall i db_i,
  length (Index.iter_kmc_genome_args_from prefix i db_i samples) = length samples.
Proof.
  induction samples as [|[n f] samples IH]; intros i db_i; [done|].
  cbn [Index.iter_kmc_genome_args_from]. destruct (32 <=? i); cbn; by rewrite IH.
Qed.

(** [_iter_kmc_genome_args] yields a tuple for each sample, in the order
    of the table.  The sample at index [k] (from 0) is given the database
    group [db_i = k // 32] and, within the group, the number [i = k % 32]:
    [0 <= i < 32], so that its one-hot identifier [2 ** i] fits a 32-bit
    counter, and two samples never share both [db_i] and [i], since
    [k = 32 * db_i + i]. *)
Theorem iter_kmc_genome_args_numbering prefix samples k name fasta :
  samples !! k = Some (name, fasta) ->
  length (Index._iter_kmc_genome_args prefix samples) = length samples
  /\ exists a,
       Index._iter_kmc_genome_args prefix samples !! k = Some a
       /\ Index.arg_name a = name /\ Index.arg_fasta a = fasta
       /\ Index.arg_db_i a = Z.of_nat k / 32
       /\ Index.arg_i a = Z.of_nat k mod 32
       /\ 0 <= Index.arg_i a < 32
       /\ Z.of_nat k = 32 * Index.arg_db_i a + Index.arg_i a.
Proof.
  intros Hk. split; [apply iter_kmc_genome_args_from_length|].
  destruct (iter_kmc_genome_args_from_lookup prefix samples 0 0 k name fasta
              ltac:(lia) Hk) as (a & Ha & Hn & Hf & _ & Hd & Hm).
  replace (32 * 0 + 0 + Z.of_nat k) with (Z.of_nat k) in Hd, Hm by lia.
  exists a. repeat split; try done.
  - rewrite Hm. apply Z.mod_pos_bound. lia.
  - rewrite Hm. apply Z.mod_pos_bound. lia.
  - rewrite Hd, Hm. apply Z.div_mod. lia.
Qed.

Lemma iter_kmc_genome_args_numbering_witness :
  length (Index._iter_kmc_genome_args "" (replicate 40 ("g"%string, None))) = 40%nat
  /\ exists a,
       Index._iter_kmc_genome_args "" (replicate 40 ("g"%string, None)) !! 35%nat = Some a
       /\ Index.arg_name a = "g"%string /\ Index.arg_fasta a = None
       /\ Index.arg_db_i a = Z.of_nat 35 / 32
       /\ Index.arg_i a = Z.of_nat 35 mod 32
       /\ 0 <= Index.arg_i a < 32
       /\ Z.of_nat 35 = 32 * Index.arg_db_i a + Index.arg_i a.
Proof.
  apply (iter_kmc_genome_args_numbering "" (replicate 40 ("g"%string, None)) 35 "g" None).
  reflexivity.
Defined.

(** ** The operation files *)

Lemma len_snoc {A} (l : list A) x : len (l ++ [x]) = len l + 1.
Proof. unfold len. rewrite length_app. cbn. lia. Qed.

Lemma append_last_snoc {A} (ls : list (list A)) (last : list A) x :
  append_last (ls ++ [last]) x = Ok (ls ++ [last ++ [x]]).
Proof.
  unfold append_last, np_index.
  pose proof (len_nonneg ls). rewrite len_snoc.
  destruct (Z.leb_spec 0 (-1)); [lia|]. cbn [andb].
  destruct (Z.leb_spec (- (len ls + 1)) (-1)); [|lia].
  destruct (Z.ltb_spec (-1) 0); [|lia]. cbn [andb].
  replace (Z.to_nat (-1 + (len ls + 1))) with (length ls) by (unfold len; lia).
  rewrite lookup_app_r, Nat.sub_diag by lia. cbn [lookup list_lookup of_option].
  rewrite bind_Ok.
  replace (Z.to_nat (len ls + 1 - 1)) with (length ls + 0)%nat by (unfold len; lia).
  by rewrite insert_app_r.
Qed.

Lemma chunks_lookup {A} n (buf : list A) : forall m j,
  (j < m)%nat -> chunks m n buf !! j = Some (take n (drop (j * n) buf)).
Proof.
  intros m. revert buf. induction m as [|m IH]; intros buf j Hj; [lia|].
  cbn [chunks]. destruct j as [|j]; [done|].
  cbn [lookup list_lookup]. rewrite IH by lia.
  by rewrite drop_drop.
Qed.

Lemma chunks_length {A} n (buf : list A) m : length (chunks m n buf) = m.
Proof. revert buf. induction m as [|m IH]; intros buf; [done|]. cbn. by rewrite IH. Qed.

Lemma ceil_div_32_small n : 0 <= n <= 32 -> Z.max 1 (ceil_div n 32) = 1.
Proof.
  intros Hn. unfold ceil_div.
  pose proof (Z.div_mod (- n) 32 ltac:(lia)).
  pose proof (Z.mod_pos_bound (- n) 32 ltac:(lia)). lia.
Qed.

Lemma ceil_div_32_add n : 0 < n -> Z.max 1 (ceil_div (32 + n) 32) = 1 + Z.max 1 (ceil_div n 32).
Proof.
  intros Hn. unfold ceil_div.
  replace (- (32 + n)) with (- n + (-1) * 32) by lia.
  rewrite Z.div_add by lia.
  pose proof (Z.div_mod (- n) 32 ltac:(lia)).
  pose proof (Z.mod_pos_bound (- n) 32 ltac:(lia)). lia.
Qed.

(** The groups of the first loop of [init_opdefs], from a state in which
    the last group is [last]: the databases, 32 to a group. *)
Lemma group_onehot_dbs_spec prefix samples : forall done_ last,
  (length last <= 32)%nat ->
  let pairs := map (fun s : string * option string =>
                      (s.1, Index.kmc_prefix prefix [s.1; "onehot"])) samples in
  Index.group_onehot_dbs prefix (done_ ++ [last]) (len last) samples
  = Ok (done_ ++ chunks (Z.to_nat (Z.max 1 (ceil_div (len (last ++ pairs)) 32))) 32
                        (last ++ pairs)).
Proof.
  induction samples as [|[name fasta] samples IH]; intros done_ last Hlast pairs.
  - cbn [Index.group_onehot_dbs]. unfold pairs. cbn [map]. rewrite app_nil_r.
    rewrite ceil_div_32_small by (unfold len; lia).
    change (Z.to_nat 1) with 1%nat. cbn [chunks].
    by rewrite take_ge by lia.
  - cbn [Index.group_onehot_dbs].
    set (x := (name, Index.kmc_prefix prefix [name; "onehot"])).
    set (rest := map (fun s : string * option string =>
                        (s.1, Index.kmc_prefix prefix [s.1; "onehot"])) samples).
    assert (Hpairs : pairs = x :: rest) by done. rewrite Hpairs. clear Hpairs pairs.
    destruct (Z.eqb_spec (len last) 32) as [H32|H32].
    + rewrite append_last_snoc, bind_Ok. cbn [app].
      specialize (IH (done_ ++ [last]) [x] ltac:(cbn; lia)).
      change (len [x]) with (0 + 1) in IH. rewrite IH. fold rest.
      rewrite <- (assoc_L (++)). do 2 f_equal.
      assert (Hl : length last = 32%nat) by (unfold len in H32; lia).
      rewrite (len_app last), H32.
      rewrite ceil_div_32_add by (unfold len; cbn [app length]; lia).
      rewrite Z2Nat.inj_add by (pose proof (Z.le_max_l 1 (ceil_div (len (x :: rest)) 32)); lia).
      change (Z.to_nat 1) with 1%nat. cbn [Nat.add chunks app].
      rewrite take_app_length', drop_app_length' by done. done.
    + rewrite append_last_snoc, bind_Ok.
      specialize (IH done_ (last ++ [x])
                    ltac:(rewrite length_app; cbn; unfold len in H32; lia)).
      rewrite len_snoc in IH. rewrite IH. fold rest.
      by rewrite <- (assoc_L (++)).
Qed.

Lemma genome_dbs_spec prefix samples :
  let pairs := map (fun s : string * option string =>
                      (s.1, Index.kmc_prefix prefix [s.1; "onehot"])) samples in
  Index.genome_dbs prefix samples
  = Ok (chunks (Z.to_nat (Z.max 1 (Index.kmc_bitvec_count samples))) 32 pairs).
Proof.
  intros pairs. unfold Index.genome_dbs.
  pose proof (group_onehot_dbs_spec prefix samples [] [] ltac:(cbn; lia)) as H.
  cbn [app] in H. change (len (@nil (string * string))) with 0 in H.
  rewrite H. unfold Index.kmc_bitvec_count, pairs, len. by rewrite length_map.
Qed.

Lemma kmc_bitvec_count_nonneg samples : 0 <= Index.kmc_bitvec_count samples.
Proof.
  unfold Index.kmc_bitvec_count, ceil_div. pose proof (len_nonneg samples).
  pose proof (Z.div_mod (- len samples) 32 ltac:(lia)).
  pose proof (Z.mod_pos_bound (- len samples) 32 ltac:(lia)). lia.
Qed.

(** A group below [kmc_bitvec_count] starts inside the sample table. *)
Lemma kmc_bitvec_count_group samples (j : nat) :
  Z.of_nat j < Index.kmc_bitvec_count samples -> (j * 32 < length samples)%nat.
Proof.
  unfold Index.kmc_bitvec_count, ceil_div, len. intros Hj.
  pose proof (Z.div_mod (- Z.of_nat (length samples)) 32 ltac:(lia)).
  pose proof (Z.mod_pos_bound (- Z.of_nat (length samples)) 32 ltac:(lia)). lia.
Qed.

Lemma foldl_snoc_map {A B C} (f : A -> B) (g : A -> C) (l : list A) : forall acc,
  foldl (fun acc '(x, y) => acc ++ [(y, g x)]) acc (map (fun x => (x, f x)) l)
  = acc ++ map (fun x => (f x, g x)) l.
Proof.
  induction l as [|x l IH]; intros acc; cbn [foldl map]; [by rewrite app_nil_r|].
  by rewrite IH, <- (assoc_L (++)).
Qed.

Lemma zip_fmap_diag {A B} (f : A -> B) (l : list A) :
  zip l (map f l) = map (fun x => (x, f x)) l.
Proof. induction l as [|x l IH]; [done|]. cbn. by rewrite IH. Qed.

(** [init_opdefs] does not fail.  It writes [kmc_bitvec_count] files, one
    per group of 32 samples: file [j] is [opdef<j>.txt] of the directory
    [kmc] and holds the operation text for the one-hot databases of the
    samples [32 j] to [32 j + 31] of the table, in the order of the table,
    with [bitvec<j>] of that directory as output.  (For an empty table no
    file is written.) *)
Theorem init_opdefs_spec prefix samples :
  exists files,
    Index.init_opdefs prefix samples = Ok files
    /\ len files = Index.kmc_bitvec_count samples
    /\ forall j : nat, Z.of_nat j < Index.kmc_bitvec_count samples ->
         exists text,
           files !! j
           = Some (Index.kmc_prefix prefix ["opdef" +:+ pretty (Z.of_nat j) +:+ ".txt"],
                   text)
           /\ Index.opdef_text
                (Index.kmc_prefix prefix ["bitvec" +:+ pretty (Z.of_nat j)])
                (map (fun s : string * option string =>
                        (s.1, Index.kmc_prefix prefix [s.1; "onehot"]))
                     (take 32 (drop (j * 32) samples)))
              = Ok text.
Proof.
  set (pair_of := fun s : string * option string =>
                    (s.1, Index.kmc_prefix prefix [s.1; "onehot"])).
  set (cnt := Index.kmc_bitvec_count samples).
  pose proof (kmc_bitvec_count_nonneg samples) as Hcnt. fold cnt in Hcnt.
  set (fname := fun i : Z => Index.kmc_prefix prefix ["opdef" +:+ pretty i +:+ ".txt"]).
  set (bv := fun i : Z => Index.kmc_prefix prefix ["bitvec" +:+ pretty i]).
  set (chunk := fun i : Z => map pair_of (take 32 (drop (Z.to_nat i * 32) samples))).
  set (txt := fun i : Z =>
                match Index.opdef_text (bv i) (chunk i) with Ok t => t | Err _ => "" end).
  assert (Htext : forall i, 0 <= i < cnt -> Index.opdef_text (bv i) (chunk i) = Ok (txt i)).
  { intros i Hi. unfold txt.
    pose proof (kmc_bitvec_count_group samples (Z.to_nat i) ltac:(fold cnt; lia)) as Hlt.
    destruct (lookup_lt_is_Some_2 samples (Z.to_nat i * 32) Hlt) as [s Hs].
    assert (Hne : exists rest, chunk i = pair_of s :: rest).
    { unfold chunk. rewrite (drop_S _ _ _ Hs). cbn. eauto. }
    destruct Hne as [rest ->]. done. }
  assert (Hrun : Index.init_opdefs prefix samples
                 = Ok (map (fun i => (fname i, txt i)) (seqZ 0 cnt))).
  { unfold Index.init_opdefs. rewrite genome_dbs_spec, bind_Ok.
    fold cnt pair_of. unfold Index.opdef_filenames. fold cnt fname.
    assert (Hlen : len (map fname (seqZ 0 cnt)) = cnt).
    { unfold len. rewrite length_map, length_seqZ. lia. }
    rewrite Hlen, zip_fmap_diag.
    rewrite (foldM_Ok _ (fun files '(i, f) => files ++ [(f, txt i)])).
    - by rewrite (foldl_snoc_map fname txt).
    - intros files [i f] Hin.
      apply list_elem_of_fmap in Hin as (i' & Heq & Hi). injection Heq as -> ->.
      apply elem_of_seqZ in Hi.
      rewrite <- (Z2Nat.id i') at 1 by lia.
      rewrite (np_index_nat _ (Z.to_nat i') (chunk i')).
      + rewrite bind_Ok. fold (bv i'). rewrite Htext by lia. by rewrite bind_Ok.
      + rewrite chunks_lookup by lia. unfold chunk.
        by rewrite fmap_take, fmap_drop. }
  eexists. split; [exact Hrun|]. split.
  { unfold len. rewrite length_map, length_seqZ. lia. }
  intros j Hj. exists (txt (Z.of_nat j)). split.
  - rewrite list_lookup_fmap, lookup_seqZ_lt by lia. done.
  - rewrite <- (Htext (Z.of_nat j)) by lia. unfold chunk. by rewrite Nat2Z.id.
Qed.

(** The one-hot database that [_iter_kmc_genome_args] announces for a
    sample, with its group [db_i] and its number [i] in the group, is
    input number [i] of the operation file of group [db_i]: the groups of
    [init_opdefs] are those of [_iter_kmc_genome_args]. *)
Theorem opdef_inputs_match_args prefix samples k a :
  Index._iter_kmc_genome_args prefix samples !! k = Some a ->
  exists dbs group,
    Index.genome_dbs prefix samples = Ok dbs
    /\ dbs !! Z.to_nat (Index.arg_db_i a) = Some group
    /\ group !! Z.to_nat (Index.arg_i a) = Some (Index.arg_name a, Index.arg_onehot_db a)
    /\ Index.arg_db_i a < Index.kmc_bitvec_count samples.
Proof.
  intros Ha.
  assert (Hk : (k < length samples)%nat).
  { apply lookup_lt_Some in Ha.
    unfold Index._iter_kmc_genome_args in Ha.
    by rewrite iter_kmc_genome_args_from_length in Ha. }
  destruct (lookup_lt_is_Some_2 samples k Hk) as [[name fasta] Hs].
  destruct (iter_kmc_genome_args_from_lookup prefix samples 0 0 k name fasta
              ltac:(lia) Hs) as (a' & Ha' & Hn & _ & Ho & Hd & Hm).
  unfold Index._iter_kmc_genome_args in Ha. rewrite Ha in Ha'. injection Ha' as <-.
  replace (32 * 0 + 0 + Z.of_nat k) with (Z.of_nat k) in Hd, Hm by lia.
  rewrite Hd, Hm, Hn, Ho.
  pose proof (Z.div_mod (Z.of_nat k) 32 ltac:(lia)) as Hdm.
  pose proof (Z.mod_pos_bound (Z.of_nat k) 32 ltac:(lia)) as Hmb.
  pose proof (Z.div_pos (Z.of_nat k) 32 ltac:(lia) ltac:(lia)) as Hdp.
  assert (Hcnt : Z.of_nat k / 32 < Index.kmc_bitvec_count samples).
  { unfold Index.kmc_bitvec_count, ceil_div, len.
    pose proof (Z.div_mod (- Z.of_nat (length samples)) 32 ltac:(lia)).
    pose proof (Z.mod_pos_bound (- Z.of_nat (length samples)) 32 ltac:(lia)). lia. }
  eexists _, _. split; [apply genome_dbs_spec|]. split; [|split; [|done]].
  - apply chunks_lookup. lia.
  - rewrite lookup_take_lt by lia. rewrite lookup_drop, list_lookup_fmap.
    replace (Z.to_nat (Z.of_nat k / 32) * 32 + Z.to_nat (Z.of_nat k mod 32))%nat
      with k by lia.
    by rewrite Hs.
Qed.

Lemma opdef_inputs_match_args_witness :
  exists dbs group,
    Index.genome_dbs "" (replicate 40 ("g"%string, None)) = Ok dbs
    /\ dbs !! Z.to_nat 1 = Some group
    /\ group !! Z.to_nat 3 = Some ("g"%string, "kmc/g.onehot"%string)
    /\ 1 < Index.kmc_bitvec_count (replicate 40 ("g"%string, None)).
Proof.
  apply (opdef_inputs_match_args "" (replicate 40 ("g"%string, None)) 35
           (Index.KmcGenomeArgs 1 3 "g" None "kmc/g.count" "kmc/g.onehot" "tmp/g" None)).
  vm_compute. reflexivity.
Defined.

(** * The occurrence bins *)

Lemma ceil_div_bounds a b :
  0 < b -> b * (ceil_div a b - 1) < a <= b * ceil_div a b.
Proof.
  intros Hb. unfold ceil_div.
  pose proof (Z.div_mod (- a) b ltac:(lia)). pose proof (Z.mod_pos_bound (- a) b Hb).
  nia.
Qed.

Lemma concat_chunks {A} n (buf : list A) : forall m,
  concat (chunks m n buf) = take (m * n) buf.
Proof.
  intros m. revert buf. induction m as [|m IH]; intros buf; [done|].
  cbn [chunks concat]. rewrite IH. cbn [Nat.mul].
  by rewrite take_plus.
Qed.

(** The slice of a bin that starts inside the array. *)
Lemma np_slice_bin {A} (a : list A) (j : nat) binlen :
  0 < binlen -> Z.of_nat j * binlen < len a ->
  np_slice a (Z.of_nat j * binlen) (Z.min (Z.of_nat j * binlen + binlen) (len a))
  = take (Z.to_nat binlen) (drop (j * Z.to_nat binlen) a).
Proof.
  intros Hb Hj. unfold np_slice, slice_bound.
  set (st := Z.of_nat j * binlen) in *.
  assert (Hst : 0 <= st) by (unfold st; nia).
  destruct (Z.ltb_spec st 0); [lia|].
  destruct (Z.ltb_spec (Z.min (st + binlen) (len a)) 0); [lia|].
  rewrite (Z.min_l st) by lia. rewrite (Z.min_l (Z.min _ _) (len a)) by lia.
  replace (Z.to_nat st) with (j * Z.to_nat binlen)%nat by (unfold st; nia).
  destruct (Z.le_ge_cases (st + binlen) (len a)).
  - rewrite Z.min_l by lia. f_equal. lia.
  - rewrite Z.min_r by lia.
    rewrite !take_ge; [done| |]; rewrite length_drop; unfold len in *; unfold st in *; nia.
Qed.

(** The rows of [bin_occs], bin by bin. *)
Lemma bin_occs_rows ngenomes chr_bin_kbp bitsum :
  0 < chr_bin_kbp ->
  let binlen := chr_bin_kbp * 1000 in
  bin_occs ngenomes chr_bin_kbp bitsum
  = Ok (map (fun j =>
               (j * binlen, Z.min (j * binlen + binlen) (len bitsum),
                reindex (value_counts
                           (np_slice bitsum (j * binlen)
                                     (Z.min (j * binlen + binlen) (len bitsum))))
                        (map (fun c => c + 1) (seqZ 0 ngenomes))))
            (seqZ 0 (ceil_div (len bitsum) binlen))).
Proof.
  intros Hkbp binlen. unfold bin_occs, np_arange. fold binlen.
  assert (Hb : 0 < binlen) by (unfold binlen; lia).
  destruct (Z.eqb_spec binlen 0); [lia|]. rewrite bind_Ok.
  rewrite Z.sub_0_r, zip_fmap_diag, !map_map. f_equal.
  apply map_ext_in. intros j Hj.
  apply list_elem_of_In, elem_of_seqZ in Hj.
  assert (Hclip : np_clip (0 + j * binlen + binlen) 0 (len bitsum)
                  = Z.min (j * binlen + binlen) (len bitsum)).
  { unfold np_clip. rewrite Z.add_0_l. rewrite (Z.max_l _ 0) by nia. apply Z.min_comm. }
  rewrite Hclip. by rewrite Z.add_0_l.
Qed.

Lemma ceil_div_len_nonneg {A} (a : list A) b : 0 < b -> 0 <= ceil_div (len a) b.
Proof.
  intros Hb. pose proof (ceil_div_bounds (len a) b Hb). pose proof (len_nonneg a). nia.
Qed.

(** The bins cut the array into consecutive pieces. *)
Lemma bin_slices {A} (a : list A) binlen :
  0 < binlen ->
  map (fun j => np_slice a (j * binlen) (Z.min (j * binlen + binlen) (len a)))
      (seqZ 0 (ceil_div (len a) binlen))
  = chunks (Z.to_nat (ceil_div (len a) binlen)) (Z.to_nat binlen) a.
Proof.
  intros Hb.
  pose proof (ceil_div_len_nonneg a binlen Hb) as HN.
  pose proof (ceil_div_bounds (len a) binlen Hb) as [Hlo _].
  apply list_eq. intros j.
  destruct (decide (Z.of_nat j < ceil_div (len a) binlen)) as [Hj|Hj].
  - rewrite list_lookup_fmap, lookup_seqZ_lt by done.
    rewrite chunks_lookup by lia. cbn. rewrite Z.add_0_l.
    rewrite np_slice_bin; [done|done|nia].
  - rewrite !lookup_ge_None_2; [done| |].
    + rewrite chunks_length. lia.
    + rewrite length_map, length_seqZ. lia.
Qed.

Lemma concat_bin_slices {A} (a : list A) binlen :
  0 < binlen ->
  concat (map (fun j => np_slice a (j * binlen) (Z.min (j * binlen + binlen) (len a)))
              (seqZ 0 (ceil_div (len a) binlen)))
  = a.
Proof.
  intros Hb. rewrite bin_slices, concat_chunks by done.
  pose proof (ceil_div_len_nonneg a binlen Hb) as HN.
  pose proof (ceil_div_bounds (len a) binlen Hb) as [_ Hhi].
  apply take_ge. unfold len in *. nia.
Qed.

(** [run_anchor] cuts the positions of a record into bins of
    [chr_bin_kbp * 1000] positions, the last one shorter when the length
    is not a multiple: [ceil(len / binlen)] bins, bin [j] from
    [j * binlen] to [min((j + 1) * binlen, len)], none of them empty, and
    the positions of the bins, one bin after the other, are the positions
    of the record. *)
Theorem bin_occs_tiles ngenomes chr_bin_kbp bitsum :
  0 < chr_bin_kbp ->
  exists rows,
    bin_occs ngenomes chr_bin_kbp bitsum = Ok rows
    /\ len rows = ceil_div (len bitsum) (chr_bin_kbp * 1000)
    /\ (forall (j : nat) st en cnts, rows !! j = Some (st, en, cnts) ->
          st = Z.of_nat j * (chr_bin_kbp * 1000)
          /\ en = Z.min (st + chr_bin_kbp * 1000) (len bitsum)
          /\ 0 <= st < en)
    /\ concat (map (fun r => np_slice bitsum r.1.1 r.1.2) rows) = bitsum.
Proof.
  intros Hkbp.
  assert (Hb : 0 < chr_bin_kbp * 1000) by lia.
  pose proof (ceil_div_len_nonneg bitsum _ Hb) as HN.
  pose proof (ceil_div_bounds (len bitsum) _ Hb) as [Hlo Hhi].
  eexists. split; [by apply bin_occs_rows|]. split; [|split].
  - unfold len at 1. rewrite length_map, length_seqZ. lia.
  - intros j st en cnts Hj.
    rewrite list_lookup_fmap in Hj.
    destruct (seqZ 0 _ !! j) as [j'|] eqn:E; [|done].
    apply lookup_seqZ in E as [-> Hlt]. cbn in Hj. injection Hj as <- <- _.
    rewrite Z.add_0_l. split; [done|]. split; [done|]. nia.
  - rewrite map_map. cbn [fst snd]. by apply concat_bin_slices.
Qed.

Lemma bin_occs_tiles_witness :
  exists rows,
    bin_occs 3 1 (replicate 2500 1) = Ok rows
    /\ len rows = ceil_div (len (replicate 2500 1)) (1 * 1000)
    /\ (forall (j : nat) st en cnts, rows !! j = Some (st, en, cnts) ->
          st = Z.of_nat j * (1 * 1000)
          /\ en = Z.min (st + 1 * 1000) (len (replicate 2500 1))
          /\ 0 <= st < en)
    /\ concat (map (fun r => np_slice (replicate 2500 1) r.1.1 r.1.2) rows)
       = replicate 2500 1.
Proof. apply (bin_occs_tiles 3 1 (replicate 2500 1)). lia. Defined.

Lemma occurrences_concat k (ls : list (list Z)) :
  occurrences k (concat ls) = sumZ (map (occurrences k) ls).
Proof.
  induction ls as [|l ls IH]; [done|].
  cbn [concat map sumZ foldr]. by rewrite occurrences_app, IH.
Qed.

Lemma value_counts_entry occs k :
  value_counts occs !! k
  = if decide (occurrences k occs = 0) then None else Some (occurrences k occs).
Proof.
  destruct (value_counts occs !! k) as [c|] eqn:E.
  - apply value_counts_lookup in E as [-> Hin].
    apply occurrences_pos in Hin. destruct (decide _); [lia|done].
  - pose proof (value_counts_get occs k) as H. unfold hist_get in H. rewrite E in H.
    cbn in H. rewrite <- H. by destruct (decide _).
Qed.

(** The table of a bin has a column for each number of genomes from 1 to
    [ngenomes], and none for 0: column [k] holds the number of positions
    of the bin at which exactly [k] genomes have the k-mer, and no value
    when there is no such position.  Over the bins of a record, the values
    of column [k] sum to the number of positions of the record with
    exactly [k] genomes (a missing value counting for 0); positions
    without any genome are counted in no column. *)
Theorem bin_occs_counts ngenomes chr_bin_kbp bitsum k :
  0 < chr_bin_kbp -> 1 <= k <= ngenomes ->
  exists rows,
    bin_occs ngenomes chr_bin_kbp bitsum = Ok rows
    /\ (forall st en cnts, (st, en, cnts) ∈ rows ->
          len cnts = ngenomes
          /\ cnts !! Z.to_nat (k - 1)
             = Some (if decide (occurrences k (np_slice bitsum st en) = 0) then None
                     else Some (occurrences k (np_slice bitsum st en))))
    /\ sumZ (map (fun r => default 0 (default None (r.2 !! Z.to_nat (k - 1)))) rows)
       = occurrences k bitsum.
Proof.
  intros Hkbp Hk.
  assert (Hb : 0 < chr_bin_kbp * 1000) by lia.
  eexists. split; [by apply bin_occs_rows|]. split.
  - intros st en cnts Hin.
    apply list_elem_of_fmap in Hin as (j & Heq & _). injection Heq as -> -> ->.
    unfold reindex. split.
    + unfold len. rewrite !length_map, length_seqZ. lia.
    + rewrite map_map, list_lookup_fmap, lookup_seqZ_lt by lia. cbn.
      replace (0 + Z.of_nat (Z.to_nat (k - 1)) + 1) with k by lia.
      by rewrite value_counts_entry.
  - rewrite map_map. cbn [snd].
    rewrite <- (concat_bin_slices bitsum (chr_bin_kbp * 1000) Hb) at 2.
    rewrite occurrences_concat, map_map. f_equal. apply map_ext. intros j.
    unfold reindex.
    rewrite map_map, list_lookup_fmap, lookup_seqZ_lt by lia. cbn.
    replace (0 + Z.of_nat (Z.to_nat (k - 1)) + 1) with k by lia.
    rewrite value_counts_entry. by destruct (decide _).
Qed.

Lemma bin_occs_counts_witness :
  exists rows,
    bin_occs 3 1 (replicate 1500 2 ++ [0; 3]) = Ok rows
    /\ (forall st en cnts, (st, en, cnts) ∈ rows ->
          len cnts = 3
          /\ cnts !! Z.to_nat (2 - 1)
             = Some (if decide (occurrences 2 (np_slice (replicate 1500 2 ++ [0; 3]) st en) = 0)
                     then None
                     else Some (occurrences 2 (np_slice (replicate 1500 2 ++ [0; 3]) st en))))
    /\ sumZ (map (fun r => default 0 (default None (r.2 !! Z.to_nat (2 - 1)))) rows)
       = occurrences 2 (replicate 1500 2 ++ [0; 3]).
Proof. apply (bin_occs_counts 3 1 (replicate 1500 2 ++ [0; 3]) 2); lia. Defined.

(** * The chromosome table *)




(** * The files of a genome *)

Lemma string_length_app (s t : string) :
  String.length (s +:+ t) = (String.length s + String.length t)%nat.
Proof.
  induction s as [|c s IH]; [done|].
  change (S (String.length (s +:+ t)) = S (String.length s + String.length t)).
  by rewrite IH.
Qed.

Lemma string_app_nil_r (s : string) : s +:+ "" = s.
Proof.
  induction s as [|c s IH]; [done|].
  change (String c (s +:+ "") = String c s). by rewrite IH.
Qed.

Lemma string_app_assoc (s t u : string) : (s +:+ t) +:+ u = s +:+ (t +:+ u).
Proof.
  induction s as [|c s IH]; [done|].
  change (String c ((s +:+ t) +:+ u) = String c (s +:+ (t +:+ u))). by rewrite IH.
Qed.

Lemma string_app_inv_tail (s1 s2 t : string) : s1 +:+ t = s2 +:+ t -> s1 = s2.
Proof.
  revert s2. induction s1 as [|c s1 IH]; intros [|c2 s2] H.
  - done.
  - exfalso. apply (f_equal String.length) in H.
    change (String.length t = S (String.length (s2 +:+ t))) in H.
    rewrite string_length_app in H. lia.
  - exfalso. apply (f_equal String.length) in H.
    change (S (String.length (s1 +:+ t)) = String.length t) in H.
    rewrite string_length_app in H. lia.
  - change (String c (s1 +:+ t) = String c2 (s2 +:+ t)) in H.
    injection H as -> H. f_equal. by apply IH.
Qed.

(** A file name that does not start with a slash is put in the directory:
    the directory part does not depend on the name. *)
Lemma os_path_join_file prefix (b : string) :
  startswith b "/" = false ->
  os_path_join prefix [b] = os_path_join prefix [""] +:+ b.
Proof.
  intros Hb. unfold os_path_join. cbn [foldl]. rewrite Hb.
  change (startswith "" "/") with false. cbv iota.
  destruct (String.eqb prefix "" || endswith prefix "/").
  - by rewrite string_app_nil_r.
  - by rewrite <- !string_app_assoc, string_app_nil_r.
Qed.

Lemma bitmap_name_no_slash (s : string) : startswith ("bitmap." +:+ s) "/" = false.
Proof. done. Qed.

(** The bitmaps of two different steps are different files, and so are
    their block indexes; the bitmap of a step is never the block index of
    a step. *)
Theorem step_files_distinct prefix s1 s2 :
  (bgz_fname prefix s1 = bgz_fname prefix s2 <-> s1 = s2)
  /\ (idx_fname prefix s1 = idx_fname prefix s2 <-> s1 = s2)
  /\ String.eqb (bgz_fname prefix s1) (idx_fname prefix s2) = false.
Proof.
  unfold bgz_fname, idx_fname.
  rewrite !(os_path_join_file prefix ("bitmap." +:+ _)) by apply bitmap_name_no_slash.
  split; [|split].
  - split; [|by intros ->]. intros H.
    apply (inj (String.append _)), (inj (String.append _)) in H.
    apply string_app_inv_tail in H. by apply (inj pretty).
  - split; [|by intros ->]. intros H.
    apply (inj (String.append _)), (inj (String.append _)) in H.
    apply string_app_inv_tail in H. by apply (inj pretty).
  - apply String.eqb_neq. intros H.
    apply (inj (String.append _)), (inj (String.append _)) in H.
    pose proof (f_equal String.length H) as Hlen.
    rewrite !string_length_app in Hlen. cbn in Hlen.
    pose proof (String.append_correct2 (pretty s1) ("." +:+ BGZ_SUFFIX) 2) as H1.
    pose proof (String.append_correct2 (pretty s2) ("." +:+ IDX_SUFFIX) 3) as H2.
    rewrite H in H1.
    replace (2 + String.length (pretty s1))%nat
      with (3 + String.length (pretty s2))%nat in H1 by lia.
    rewrite <- H2 in H1. done.
Qed.
